(** * A UTXO ledger with proof-of-work blocks and fork tracking

    Shallow embedding of the Python package [src/blockchain] (transaction.py,
    utxo.py, block.py, blockchain.py) and of the older single-file ledger
    [blockchain.py], followed by the properties established about them.

    Conventions of the embedding:
    - a Python [int] is a [Z]; the difficulty, a count of leading zero
      digits, is a [nat];
    - a Python [str] is a [string] (its UTF-8 bytes), so [s.encode()] is the
      identity;
    - a [dict] is a [gmap], a [set] a [gset], a [list] a [list];
    - a Python exception ([IndexError], [ValueError]) is the result [None]
      of a function into [option];
    - a timestamp (a float in the source) is an integer number of
      microseconds; nothing but hashing ever reads one. *)

From Stdlib Require Import ZArith Ascii String List.
From stdpp Require Import gmap strings list fin_maps pretty.

Local Open Scope Z_scope.

(** ** hashlib.sha256

    FIPS 180-4 SHA-256 over the bytes of a string, rendered as the 64
    lower-case hexadecimal digits that [hexdigest()] returns. *)
Module SHA256.

Definition w32 (x : Z) : Z := Z.land x 0xffffffff.

Definition rotr (n x : Z) : Z :=
  Z.lor (Z.shiftr x n) (w32 (Z.shiftl x (32 - n))).

Definition Ch (x y z : Z) : Z :=
  Z.lxor (Z.land x y) (Z.land (Z.lxor x 0xffffffff) z).

Definition Maj (x y z : Z) : Z :=
  Z.lxor (Z.lxor (Z.land x y) (Z.land x z)) (Z.land y z).

Definition Sigma0 (x : Z) : Z := Z.lxor (Z.lxor (rotr 2 x) (rotr 13 x)) (rotr 22 x).
Definition Sigma1 (x : Z) : Z := Z.lxor (Z.lxor (rotr 6 x) (rotr 11 x)) (rotr 25 x).
Definition sigma0 (x : Z) : Z := Z.lxor (Z.lxor (rotr 7 x) (rotr 18 x)) (Z.shiftr x 3).
Definition sigma1 (x : Z) : Z := Z.lxor (Z.lxor (rotr 17 x) (rotr 19 x)) (Z.shiftr x 10).

(** The constants are fractional parts of roots of the first primes. *)
Definition is_prime (p : Z) : bool :=
  forallb (fun d => negb (p mod d =? 0)) (seqZ 2 (p - 2)).

Definition first_primes (n : nat) : list Z :=
  take n (List.filter is_prime (seqZ 2 400)).

(** The integer cube root, found bit by bit. *)
Definition cube_root (n : Z) : Z :=
  fold_left (fun r bit => let r' := r + 2 ^ bit in if r' ^ 3 <=? n then r' else r)
            (rev (seqZ 0 40)) 0.

(** Round constants: the first 32 bits of the fractional part of the cube
    root of each of the first 64 primes. *)
Definition K : list Z :=
  Eval vm_compute in List.map (fun p => w32 (cube_root (p * 2 ^ 96))) (first_primes 64).

(** Initial hash value: the same of the square roots of the first 8 primes. *)
Definition H0 : list Z :=
  Eval vm_compute in List.map (fun p => w32 (Z.sqrt (p * 2 ^ 64))) (first_primes 8).

Definition bytes_of_string (s : string) : list Z :=
  List.map (fun c => Z.of_N (N_of_ascii c)) (list_ascii_of_string s).

(** The [n] low bytes of [x], most significant first. *)
Fixpoint be_bytes (n : nat) (x : Z) : list Z :=
  match n with
  | O => []
  | S n' => be_bytes n' (Z.shiftr x 8) ++ [Z.land x 0xff]
  end.

Definition pad (msg : list Z) : list Z :=
  let l := Z.of_nat (length msg) in
  msg ++ [0x80] ++ replicate (Z.to_nat ((55 - l) mod 64)) 0 ++ be_bytes 8 (8 * l).

Fixpoint words_of_bytes (bs : list Z) : list Z :=
  match bs with
  | b0 :: b1 :: b2 :: b3 :: rest =>
      Z.lor (Z.shiftl b0 24) (Z.lor (Z.shiftl b1 16) (Z.lor (Z.shiftl b2 8) b3))
      :: words_of_bytes rest
  | _ => []
  end.

(** [n] message blocks of sixteen words each. *)
Fixpoint chunks (n : nat) (ws : list Z) : list (list Z) :=
  match n with
  | O => []
  | S n' => take 16 ws :: chunks n' (drop 16 ws)
  end.

(** The message schedule beyond the first sixteen words; [win] holds the
    sixteen words before the one being produced. *)
Fixpoint extend (n : nat) (win : list Z) : list Z :=
  match n with
  | O => []
  | S n' =>
      let x := w32 (nth 0 win 0 + sigma0 (nth 1 win 0) + nth 9 win 0 + sigma1 (nth 14 win 0)) in
      x :: extend n' (tl win ++ [x])
  end.

Definition schedule (chunk : list Z) : list Z := chunk ++ extend 48 chunk.

Definition round (st : list Z) (kw : Z * Z) : list Z :=
  match st with
  | [a; b; c; d; e; f; g; h] =>
      let T1 := h + Sigma1 e + Ch e f g + fst kw + snd kw in
      let T2 := Sigma0 a + Maj a b c in
      [w32 (T1 + T2); a; b; c; w32 (d + T1); e; f; g]
  | _ => st
  end.

Definition compress (h : list Z) (chunk : list Z) : list Z :=
  let st := fold_left round (combine K (schedule chunk)) h in
  List.map (fun p => w32 (fst p + snd p)) (combine h st).

Definition digest (msg : list Z) : list Z :=
  let ws := words_of_bytes (pad msg) in
  fold_left compress (chunks (length ws / 16) ws) H0.

Definition hex_digit (x : Z) : ascii :=
  nth (Z.to_nat x) (list_ascii_of_string "0123456789abcdef") "0"%char.

Fixpoint hex_of (n : nat) (x : Z) : list ascii :=
  match n with
  | O => []
  | S n' => hex_of n' (Z.shiftr x 4) ++ [hex_digit (Z.land x 0xf)]
  end.

Definition hexdigest (msg : string) : string :=
  string_of_list_ascii (concat (List.map (hex_of 8) (digest (bytes_of_string msg)))).

End SHA256.

(** [sha256(s.encode()).hexdigest()] *)
Definition sha256 (s : string) : string := SHA256.hexdigest s.


(** ** json

    The values handed to [json.dumps(..., sort_keys=True)]; [JFloat] holds a
    timestamp.  The rendering itself is the library's: every definition that
    hashes a JSON text takes it as the parameter [json_dumps]. *)
#[local] Set Warnings "-register-all".

Inductive json : Type :=
| JInt (n : Z)
| JFloat (micros : Z)
| JString (s : string)
| JList (l : list json)
| JDict (kv : list (string * json)).

(** ** Python sequences *)

(** [s[:n]] on a string, for a non-negative [n]. *)
Fixpoint str_take (n : nat) (s : string) : string :=
  match n, s with
  | S n', String c s' => String c (str_take n' s')
  | _, _ => EmptyString
  end.

(** ['0' * n] *)
Fixpoint zeros (n : nat) : string :=
  match n with
  | O => EmptyString
  | S n' => String "0" (zeros n')
  end.

(** [l[:n]] and [l[n:]] for a Python integer [n]: a negative bound counts
    from the end. *)
Definition slice_to {A} (l : list A) (n : Z) : list A :=
  if 0 <=? n then take (Z.to_nat n) l
  else take (Z.to_nat (Z.of_nat (length l) + n)) l.

Definition slice_from {A} (l : list A) (n : Z) : list A :=
  if 0 <=? n then drop (Z.to_nat n) l
  else drop (Z.to_nat (Z.of_nat (length l) + n)) l.

(** [enumerate(l)] *)
Definition enumerate {A} (l : list A) : list (Z * A) :=
  imap (fun i x => (Z.of_nat i, x)) l.

(** [sum(l)] *)
Definition sum (l : list Z) : Z := foldl Z.add 0 l.

(** * The package [src/blockchain] *)

(** ** transaction.py *)

Module TransactionInput.
Record t : Type := mk {
  txid : string;
  output_index : Z;
  signature : string
}.
#[global] Instance eq_dec : EqDecision t.
Proof. solve_decision. Defined.
End TransactionInput.

Module TransactionOutput.
Record t : Type := mk {
  value : Z;
  recipient : string
}.
#[global] Instance eq_dec : EqDecision t.
Proof. solve_decision. Defined.
End TransactionOutput.

Module Transaction.
Record t : Type := mk {
  inputs : list TransactionInput.t;
  outputs : list TransactionOutput.t;
  timestamp : Z;
  txid : string
}.
#[global] Instance eq_dec : EqDecision t.
Proof. solve_decision. Defined.

Definition tx_data (inputs : list TransactionInput.t)
    (outputs : list TransactionOutput.t) (timestamp : Z) : json :=
  JDict [
    ("inputs", JList ((fun inp =>
       JDict [("txid", JString (TransactionInput.txid inp));
              ("output_index", JInt (TransactionInput.output_index inp));
              ("signature", JString (TransactionInput.signature inp))]) <$> inputs));
    ("outputs", JList ((fun out =>
       JDict [("value", JInt (TransactionOutput.value out));
              ("recipient", JString (TransactionOutput.recipient out))]) <$> outputs));
    ("timestamp", JFloat timestamp) ].

Section Hashing.
Variable json_dumps : json -> string.

Definition calculate_txid (inputs : list TransactionInput.t)
    (outputs : list TransactionOutput.t) (timestamp : Z) : string :=
  sha256 (json_dumps (tx_data inputs outputs timestamp)).

(** [Transaction(inputs, outputs)], constructed when the clock reads [now]. *)
Definition new (inputs : list TransactionInput.t)
    (outputs : list TransactionOutput.t) (now : Z) : t :=
  mk inputs outputs now (calculate_txid inputs outputs now).
End Hashing.

Definition is_coinbase (tx : t) : bool :=
  match inputs tx with [] => true | _ => false end.

Definition calculate_fee (tx : t) (input_values : list Z) : Z :=
  let total_in := sum input_values in
  let total_out := sum (TransactionOutput.value <$> outputs tx) in
  total_in - total_out.
End Transaction.

(** ** block.py *)

Module BlockHeader.
Record t : Type := mk {
  previous_hash : string;
  merkle_root : string;
  difficulty : nat;
  version : Z;
  timestamp : Z;
  nonce : Z
}.
#[global] Instance eq_dec : EqDecision t.
Proof. solve_decision. Defined.

Definition header_data (h : t) : json :=
  JDict [ ("version", JInt (version h));
          ("previous_hash", JString (previous_hash h));
          ("merkle_root", JString (merkle_root h));
          ("timestamp", JFloat (timestamp h));
          ("difficulty", JInt (Z.of_nat (difficulty h)));
          ("nonce", JInt (nonce h)) ].

Definition calculate_hash (json_dumps : json -> string) (h : t) : string :=
  sha256 (json_dumps (header_data h)).

Definition set_nonce (h : t) (n : Z) : t :=
  mk (previous_hash h) (merkle_root h) (difficulty h) (version h) (timestamp h) n.
End BlockHeader.

Module Block.
Record t : Type := mk {
  index : Z;
  transactions : list Transaction.t;
  previous_hash : string;
  difficulty : nat;
  timestamp : Z;
  merkle_root : string;
  nonce : Z;
  header : BlockHeader.t;
  hash : string
}.
#[global] Instance eq_dec : EqDecision t.
Proof. solve_decision. Defined.

(** One pass of the [for i in range(0, len(hashes), 2)] loop; [hashes[i+1]]
    on a list of odd length is an [IndexError]. *)
Fixpoint hash_pairs (hashes : list string) : option (list string) :=
  match hashes with
  | [] => Some []
  | [_] => None
  | a :: b :: rest => cons (sha256 (a +:+ b)) <$> hash_pairs rest
  end.

(** [if len(hashes) % 2 != 0: hashes.append(hashes[-1])], under the extra
    condition [guard]. *)
Definition pad_odd (guard : bool) (hashes : list string) : list string :=
  if guard && negb (Nat.even (length hashes))
  then hashes ++ [List.last hashes EmptyString]
  else hashes.

(** The [while len(hashes) > 1] loop and the [return] after it; [fuel]
    bounds the number of iterations ([None] when it runs out). *)
Fixpoint merkle_loop (fuel : nat) (hashes : list string) : option string :=
  if bool_decide (length hashes <= 1)%nat
  then Some (match hashes with h :: _ => h | [] => EmptyString end)
  else match fuel with
       | O => None
       | S fuel' =>
           new_hashes ← hash_pairs hashes;
           merkle_loop fuel' (pad_odd (bool_decide (1 < length new_hashes)%nat) new_hashes)
       end.

Definition merkle_root_of (txids : list string) : option string :=
  match txids with
  | [] => Some (sha256 EmptyString)
  | _ => let hashes := pad_odd true txids in merkle_loop (length hashes) hashes
  end.

Definition calculate_merkle_root (transactions : list Transaction.t) : option string :=
  merkle_root_of (Transaction.txid <$> transactions).

Definition validate (b : t) (previous_hash' : string) : option bool :=
  if bool_decide (previous_hash b ≠ previous_hash') then Some false
  else if bool_decide (str_take (difficulty b) (hash b) ≠ zeros (difficulty b)) then Some false
  else
    root ← calculate_merkle_root (transactions b);
    if bool_decide (root ≠ merkle_root b) then Some false else Some true.

Section Hashing.
Variable json_dumps : json -> string.

Definition calculate_hash (b : t) : string :=
  BlockHeader.calculate_hash json_dumps (header b).

(** [Block(index, transactions, previous_hash, difficulty)], constructed
    when the clock reads [now]; [loaded] is the reading the header's
    timestamp default was bound to. *)
Definition new (index : Z) (transactions : list Transaction.t)
    (previous_hash : string) (difficulty : nat) (now loaded : Z) : option t :=
  merkle_root ← calculate_merkle_root transactions;
  let header := BlockHeader.mk previous_hash merkle_root difficulty 1 loaded 0 in
  Some (mk index transactions previous_hash difficulty now merkle_root 0 header
           (BlockHeader.calculate_hash json_dumps header)).

(** [mine()]: at most [fuel] turns of the [while] loop; [None] when the
    target has not been met by then. *)
Fixpoint mine (fuel : nat) (b : t) : option t :=
  if bool_decide (str_take (difficulty b) (hash b) ≠ zeros (difficulty b))
  then match fuel with
       | O => None
       | S fuel' =>
           let nonce' := nonce b + 1 in
           let header' := BlockHeader.set_nonce (header b) nonce' in
           mine fuel' (mk (index b) (transactions b) (previous_hash b) (difficulty b)
                          (timestamp b) (merkle_root b) nonce' header'
                          (BlockHeader.calculate_hash json_dumps header'))
       end
  else Some b.
End Hashing.
End Block.

(** ** utxo.py *)

Module UTXOSet.
Record t : Type := mk {
  utxos : gmap (string * Z) TransactionOutput.t
}.

(** [UTXOSet()] *)
Definition empty : t := mk ∅.

Definition add_utxo (u : t) (txid : string) (output_index : Z)
    (output : TransactionOutput.t) : t :=
  mk (<[(txid, output_index) := output]> (utxos u)).

Definition remove_utxo (u : t) (txid : string) (output_index : Z) : t :=
  mk (delete (txid, output_index) (utxos u)).

Definition get_utxo (u : t) (txid : string) (output_index : Z)
    : option TransactionOutput.t :=
  utxos u !! (txid, output_index).

(** The sum runs over the values of the map; its order is of no
    consequence. *)
Definition get_balance (u : t) (address : string) : Z :=
  map_fold (fun _ output acc =>
              if bool_decide (TransactionOutput.recipient output = address)
              then acc + TransactionOutput.value output else acc)
           0 (utxos u).

(** The [for tx_input in tx.inputs] loop of [validate_transaction] from a
    given point on, with the code that follows the loop. *)
Fixpoint validate_inputs (u : t) (tx : Transaction.t)
    (seen_inputs : gset (string * Z)) (total_input : Z)
    (inputs : list TransactionInput.t) : bool * Z :=
  match inputs with
  | [] =>
      let total_output := sum (TransactionOutput.value <$> Transaction.outputs tx) in
      if total_input <? total_output then (false, 0) else (true, total_input)
  | tx_input :: rest =>
      let input_key := (TransactionInput.txid tx_input, TransactionInput.output_index tx_input) in
      if bool_decide (input_key ∈ seen_inputs) then (false, 0)
      else
        match get_utxo u (TransactionInput.txid tx_input) (TransactionInput.output_index tx_input) with
        | None => (false, 0)
        | Some utxo =>
            validate_inputs u tx ({[input_key]} ∪ seen_inputs)
              (total_input + TransactionOutput.value utxo) rest
        end
  end.

Definition validate_transaction (u : t) (tx : Transaction.t) : bool * Z :=
  if Transaction.is_coinbase tx then (true, 0)
  else validate_inputs u tx ∅ 0 (Transaction.inputs tx).

Definition apply_transaction (u : t) (tx : Transaction.t) : t :=
  let spent :=
    foldl (fun u tx_input =>
             remove_utxo u (TransactionInput.txid tx_input) (TransactionInput.output_index tx_input))
          u (Transaction.inputs tx) in
  foldl (fun u io => add_utxo u (Transaction.txid tx) (fst io) (snd io))
        spent (enumerate (Transaction.outputs tx)).

Definition apply_block (u : t) (block : Block.t) : t :=
  foldl apply_transaction u (Block.transactions block).

Definition get_utxos_for_address (u : t) (address : string)
    : list (string * Z * TransactionOutput.t) :=
  omap (fun kv =>
          if bool_decide (TransactionOutput.recipient (snd kv) = address)
          then Some (fst (fst kv), snd (fst kv), snd kv) else None)
       (map_to_list (utxos u)).
End UTXOSet.

(** ** blockchain.py *)

Module Blockchain.
Record t : Type := mk {
  difficulty : nat;
  chain : list Block.t;
  pending_transactions : list Transaction.t;
  utxo : UTXOSet.t;
  forks : list (list Block.t)
}.

Definition set_chain (s : t) (c : list Block.t) : t :=
  mk (difficulty s) c (pending_transactions s) (utxo s) (forks s).
Definition set_pending_transactions (s : t) (p : list Transaction.t) : t :=
  mk (difficulty s) (chain s) p (utxo s) (forks s).
Definition set_utxo (s : t) (u : UTXOSet.t) : t :=
  mk (difficulty s) (chain s) (pending_transactions s) u (forks s).
Definition set_forks (s : t) (f : list (list Block.t)) : t :=
  mk (difficulty s) (chain s) (pending_transactions s) (utxo s) f.

(** [self.chain[-1]] *)
Definition last_block (s : t) : option Block.t := last (chain s).

Definition add_transaction (s : t) (tx : Transaction.t) : bool * t :=
  let '(is_valid, _) := UTXOSet.validate_transaction (utxo s) tx in
  if is_valid
  then (true, set_pending_transactions s (pending_transactions s ++ [tx]))
  else (false, s).

(** [copy.deepcopy]: a value of the embedding shares nothing with the one it
    was copied from. *)
Definition deepcopy (u : UTXOSet.t) : UTXOSet.t := u.

(** The end of [is_valid_block], from "Verify coinbase transaction (must be
    first)" on. *)
Definition coinbase_check (block : Block.t) : bool :=
  match Block.transactions block with
  | coinbase :: _ =>
      if Transaction.is_coinbase coinbase
      then match Transaction.outputs coinbase with
           | [out] => if bool_decide (TransactionOutput.value out ≠ 50) then false else true
           | _ => false
           end
      else true
  | [] => true
  end.

(** The [for tx in block.transactions] loop of [is_valid_block] from a
    given point on, followed by [coinbase_check]. *)
Fixpoint validate_transactions (block : Block.t) (temp_utxo : UTXOSet.t)
    (total_fees : Z) (seen_txids : gset string)
    (txs : list Transaction.t) : bool :=
  match txs with
  | [] => coinbase_check block
  | tx :: rest =>
      if bool_decide (Transaction.txid tx ∈ seen_txids) then false
      else
        let seen_txids := {[Transaction.txid tx]} ∪ seen_txids in
        if Transaction.is_coinbase tx
        then validate_transactions block temp_utxo total_fees seen_txids rest
        else
          let '(is_valid, input_value) := UTXOSet.validate_transaction temp_utxo tx in
          if negb is_valid then false
          else
            let output_value := sum (TransactionOutput.value <$> Transaction.outputs tx) in
            validate_transactions block (UTXOSet.apply_transaction temp_utxo tx)
              (total_fees + (input_value - output_value)) seen_txids rest
  end.

Definition is_valid_block (s : t) (block : Block.t) : option bool :=
  tip ← last_block s;
  structure_ok ← Block.validate block (Block.hash tip);
  if negb structure_ok then Some false
  else
    let temp_utxo := deepcopy (utxo s) in
    Some (validate_transactions block temp_utxo 0 ∅ (Block.transactions block)).

Definition get_balance (s : t) (address : string) : Z :=
  UTXOSet.get_balance (utxo s) address.

(** [2 ** block.difficulty] on the difficulties of the embedding, which are
    counts ([nat]); the source's power of a negative [int] is a float and is
    not modelled. *)
Definition get_chain_difficulty (s : t) (chain' : option (list Block.t)) : Z :=
  let chain' := match chain' with None => chain s | Some c => c end in
  sum ((fun block => 2 ^ Z.of_nat (Block.difficulty block)) <$> chain').

(** [self.forks.pop(fork_index)] *)
Definition pop {A} (l : list A) (i : nat) : option (list A) :=
  if bool_decide (i < length l)%nat then Some (delete i l) else None.

Definition _switch_to_fork (s : t) (fork_chain : list Block.t) (fork_index : nat)
    : option t :=
  let old_chain := slice_from (chain s) (Z.of_nat (length fork_chain) - 1) in
  let utxo0 := UTXOSet.empty in
  let utxo1 :=
    foldl UTXOSet.apply_block utxo0
          (slice_to (chain s) (Z.of_nat (length fork_chain) - 1)) in
  let utxo2 :=
    foldl UTXOSet.apply_block utxo1
          (slice_from fork_chain (Z.of_nat (length (chain s)))) in
  forks' ← pop (forks s) fork_index;
  Some (mk (difficulty s) fork_chain (pending_transactions s) utxo2 forks').

(** The [for i, fork_chain in enumerate(self.forks)] loop of [_handle_fork]
    from fork number [i] on, with the code that follows the loop;
    [later] are the forks not yet visited.  [self.chain.index(b)] looks for
    the object [b], the embedding for an equal block: either way the index
    found is that of the first block with the wanted hash
    ([handle_fork_from_new_fork] below). *)
Fixpoint handle_fork_from (s : t) (block : Block.t) (i : nat)
    (later : list (list Block.t)) : option (bool * t) :=
  match later with
  | fork_chain :: later' =>
      fork_tip ← last fork_chain;
      if bool_decide (Block.previous_hash block = Block.hash fork_tip)
      then
        let fork_chain := fork_chain ++ [block] in
        let s := set_forks s (<[i := fork_chain]> (forks s)) in
        if bool_decide (length (chain s) < length fork_chain)%nat
        then s' ← _switch_to_fork s fork_chain i; Some (true, s')
        else Some (true, s)
      else handle_fork_from s block (S i) later'
  | [] =>
      let matching_blocks :=
        filter (fun b => Block.hash b = Block.previous_hash block) (chain s) in
      match matching_blocks with
      | first_match :: _ =>
          fork_index ← fst <$> list_find (fun b => b = first_match) (chain s);
          let fork_chain := slice_to (chain s) (Z.of_nat fork_index + 1) ++ [block] in
          Some (true, set_forks s (forks s ++ [fork_chain]))
      | [] => Some (false, s)
      end
  end.

Definition _handle_fork (s : t) (block : Block.t) : option (bool * t) :=
  handle_fork_from s block 0 (forks s).

Definition add_block (s : t) (block : Block.t) : option (bool * t) :=
  valid ← is_valid_block s block;
  if negb valid then Some (false, s)
  else
    tip ← last_block s;
    if bool_decide (Block.previous_hash block ≠ Block.hash tip)
    then _handle_fork s block
    else
      let s := set_chain s (chain s ++ [block]) in
      let s := set_utxo s (UTXOSet.apply_block (utxo s) block) in
      Some (true, s).

Section Mining.
Variable json_dumps : json -> string.
(** Bound on the turns of each [mine()] loop. *)
Variable fuel : nat.

(** [Blockchain(difficulty)]: the state after [__init__], which mines the
    genesis block. *)
Definition init (difficulty : nat) (now loaded : Z) : option t :=
  genesis0 ← Block.new json_dumps 0 [] (zeros 64) difficulty now loaded;
  genesis_block ← Block.mine json_dumps fuel genesis0;
  Some (mk difficulty [genesis_block] [] UTXOSet.empty []).

(** [mine_block(miner_address)]; [now_tx] and [now_block] are the clock
    readings at the construction of the coinbase transaction and of the
    block.  The outer [None] is an exception or a [mine()] loop that ran out
    of [fuel]; the inner one is the method's [None]. *)
Definition mine_block (s : t) (miner_address : string) (now_tx now_block loaded : Z)
    : option (option Block.t * t) :=
  match pending_transactions s with
  | [] => Some (None, s)
  | _ =>
      let coinbase_tx :=
        Transaction.new json_dumps [] [TransactionOutput.mk 50 miner_address] now_tx in
      let block_transactions := [coinbase_tx] ++ pending_transactions s in
      tip ← last_block s;
      new_block0 ← Block.new json_dumps (Z.of_nat (length (chain s))) block_transactions
                     (Block.hash tip) (difficulty s) now_block loaded;
      new_block ← Block.mine json_dumps fuel new_block0;
      '(added, s') ← add_block s new_block;
      if (added : bool)
      then Some (Some new_block, set_pending_transactions s' [])
      else Some (None, s')
  end.
End Mining.
End Blockchain.

(** ** The object store behind [is_valid_block]

    [self.utxo] is a reference to a mutable [UTXOSet] object, and
    [apply_transaction] updates the object it is called on in place.  This
    model keeps the objects in a store and passes references, so that what
    [copy.deepcopy] buys is visible: the validation loop writes to the copy's
    address only. *)
Module Store.
Abbreviation loc := positive.
Abbreviation heap := (gmap positive UTXOSet.t).

(** [copy.deepcopy(obj)]: a new object with the same contents. *)
Definition deepcopy (h : heap) (l : loc) : option (heap * loc) :=
  obj ← h !! l;
  let l' := fresh (dom h) in
  Some (<[l' := obj]> h, l').

Definition validate_transaction (h : heap) (l : loc) (tx : Transaction.t)
    : option (bool * Z) :=
  obj ← h !! l; Some (UTXOSet.validate_transaction obj tx).

Definition apply_transaction (h : heap) (l : loc) (tx : Transaction.t)
    : option heap :=
  obj ← h !! l; Some (<[l := UTXOSet.apply_transaction obj tx]> h).

Fixpoint validate_transactions (block : Block.t) (h : heap) (temp_utxo : loc)
    (total_fees : Z) (seen_txids : gset string)
    (txs : list Transaction.t) : option (heap * bool) :=
  match txs with
  | [] => Some (h, Blockchain.coinbase_check block)
  | tx :: rest =>
      if bool_decide (Transaction.txid tx ∈ seen_txids) then Some (h, false)
      else
        let seen_txids := {[Transaction.txid tx]} ∪ seen_txids in
        if Transaction.is_coinbase tx
        then validate_transactions block h temp_utxo total_fees seen_txids rest
        else
          '(is_valid, input_value) ← validate_transaction h temp_utxo tx;
          if negb is_valid then Some (h, false)
          else
            let output_value := sum (TransactionOutput.value <$> Transaction.outputs tx) in
            h ← apply_transaction h temp_utxo tx;
            validate_transactions block h temp_utxo
              (total_fees + (input_value - output_value)) seen_txids rest
  end.

(** [is_valid_block] of a chain manager whose [self.utxo] is the object at
    [utxo] and whose tip is [tip]. *)
Definition is_valid_block (h : heap) (utxo : loc) (tip : Block.t) (block : Block.t)
    : option (heap * bool) :=
  structure_ok ← Block.validate block (Block.hash tip);
  if negb structure_ok then Some (h, false)
  else
    '(h, temp_utxo) ← deepcopy h utxo;
    validate_transactions block h temp_utxo 0 ∅ (Block.transactions block).
End Store.

(** * The single-file ledger [blockchain.py]

    Its [TransactionInput], [TransactionOutput] and [Transaction] have the
    fields of the package's classes, whose records are used here. *)
Module Legacy.

Module Block.
Record t : Type := mk {
  index : Z;
  transactions : list Transaction.t;
  previous_hash : string;
  timestamp : Z;
  nonce : Z;
  hash : string
}.
#[global] Instance eq_dec : EqDecision t.
Proof. solve_decision. Defined.

Definition block_data (b : t) : json :=
  JDict [ ("index", JInt (index b));
          ("transactions", JList (JString <$> (Transaction.txid <$> transactions b)));
          ("previous_hash", JString (previous_hash b));
          ("timestamp", JFloat (timestamp b));
          ("nonce", JInt (nonce b)) ].

Definition set_hash (b : t) (h : string) : t :=
  mk (index b) (transactions b) (previous_hash b) (timestamp b) (nonce b) h.

Section Hashing.
Variable json_dumps : json -> string.

Definition calculate_hash (b : t) : string :=
  sha256 (json_dumps (block_data b)).

(** [Block(index, transactions, previous_hash, timestamp)]: [__post_init__]
    stores the hash of the new block. *)
Definition new (index : Z) (transactions : list Transaction.t)
    (previous_hash : string) (timestamp : Z) : t :=
  let b := mk index transactions previous_hash timestamp 0 EmptyString in
  set_hash b (calculate_hash b).

(** [mine(difficulty)]: at most [fuel] turns of the [while] loop. *)
Fixpoint mine (fuel : nat) (difficulty : nat) (b : t) : option t :=
  if bool_decide (str_take difficulty (hash b) ≠ zeros difficulty)
  then match fuel with
       | O => None
       | S fuel' =>
           let b' := mk (index b) (transactions b) (previous_hash b) (timestamp b)
                        (nonce b + 1) (hash b) in
           mine fuel' difficulty (set_hash b' (calculate_hash b'))
       end
  else Some b.
End Hashing.
End Block.

Module Blockchain.
Record t : Type := mk {
  chain : list Block.t;
  pending_transactions : list Transaction.t;
  utxos : gmap string TransactionOutput.t;
  difficulty : nat
}.

(** [f"{txid}:{output_index}"] *)
Definition utxo_key (txid : string) (output_index : Z) : string :=
  txid +:+ ":" +:+ pretty output_index.

(** [self.chain[-1]] *)
Definition last_block (s : t) : option Block.t := last (chain s).

(** The [for tx_input in transaction.inputs] loop of [is_valid_transaction]
    from a given point on, with the code that follows the loop. *)
Fixpoint valid_inputs (s : t) (output_sum input_sum : Z)
    (inputs : list TransactionInput.t) : bool :=
  match inputs with
  | [] => if input_sum <? output_sum then false else true
  | tx_input :: rest =>
      let key := utxo_key (TransactionInput.txid tx_input) (TransactionInput.output_index tx_input) in
      match utxos s !! key with
      | None => false
      | Some utxo => valid_inputs s output_sum (input_sum + TransactionOutput.value utxo) rest
      end
  end.

Definition is_valid_transaction (s : t) (transaction : Transaction.t) : bool :=
  if Transaction.is_coinbase transaction then true
  else
    let output_sum := sum (TransactionOutput.value <$> Transaction.outputs transaction) in
    valid_inputs s output_sum 0 (Transaction.inputs transaction).

Definition add_transaction (s : t) (transaction : Transaction.t) : bool * t :=
  if negb (is_valid_transaction s transaction) then (false, s)
  else
    let spent :=
      foldl (fun m tx_input =>
               delete (utxo_key (TransactionInput.txid tx_input)
                                (TransactionInput.output_index tx_input)) m)
            (utxos s) (Transaction.inputs transaction) in
    let added :=
      foldl (fun m io => <[utxo_key (Transaction.txid transaction) (fst io) := snd io]> m)
            spent (enumerate (Transaction.outputs transaction)) in
    (true, mk (chain s) (pending_transactions s ++ [transaction]) added (difficulty s)).

(** The [for i in range(1, len(self.chain))] loop of [is_chain_valid] from
    a given block on; [previous_block] is [chain[i - 1]]. *)
Fixpoint chain_valid_from (calculate_hash : Block.t -> string) (difficulty : nat)
    (previous_block : Block.t) (rest : list Block.t) : bool :=
  match rest with
  | [] => true
  | current_block :: rest' =>
      if bool_decide (Block.hash current_block ≠ calculate_hash current_block) then false
      else if bool_decide (Block.previous_hash current_block ≠ Block.hash previous_block) then false
      else if bool_decide (str_take difficulty (Block.hash current_block) ≠ zeros difficulty) then false
      else chain_valid_from calculate_hash difficulty current_block rest'
  end.

Definition get_balance (s : t) (address : string) : Z :=
  map_fold (fun _ output balance =>
              if bool_decide (TransactionOutput.recipient output = address)
              then balance + TransactionOutput.value output else balance)
           0 (utxos s).

Section Hashing.
Variable json_dumps : json -> string.

Definition is_chain_valid (s : t) : bool :=
  match chain s with
  | [] => true
  | first :: rest =>
      chain_valid_from (Block.calculate_hash json_dumps) (difficulty s) first rest
  end.

(** [Blockchain(difficulty)]; [genesis_time] is
    [datetime(2024, 1, 1).timestamp()]. *)
Definition init (difficulty : nat) (genesis_time : Z) : t :=
  let genesis_block := Block.new json_dumps 0 [] (zeros 64) genesis_time in
  let genesis_block := Block.set_hash genesis_block (Block.calculate_hash json_dumps genesis_block) in
  mk [genesis_block] [] ∅ difficulty.

(** [mine_pending_transactions(miner_address)]; [loaded_tx] and
    [loaded_block] are the two clock readings the timestamp defaults of the
    dataclasses [Transaction] and [Block] were bound to, each when its class
    was defined; [fuel] bounds the [mine] loop.  The outer [None] is an
    exception or a loop that ran out of [fuel]; the inner one is the
    method's [None]. *)
Definition mine_pending_transactions (fuel : nat) (s : t) (miner_address : string)
    (loaded_tx loaded_block : Z) : option (option Block.t * t) :=
  match pending_transactions s with
  | [] => Some (None, s)
  | _ =>
      let coinbase_tx :=
        Transaction.new json_dumps [] [TransactionOutput.mk 50 miner_address] loaded_tx in
      let pending := coinbase_tx :: pending_transactions s in
      tip ← last_block s;
      let new_block0 :=
        Block.new json_dumps (Z.of_nat (length (chain s))) pending (Block.hash tip)
          loaded_block in
      new_block ← Block.mine json_dumps fuel (difficulty s) new_block0;
      Some (Some new_block, mk (chain s ++ [new_block]) [] (utxos s) (difficulty s))
  end.
End Hashing.
End Blockchain.
End Legacy.

(** * Vocabulary of the statements *)

(** The (txid, output index) pairs a transaction's inputs reference, in
    order. *)
Definition input_keys (tx : Transaction.t) : list (string * Z) :=
  (fun tx_input => (TransactionInput.txid tx_input, TransactionInput.output_index tx_input))
    <$> Transaction.inputs tx.

(** The values of the outputs a transaction's inputs reference, in order
    (0 for a reference that is not in the set). *)
Definition input_values (u : UTXOSet.t) (tx : Transaction.t) : list Z :=
  (fun key => match UTXOSet.utxos u !! key with
              | Some utxo => TransactionOutput.value utxo
              | None => 0
              end) <$> input_keys tx.

Definition output_values (tx : Transaction.t) : list Z :=
  TransactionOutput.value <$> Transaction.outputs tx.

(** A tracked fork that the loop of [_handle_fork] passes over for a block
    whose previous hash is [prev]: it has a tip, and the tip's hash is not
    [prev]. *)
Definition passed_over (prev : string) (fork_chain : list Block.t) : Prop :=
  exists fork_tip, last fork_chain = Some fork_tip /\ Block.hash fork_tip <> prev.

(** The copy of the UTXO set as the loop of [is_valid_block] holds it once
    it has passed the transactions [pre] (all of them accepted): the
    zero-input ones skipped, the others applied. *)
Definition snapshot_before (u : UTXOSet.t) (pre : list Transaction.t) : UTXOSet.t :=
  foldl (fun temp_utxo tx =>
           if Transaction.is_coinbase tx then temp_utxo
           else UTXOSet.apply_transaction temp_utxo tx) u pre.




(** The ledger after a switch to [fork_chain], which was fork number
    [length earlier] of [earlier ++ _ :: later]. *)
Definition switched (s : Blockchain.t) (fork_chain : list Block.t)
    (earlier later : list (list Block.t)) : Blockchain.t :=
  Blockchain.mk (Blockchain.difficulty s) fork_chain (Blockchain.pending_transactions s)
    (foldl UTXOSet.apply_block UTXOSet.empty
       (Blockchain.chain s ++ drop (length (Blockchain.chain s)) fork_chain))
    (earlier ++ later).

(** The single-file ledger with the block stored at position [i] overwritten
    by [b] (a change made to the stored fields behind the ledger's back). *)
Definition replace_block (s : Legacy.Blockchain.t) (i : nat) (b : Legacy.Block.t)
    : Legacy.Blockchain.t :=
  Legacy.Blockchain.mk (<[i := b]> (Legacy.Blockchain.chain s))
    (Legacy.Blockchain.pending_transactions s) (Legacy.Blockchain.utxos s)
    (Legacy.Blockchain.difficulty s).

(** One state-changing operation on the single-file ledger. *)
Inductive legacy_step (json_dumps : json -> string)
    : Legacy.Blockchain.t -> Legacy.Blockchain.t -> Prop :=
| legacy_add_transaction s tx r s' :
    Legacy.Blockchain.add_transaction s tx = (r, s') -> legacy_step json_dumps s s'
| legacy_mine s fuel miner_address loaded_tx loaded_block r s' :
    Legacy.Blockchain.mine_pending_transactions json_dumps fuel s miner_address
      loaded_tx loaded_block
      = Some (r, s') -> legacy_step json_dumps s s'.

(** The three checks [is_chain_valid] makes on a block other than the
    first. *)
Definition block_ok (json_dumps : json -> string) (difficulty : nat) (previous_block current_block : Legacy.Block.t)
    : Prop :=
  Legacy.Block.hash current_block = Legacy.Block.calculate_hash json_dumps current_block /\
  Legacy.Block.previous_hash current_block = Legacy.Block.hash previous_block /\
  str_take difficulty (Legacy.Block.hash current_block) = zeros difficulty.


(** A stored block with its nonce field overwritten and nothing else. *)
Definition with_nonce (b : Legacy.Block.t) (n : Z) : Legacy.Block.t :=
  Legacy.Block.mk (Legacy.Block.index b) (Legacy.Block.transactions b)
    (Legacy.Block.previous_hash b) (Legacy.Block.timestamp b) n (Legacy.Block.hash b).

(** * Sample ledger

    Transactions and blocks as the package builds them with difficulty 2.
    The txids, nonces and block hashes were
    obtained outside this file, with the package's own [json.dumps] texts;
    the header timestamps are those of a process loaded at 1700000000 s.
    The Merkle roots are recomputed here whenever a block is validated. *)
Module Sample.
Definition cb1 : Transaction.t :=
  Transaction.mk []
    [TransactionOutput.mk 50 "alice"] 1700000110000000
    "ed1143fa28f38e06163a49e73e93c46d9654aa93c6318173f6319c94261316d7".

Definition cb2 : Transaction.t :=
  Transaction.mk []
    [TransactionOutput.mk 50 "alice"] 1700000120000000
    "aa36b06556c304cccb3da4457fad65c585d497046d6a8f0e877117a9c0e37516".

Definition tx_pay : Transaction.t :=
  Transaction.mk [TransactionInput.mk (Transaction.txid cb1) 0 "mock_signature"]
    [TransactionOutput.mk 20 "bob"; TransactionOutput.mk 30 "alice"] 1700000115000000
    "b2cfa69f13ca94da6dad1fadea7066e458e590de2d1169bd66dc66baac063e12".

Definition tx_pay_again : Transaction.t :=
  Transaction.mk [TransactionInput.mk (Transaction.txid cb1) 0 "mock_signature"]
    [TransactionOutput.mk 50 "carol"] 1700000116000000
    "f1edff0055c8d4804a1d0855038e18521b7543cce9433322025fbbb23c61de7f".

Definition cb_fork2 : Transaction.t :=
  Transaction.mk []
    [TransactionOutput.mk 50 "dave"] 1700000130000000
    "68b2c0d96fcab368a6851ac0ab9650fea3b50d2462a364a7411761484f3cccf1".

Definition cb_fork3 : Transaction.t :=
  Transaction.mk []
    [TransactionOutput.mk 50 "dave"] 1700000140000000
    "e0272ee77cd544068cd5723d4664eee3cadded384798d569fa8ab3fbe5206f41".

Definition cb_side1 : Transaction.t :=
  Transaction.mk []
    [TransactionOutput.mk 50 "erin"] 1700000160000000
    "adaea093b9abd4bffb8f6f1a2094fdfe4e253998eb191edb35a7ccef5f59b7cc".

Definition cb_mallory : Transaction.t :=
  Transaction.mk []
    [TransactionOutput.mk 50 "mallory"] 1700000180000000
    "b45c3695fb1123fdd990283693c5ccfc16daf3fb8539058ede2aea62111c53cc".

Definition cb_extra : Transaction.t :=
  Transaction.mk []
    [TransactionOutput.mk 1000000 "mallory"] 1700000181000000
    "0fdfd8a106bccc718b5d7fab229ff4003115946fbfc5afdc64441f6496a77e8f".


Definition cb_erin : Transaction.t :=
  Transaction.mk []
    [TransactionOutput.mk 50 "erin"] 1700000127000000
    "a6e276f503d43af3811a483430ed152ca8e166e04a6b088bc014f605860cc93e".

Definition genesis : Block.t :=
  let merkle_root := "e3b0c44298fc1c149afbf4c8996fb92427ae41e4649b934ca495991b7852b855" in
  Block.mk 0 [] (zeros 64) 2 1700000100000000 merkle_root 176
    (BlockHeader.mk (zeros 64) merkle_root 2 1 1700000000000000 176)
    "002046a4713bbd0e4dcafc9395b99f5cc93f42674438d03521df097316250b84".

Definition block1 : Block.t :=
  let merkle_root := "b5945d985ed15ceb2ac2c282329c1e43ee905106ed39ac7c6e20f33966a5f93c" in
  Block.mk 1 [cb1] (Block.hash genesis) 2 1700000111000000 merkle_root 144
    (BlockHeader.mk (Block.hash genesis) merkle_root 2 1 1700000000000000 144)
    "00a75a7fe8de54bddbc374f9238d1ff7086413d98e60168b1e16f20b8f06a6ca".

Definition block2 : Block.t :=
  let merkle_root := "b61b90ba155d1505394cbb6249527169fc9a1cb60fd9d7b130275b95bc5e557a" in
  Block.mk 2 [cb2; tx_pay] (Block.hash block1) 2 1700000121000000 merkle_root 644
    (BlockHeader.mk (Block.hash block1) merkle_root 2 1 1700000000000000 644)
    "001a57ca66fb32460092c36e8a8a3633be0c0990b08a936649942a758f18014a".

Definition fork2 : Block.t :=
  let merkle_root := "a75efa1c61fe461dbae28b55d4e4f584f6aa41cd92946b3cc89e47c8f6adb4c0" in
  Block.mk 2 [cb_fork2] (Block.hash block1) 2 1700000131000000 merkle_root 59
    (BlockHeader.mk (Block.hash block1) merkle_root 2 1 1700000000000000 59)
    "008a34c62772fabb3c331ea60d306c48f8376b5dfd0c3a7d8eacef4a735bf071".

Definition fork3 : Block.t :=
  let merkle_root := "86700727ce54df59fd963783b58beae195c8dec361e3f2f7b4564ef80f1eb88a" in
  Block.mk 3 [cb_fork3] (Block.hash fork2) 2 1700000141000000 merkle_root 316
    (BlockHeader.mk (Block.hash fork2) merkle_root 2 1 1700000000000000 316)
    "007707e6712072d343f97c4d4263235c5217a7222a3ca6ea233f58bc1a26d1ad".

Definition side1 : Block.t :=
  let merkle_root := "cf8faf0ca3e520ed5ffa7d0e8ad2bfd006d5c07cb3aaddc79431f4cbe37da9d2" in
  Block.mk 1 [cb_side1] (Block.hash genesis) 2 1700000161000000 merkle_root 22
    (BlockHeader.mk (Block.hash genesis) merkle_root 2 1 1700000000000000 22)
    "00dd2ef9114e70b5949d9a366fadecc7b6dafe40ef783c51d88216b9228d04e4".

Definition block_two_coinbases : Block.t :=
  let merkle_root := "6746be58ad4dc6952d1dd57e3707cc8873b4fea7532497171208bf140bed564e" in
  Block.mk 3 [cb_mallory; cb_extra] (Block.hash block2) 2 1700000182000000 merkle_root 220
    (BlockHeader.mk (Block.hash block2) merkle_root 2 1 1700000000000000 220)
    "00e9ae7befbc2de3096b7241e1811dcefb9f390221cca695045fab8261fa98c2".


Definition block_double_spend : Block.t :=
  let merkle_root := "9e6954c16502c6d195acb2147c61391c0cc4a9021cd58a20b14f91bdf6e3111d" in
  Block.mk 2 [cb_erin; tx_pay; tx_pay_again] (Block.hash block1) 2 1700000128000000 merkle_root 829
    (BlockHeader.mk (Block.hash block1) merkle_root 2 1 1700000000000000 829)
    "00fe5d516551a5f38c1b3fac9c35d598e622ecb66b7d40184dee51ff0e071fec".

(** The UTXO set after replaying a chain from nothing. *)
Definition replay (chain : list Block.t) : UTXOSet.t :=
  foldl UTXOSet.apply_block UTXOSet.empty chain.

(** A ledger whose canonical chain is [chain], with nothing pending. *)
Definition ledger (chain : list Block.t) (forks : list (list Block.t)) : Blockchain.t :=
  Blockchain.mk 2 chain [] (replay chain) forks.

(** The same with [pending] waiting in the pool and no fork. *)
Definition ledger_with_pending (chain : list Block.t) (pending : list Transaction.t)
    : Blockchain.t :=
  Blockchain.mk 2 chain pending (replay chain) [].

(** A rendering of JSON values to run the hashing definitions on (keys in
    the order given, strings unescaped between apostrophes, a float as its
    count of microseconds); it stands in for [json.dumps], which is not
    modelled. *)
Fixpoint render (j : json) : string :=
  match j with
  | JInt n => pretty n
  | JFloat micros => pretty micros
  | JString s => "'" +:+ s +:+ "'"
  | JList l =>
      "[" +:+ (fix items (l : list json) : string :=
                 match l with
                 | [] => EmptyString
                 | x :: l' => render x +:+ "," +:+ items l'
                 end) l +:+ "]"
  | JDict kv =>
      "{" +:+ (fix members (kv : list (string * json)) : string :=
                 match kv with
                 | [] => EmptyString
                 | (k, v) :: kv' => k +:+ ":" +:+ render v +:+ "," +:+ members kv'
                 end) kv +:+ "}"
  end.

(** The single-file ledger after one submission, and after mining it with
    difficulty 2; the class [Block] was defined 18 microseconds after the
    class [Transaction]. *)
Definition legacy_submitted : Legacy.Blockchain.t :=
  snd (Legacy.Blockchain.add_transaction
         (Legacy.Blockchain.init render 2 1704067200000000)
         (Transaction.new render [] [TransactionOutput.mk 10 "bob"] 1700000000000000)).

Definition legacy_mined : Legacy.Blockchain.t :=
  default legacy_submitted
    (snd <$> Legacy.Blockchain.mine_pending_transactions render 5000 legacy_submitted
               "miner" 1700000000000000 1700000000000018).

Definition legacy_genesis : Legacy.Block.t :=
  Legacy.Block.new render 0 [] (zeros 64) 1704067200000000.

Definition legacy_block1 : Legacy.Block.t :=
  default legacy_genesis (Legacy.Blockchain.chain legacy_mined !! 1%nat).
End Sample.

(** ** Vocabulary of the further properties *)

(** What an output is worth to an address. *)
Definition credit (address : string) (output : TransactionOutput.t) : Z :=
  if bool_decide (TransactionOutput.recipient output = address)
  then TransactionOutput.value output else 0.

(** The keys under which [apply_transaction] files the outputs of a
    transaction. *)
Definition output_keys (tx : Transaction.t) : list (string * Z) :=
  (fun io => (Transaction.txid tx, fst io)) <$> enumerate (Transaction.outputs tx).

(** The outputs a transaction's inputs refer to, those that are in the set. *)
Definition spent_outputs (u : UTXOSet.t) (tx : Transaction.t)
    : list TransactionOutput.t :=
  omap (fun key => UTXOSet.utxos u !! key) (input_keys tx).

(** The sum of [weight] over the entries of a UTXO set. *)
Definition weighted_sum (weight : TransactionOutput.t -> Z) (u : UTXOSet.t) : Z :=
  map_fold (fun _ output acc => acc + weight output) 0 (UTXOSet.utxos u).

(** The value held in a UTXO set, all addresses together. *)
Definition total_value (u : UTXOSet.t) : Z := weighted_sum TransactionOutput.value u.

(** One call of a public method of the chain manager. *)
Inductive call : Blockchain.t -> Blockchain.t -> Prop :=
| call_add_transaction s tx r s' :
    Blockchain.add_transaction s tx = (r, s') -> call s s'
| call_add_block s block r s' :
    Blockchain.add_block s block = Some (r, s') -> call s s'
| call_mine_block json_dumps fuel s miner_address now_tx now_block loaded r s' :
    Blockchain.mine_block json_dumps fuel s miner_address now_tx now_block loaded
      = Some (r, s') -> call s s'.

(** Every block but the first passes [validate] against the hash of the
    block before it. *)
Definition linked (chain : list Block.t) : Prop :=
  forall (i : nat) (b b' : Block.t),
    chain !! i = Some b -> chain !! S i = Some b' ->
    Block.validate b' (Block.hash b) = Some true.

(** The key strings the single-file ledger looks a transaction's inputs up
    under, in order. *)
Definition legacy_input_keys (tx : Transaction.t) : list string :=
  (fun tx_input => Legacy.Blockchain.utxo_key (TransactionInput.txid tx_input)
                     (TransactionInput.output_index tx_input))
    <$> Transaction.inputs tx.

(** The values found under them, in order (0 for a key that is not
    there). *)
Definition legacy_input_values (s : Legacy.Blockchain.t) (tx : Transaction.t) : list Z :=
  (fun key => from_option TransactionOutput.value 0 (Legacy.Blockchain.utxos s !! key))
    <$> legacy_input_keys tx.

(** * Further sample data

    Ledgers built and mined here, with [Sample.render] for the JSON texts,
    at difficulty 1. *)
Module Cases.
(** A payment of 45 out of the 50 of [cb1]: a fee of 5. *)
Definition tx_fee : Transaction.t :=
  Transaction.new Sample.render
    [TransactionInput.mk (Transaction.txid Sample.cb1) 0 "mock_signature"]
    [TransactionOutput.mk 45 "bob"] 1700000117000000.

(** [Blockchain(difficulty=1)] *)
Definition ledger0 : Blockchain.t :=
  default (Blockchain.mk 1 [] [] UTXOSet.empty [])
    (Blockchain.init Sample.render 200 1 1700000100000000 1700000000000000).

Definition tx_mint : Transaction.t :=
  Transaction.new Sample.render [] [TransactionOutput.mk 10 "bob"] 1700000105000000.

(** The same after [add_transaction(tx_mint)]. *)
Definition ledger_pending : Blockchain.t :=
  snd (Blockchain.add_transaction ledger0 tx_mint).

(** And after [mine_block("miner")]. *)
Definition ledger1 : Blockchain.t :=
  default ledger_pending
    (snd <$> Blockchain.mine_block Sample.render 200 ledger_pending "miner"
               1700000110000000 1700000111000000 1700000000000000).

(** A block on [Sample.block1] that declares difficulty 0 and carries no
    hash at all. *)
Definition unworked_block : Block.t :=
  let merkle_root :=
    sha256 (Transaction.txid Sample.cb2 +:+ Transaction.txid Sample.cb2) in
  Block.mk 2 [Sample.cb2] (Block.hash Sample.block1) 0 1700000121000000 merkle_root 0
    (BlockHeader.mk (Block.hash Sample.block1) merkle_root 0 1 1700000000000000 0)
    "".

(** A block that lists [Sample.cb2] twice. *)
Definition block_repeated : Block.t :=
  Block.mk 2 [Sample.cb2; Sample.cb2] (Block.hash Sample.block1) 0 1700000121000000 ""
    0 (BlockHeader.mk (Block.hash Sample.block1) "" 0 1 1700000000000000 0) "".
End Cases.

(** * Properties *)

(** ** SHA-256 test vectors *)

Example sha256_empty :
  sha256 "" = "e3b0c44298fc1c149afbf4c8996fb92427ae41e4649b934ca495991b7852b855".
Proof. vm_compute. reflexivity. Qed.

Example sha256_abc :
  sha256 "abc" = "ba7816bf8f01cfea414140de5dae2223b00361a396177a9cb410ff61f20015ad".
Proof. vm_compute. reflexivity. Qed.

Example sha256_two_blocks :
  sha256 "aaaaaaaaaaaaaaaaaaaaaaaaaaaaaaaaaaaaaaaaaaaaaaaaaaaaaaaaaaaaaaaa"
  = "ffe054fe7ae0cb6dc65c3af9b61d5209f439851db43d0ba5997337df154668eb".
Proof. vm_compute. reflexivity. Qed.

Example sha256_56_bytes :
  sha256 "aaaaaaaaaaaaaaaaaaaaaaaaaaaaaaaaaaaaaaaaaaaaaaaaaaaaaaaa"
  = "b35439a4ac6f0948b6d6f9e3c6af0f5f590ce20f1bde7090ef7970686ec6738a".
Proof. vm_compute. reflexivity. Qed.

(** ** Sums and slices *)

Lemma sum_from (a : Z) (l : list Z) : foldl Z.add a l = a + sum l.
Proof.
  unfold sum. revert a.
  induction l as [|x l IH]; intros a; simpl; [lia|].
  rewrite (IH (a + x)), (IH (0 + x)). lia.
Qed.

Lemma sum_cons (x : Z) (l : list Z) : sum (x :: l) = x + sum l.
Proof. unfold sum at 1. simpl. rewrite sum_from. lia. Qed.

Lemma sum_app (l1 l2 : list Z) : sum (l1 ++ l2) = sum l1 + sum l2.
Proof.
  induction l1 as [|x l1 IH]; simpl.
  - unfold sum at 2. simpl. lia.
  - rewrite !sum_cons, IH. lia.
Qed.

Lemma slice_to_nat {A} (l : list A) (n : nat) :
  slice_to l (Z.of_nat n) = take n l.
Proof.
  unfold slice_to. destruct (Z.leb_spec 0 (Z.of_nat n)); [|lia].
  by rewrite Nat2Z.id.
Qed.

Lemma slice_from_nat {A} (l : list A) (n : nat) :
  slice_from l (Z.of_nat n) = drop n l.
Proof.
  unfold slice_from. destruct (Z.leb_spec 0 (Z.of_nat n)); [|lia].
  by rewrite Nat2Z.id.
Qed.

(** ** The Merkle root *)

(** Two-step induction on lists, the shape of the pairing loop. *)
Lemma list_pair_ind {A} (P : list A -> Prop) :
  P [] -> (forall a, P [a]) -> (forall a b l, P l -> P (a :: b :: l)) ->
  forall l, P l.
Proof.
  intros Hnil Hone Hstep.
  assert (H : forall l, P l /\ forall a, P (a :: l)).
  { induction l as [|x l [IH1 IH2]]; split; auto. }
  intros l. apply H.
Qed.

Lemma hash_pairs_even (hashes : list string) :
  Nat.even (length hashes) = true ->
  exists new_hashes,
    Block.hash_pairs hashes = Some new_hashes /\
    (2 * length new_hashes = length hashes)%nat.
Proof.
  induction hashes as [| a | a b l IH] using list_pair_ind; intros Hev.
  - exists []. done.
  - done.
  - destruct IH as (l' & Hl' & Hlen); [done|].
    exists (sha256 (a +:+ b) :: l'). simpl. rewrite Hl'. simpl. split; [done|lia].
Qed.

Lemma pad_odd_length (guard : bool) (hashes : list string) :
  (length hashes <= length (Block.pad_odd guard hashes) <= S (length hashes))%nat.
Proof.
  unfold Block.pad_odd.
  destruct (guard && negb (Nat.even (length hashes))); [rewrite length_app; simpl|]; lia.
Qed.

Lemma pad_odd_even (hashes : list string) :
  Nat.even (length (Block.pad_odd true hashes)) = true.
Proof.
  unfold Block.pad_odd. simpl.
  destruct (Nat.even (length hashes)) eqn:E; simpl; [done|].
  rewrite length_app. simpl. rewrite Nat.add_1_r, Nat.even_succ.
  by rewrite <- Nat.negb_even, E.
Qed.

(** The [while] loop ends within as many turns as it has hashes to start
    with, and never indexes out of range, provided it starts on one hash or
    an even number of them. *)
Lemma merkle_loop_total (fuel : nat) (hashes : list string) :
  (length hashes <= 1)%nat \/
  (Nat.even (length hashes) = true /\ (length hashes <= fuel)%nat) ->
  is_Some (Block.merkle_loop fuel hashes).
Proof.
  revert hashes.
  induction fuel as [|fuel IH]; intros hashes H; simpl.
  - case_bool_decide; [eauto|]. lia.
  - case_bool_decide as Hle; [eauto|].
    destruct H as [H|[Hev Hlen]]; [lia|].
    destruct (hash_pairs_even hashes Hev) as (new_hashes & -> & Hnew). simpl.
    apply IH.
    destruct (decide (length new_hashes <= 1)%nat) as [Hs|Hs].
    + left. rewrite bool_decide_eq_false_2 by lia. done.
    + right. rewrite bool_decide_eq_true_2 by lia. split.
      * apply pad_odd_even.
      * pose proof (pad_odd_length true new_hashes). lia.
Qed.

Lemma merkle_root_of_total (txids : list string) :
  is_Some (Block.merkle_root_of txids).
Proof.
  destruct txids as [|a l]; [by eexists|].
  unfold Block.merkle_root_of.
  apply merkle_loop_total. right. split; [apply pad_odd_even|lia].
Qed.

(** [calculate_merkle_root] returns a root for every transaction list. *)
Lemma calculate_merkle_root_total (transactions : list Transaction.t) :
  is_Some (Block.calculate_merkle_root transactions).
Proof. apply merkle_root_of_total. Qed.

Lemma merkle_root_of_padding (txids : list string) (h : string) :
  Nat.odd (length (txids ++ [h])) = true ->
  Block.merkle_root_of ((txids ++ [h]) ++ [h]) = Block.merkle_root_of (txids ++ [h]).
Proof.
  intros Hodd.
  assert (Hev : Nat.even (length (txids ++ [h])) = false).
  { by rewrite <- Nat.negb_odd, Hodd. }
  assert (Hpad1 : Block.pad_odd true (txids ++ [h]) = (txids ++ [h]) ++ [h]).
  { unfold Block.pad_odd. rewrite Hev. simpl. by rewrite last_last. }
  assert (Hpad2 : Block.pad_odd true ((txids ++ [h]) ++ [h]) = (txids ++ [h]) ++ [h]).
  { unfold Block.pad_odd.
    replace (Nat.even (length ((txids ++ [h]) ++ [h]))) with true; [done|].
    rewrite (length_app (txids ++ [h])). simpl.
    rewrite Nat.add_1_r, Nat.even_succ. done. }
  unfold Block.merkle_root_of.
  rewrite Hpad1, Hpad2.
  destruct txids; reflexivity.
Qed.

(** C10.  A transaction list of odd length and the same list followed by
    one more transaction with the id of its last have the same Merkle root;
    blocks built from them with the same previous hash, difficulty and clock
    readings have the same header and the same hash.  So have the lists [t]
    and [t; t]. *)
Theorem merkle_root_ignores_padding_duplicate
    (txs : list Transaction.t) (t t' : Transaction.t) :
  Nat.odd (length (txs ++ [t])) = true ->
  Transaction.txid t' = Transaction.txid t ->
  (exists root,
     Block.calculate_merkle_root (txs ++ [t]) = Some root /\
     Block.calculate_merkle_root ((txs ++ [t]) ++ [t']) = Some root) /\
  (forall json_dumps index index' previous_hash difficulty now now' loaded,
     Block.header <$> Block.new json_dumps index ((txs ++ [t]) ++ [t'])
                        previous_hash difficulty now loaded
     = Block.header <$> Block.new json_dumps index' (txs ++ [t])
                          previous_hash difficulty now' loaded /\
     Block.hash <$> Block.new json_dumps index ((txs ++ [t]) ++ [t'])
                      previous_hash difficulty now loaded
     = Block.hash <$> Block.new json_dumps index' (txs ++ [t])
                        previous_hash difficulty now' loaded) /\
  Block.calculate_merkle_root [t; t] = Block.calculate_merkle_root [t].
Proof.
  intros Hodd Hid.
  assert (Heq : Block.calculate_merkle_root ((txs ++ [t]) ++ [t'])
                = Block.calculate_merkle_root (txs ++ [t])).
  { unfold Block.calculate_merkle_root. rewrite !fmap_app. simpl. rewrite Hid.
    apply merkle_root_of_padding. rewrite <- Hodd.
    by rewrite !length_app, length_fmap. }
  split; [|split].
  - destruct (calculate_merkle_root_total (txs ++ [t])) as [root Hroot].
    exists root. by rewrite Heq.
  - intros json_dumps index index' prev d now now' loaded.
    unfold Block.new. rewrite Heq.
    destruct (Block.calculate_merkle_root (txs ++ [t])); done.
  - exact (merkle_root_of_padding [] (Transaction.txid t) eq_refl).
Qed.

Lemma merkle_root_ignores_padding_duplicate_witness :
  Block.calculate_merkle_root [Sample.cb2; Sample.tx_pay; Sample.tx_pay_again; Sample.tx_pay_again]
  = Block.calculate_merkle_root [Sample.cb2; Sample.tx_pay; Sample.tx_pay_again].
Proof.
  destruct (proj1 (merkle_root_ignores_padding_duplicate
                     [Sample.cb2; Sample.tx_pay] Sample.tx_pay_again Sample.tx_pay_again
                     eq_refl eq_refl)) as (root & H1 & H2).
  change (Block.calculate_merkle_root
            (([Sample.cb2; Sample.tx_pay] ++ [Sample.tx_pay_again]) ++ [Sample.tx_pay_again])
          = Block.calculate_merkle_root ([Sample.cb2; Sample.tx_pay] ++ [Sample.tx_pay_again])).
  by rewrite H1, H2.
Defined.

(** ** Transaction validation *)

Lemma validate_inputs_bad (u : UTXOSet.t) (tx : Transaction.t)
    (inputs : list TransactionInput.t) :
  forall (seen : gset (string * Z)) (acc : Z),
  let keys := (fun i => (TransactionInput.txid i, TransactionInput.output_index i)) <$> inputs in
  ~ NoDup keys \/ (exists k, k ∈ keys /\ k ∈ seen) \/
    (exists k, k ∈ keys /\ UTXOSet.utxos u !! k = None) ->
  UTXOSet.validate_inputs u tx seen acc inputs = (false, 0).
Proof.
  induction inputs as [|i rest IH]; intros seen acc keys H.
  - exfalso. subst keys. simpl in H.
    destruct H as [H|[(k & Hk & _)|(k & Hk & _)]].
    + apply H. constructor.
    + by apply elem_of_nil in Hk.
    + by apply elem_of_nil in Hk.
  - simpl. set (key := (TransactionInput.txid i, TransactionInput.output_index i)).
    case_bool_decide as Hseen; [done|].
    unfold UTXOSet.get_utxo. fold key.
    destruct (UTXOSet.utxos u !! key) as [o|] eqn:Hlook; [|done].
    apply IH. subst keys. simpl in H. fold key in H.
    destruct H as [H|[(k & Hk & Hs)|(k & Hk & Hn)]].
    + destruct (decide (key ∈ (fun i0 => (TransactionInput.txid i0, TransactionInput.output_index i0)) <$> rest)) as [Hin|Hnin].
      * right. left. exists key. split; [done|]. apply elem_of_union. left. by apply elem_of_singleton.
      * left. intros Hnd. apply H. by constructor.
    + apply elem_of_cons in Hk as [->|Hk]; [done|].
      right. left. exists k. split; [done|]. apply elem_of_union. by right.
    + apply elem_of_cons in Hk as [->|Hk]; [congruence|].
      right. right. by exists k.
Qed.

Lemma validate_inputs_ok (u : UTXOSet.t) (tx : Transaction.t)
    (inputs : list TransactionInput.t) :
  forall (seen : gset (string * Z)) (acc : Z),
  let keys := (fun i => (TransactionInput.txid i, TransactionInput.output_index i)) <$> inputs in
  let values := (fun key => match UTXOSet.utxos u !! key with
                            | Some utxo => TransactionOutput.value utxo
                            | None => 0
                            end) <$> keys in
  NoDup keys -> (forall k, k ∈ keys -> k ∉ seen) ->
  (forall k, k ∈ keys -> is_Some (UTXOSet.utxos u !! k)) ->
  UTXOSet.validate_inputs u tx seen acc inputs =
    if acc + sum values <? sum (output_values tx) then (false, 0)
    else (true, acc + sum values).
Proof.
  induction inputs as [|i rest IH]; intros seen acc keys values Hnd Hseen Hpres.
  - simpl. subst values keys. simpl. unfold sum at 1 3. simpl.
    rewrite Z.add_0_r. reflexivity.
  - simpl. set (key := (TransactionInput.txid i, TransactionInput.output_index i)).
    subst keys values. simpl in *. fold key in Hnd, Hseen, Hpres |- *.
    apply NoDup_cons in Hnd as [Hnin Hnd].
    rewrite bool_decide_eq_false_2 by (apply Hseen; left).
    unfold UTXOSet.get_utxo. fold key.
    destruct (Hpres key ltac:(left)) as [o Ho]. rewrite Ho.
    rewrite IH; [|done| |].
    + rewrite sum_cons, !Z.add_assoc. reflexivity.
    + intros k Hk [Heq%elem_of_singleton|Hs]%elem_of_union.
      * by subst k.
      * by apply (Hseen k); [right|].
    + intros k Hk. apply Hpres. by right.
Qed.

(** C6. [validate_transaction] accepts every zero-input transaction with
    reported input value 0; it rejects a transaction with inputs when two of
    its inputs (at different positions) reference the same (txid, output
    index), when a referenced pair is not in the set, or when the referenced
    values sum to less than the output values; in every other case it accepts
    and reports the sum of the referenced values. *)
Theorem validate_transaction_spec (u : UTXOSet.t) (tx : Transaction.t) :
  (Transaction.inputs tx = [] -> UTXOSet.validate_transaction u tx = (true, 0)) /\
  (Transaction.inputs tx <> [] ->
     ((exists (i j : nat) (k : string * Z),
         i <> j /\ input_keys tx !! i = Some k /\ input_keys tx !! j = Some k) ->
      UTXOSet.validate_transaction u tx = (false, 0)) /\
     ((exists k, k ∈ input_keys tx /\ UTXOSet.utxos u !! k = None) ->
      UTXOSet.validate_transaction u tx = (false, 0)) /\
     (sum (input_values u tx) < sum (output_values tx) ->
      UTXOSet.validate_transaction u tx = (false, 0)) /\
     (NoDup (input_keys tx) ->
      (forall k, k ∈ input_keys tx -> is_Some (UTXOSet.utxos u !! k)) ->
      sum (output_values tx) <= sum (input_values u tx) ->
      UTXOSet.validate_transaction u tx = (true, sum (input_values u tx)))).
Proof.
  unfold UTXOSet.validate_transaction, Transaction.is_coinbase.
  split; [intros ->; done|].
  intros Hne. destruct (Transaction.inputs tx) as [|i0 rest] eqn:Hin; [done|].
  rewrite <- Hin.
  assert (Hgood :
    NoDup (input_keys tx) ->
    (forall k, k ∈ input_keys tx -> is_Some (UTXOSet.utxos u !! k)) ->
    UTXOSet.validate_inputs u tx ∅ 0 (Transaction.inputs tx) =
      if sum (input_values u tx) <? sum (output_values tx) then (false, 0)
      else (true, sum (input_values u tx))).
  { intros Hnd Hpres.
    rewrite (validate_inputs_ok u tx (Transaction.inputs tx) ∅ 0 Hnd); [done| |done].
    intros k _. apply not_elem_of_empty. }
  split; [|split; [|split]].
  - intros (i & j & k & Hij & Hi & Hj).
    apply validate_inputs_bad. left. fold (input_keys tx).
    intros Hnd. apply Hij. eapply NoDup_lookup; eauto.
  - intros Hmiss. apply validate_inputs_bad. right. right. exact Hmiss.
  - intros Hlt.
    destruct (decide (NoDup (input_keys tx))) as [Hnd|Hnd];
      [|apply validate_inputs_bad; by left].
    destruct (decide (Forall (fun k => is_Some (UTXOSet.utxos u !! k)) (input_keys tx)))
      as [Hall|Hall].
    + rewrite Hgood; [|done|by apply Forall_forall].
      destruct (Z.ltb_spec (sum (input_values u tx)) (sum (output_values tx))); [done|lia].
    + apply validate_inputs_bad. right. right.
      apply not_Forall_Exists in Hall; [|apply _].
      apply Exists_exists in Hall as (k & Hk & Hnone).
      exists k. split; [done|]. by apply eq_None_not_Some.
  - intros Hnd Hpres Hle. rewrite Hgood by done.
    destruct (Z.ltb_spec (sum (input_values u tx)) (sum (output_values tx))); [lia|done].
Qed.

(** [tx_pay] against the UTXO set after [block1]: one input, present, of
    value 50, for outputs of 20 and 30. *)
Lemma validate_transaction_spec_witness :
  UTXOSet.validate_transaction (Sample.replay [Sample.genesis; Sample.block1]) Sample.tx_pay
  = (true, 50).
Proof.
  assert (Hsum : sum (input_values (Sample.replay [Sample.genesis; Sample.block1])
                                   Sample.tx_pay) = 50)
    by (vm_compute; reflexivity).
  rewrite <- Hsum.
  apply (proj2 (validate_transaction_spec
                  (Sample.replay [Sample.genesis; Sample.block1]) Sample.tx_pay)).
  - discriminate.
  - repeat constructor. apply not_elem_of_nil.
  - intros k Hk. apply list_elem_of_singleton in Hk as ->. vm_compute. by eexists.
  - rewrite Hsum. vm_compute. discriminate.
Defined.

(** ** Block acceptance *)

Lemma validate_total (b : Block.t) (prev : string) :
  is_Some (Block.validate b prev).
Proof.
  unfold Block.validate.
  repeat (case_bool_decide; [by eexists|]).
  destruct (calculate_merkle_root_total (Block.transactions b)) as [root ->]. simpl.
  case_bool_decide; by eexists.
Qed.

Lemma validate_previous_hash (b : Block.t) (prev : string) :
  Block.previous_hash b <> prev -> Block.validate b prev = Some false.
Proof. intros H. unfold Block.validate. by rewrite bool_decide_eq_true_2. Qed.

Lemma validate_true (b : Block.t) (prev : string) :
  Block.validate b prev = Some true ->
  Block.previous_hash b = prev /\
  str_take (Block.difficulty b) (Block.hash b) = zeros (Block.difficulty b) /\
  Block.calculate_merkle_root (Block.transactions b) = Some (Block.merkle_root b).
Proof.
  unfold Block.validate. intros H.
  case_bool_decide as H1; [done|].
  case_bool_decide as H2; [done|].
  destruct (Block.calculate_merkle_root (Block.transactions b)) as [root|]; [|done].
  simpl in H. case_bool_decide as H3; [done|].
  by subst root.
Qed.

Lemma last_block_Some (s : Blockchain.t) :
  Blockchain.chain s <> [] -> exists tip, Blockchain.last_block s = Some tip.
Proof.
  unfold Blockchain.last_block. intros H.
  destruct (last (Blockchain.chain s)) as [tip|] eqn:E; [by eexists|].
  by apply last_None in E.
Qed.

Lemma is_valid_block_total (s : Blockchain.t) (block : Block.t) :
  Blockchain.chain s <> [] -> is_Some (Blockchain.is_valid_block s block).
Proof.
  intros [tip Htip]%last_block_Some. unfold Blockchain.is_valid_block.
  rewrite Htip. simpl.
  destruct (validate_total block (Block.hash tip)) as [ok ->]. simpl.
  destruct ok; by eexists.
Qed.

Lemma is_valid_block_true (s : Blockchain.t) (block : Block.t) :
  Blockchain.is_valid_block s block = Some true ->
  exists tip,
    Blockchain.last_block s = Some tip /\
    Block.validate block (Block.hash tip) = Some true /\
    Blockchain.validate_transactions block (Blockchain.utxo s) 0 ∅
      (Block.transactions block) = true.
Proof.
  unfold Blockchain.is_valid_block. intros H.
  destruct (Blockchain.last_block s) as [tip|]; [|done]. simpl in H.
  destruct (Block.validate block (Block.hash tip)) as [[|]|] eqn:Hv; simpl in H; try done.
  exists tip. repeat split; [done|]. by injection H.
Qed.

(** The extension of the canonical chain by one block. *)
Lemma add_block_cases (s : Blockchain.t) (block : Block.t) :
  Blockchain.chain s <> [] ->
  (Blockchain.is_valid_block s block = Some false /\
   Blockchain.add_block s block = Some (false, s)) \/
  (Blockchain.is_valid_block s block = Some true /\
   Blockchain.add_block s block =
     Some (true, Blockchain.mk (Blockchain.difficulty s) (Blockchain.chain s ++ [block])
                   (Blockchain.pending_transactions s)
                   (UTXOSet.apply_block (Blockchain.utxo s) block)
                   (Blockchain.forks s))).
Proof.
  intros Hne. unfold Blockchain.add_block.
  destruct (is_valid_block_total s block Hne) as [[|] Hv]; rewrite Hv; simpl.
  - right. split; [done|].
    destruct (is_valid_block_true s block Hv) as (tip & Htip & Hval & _).
    rewrite Htip. simpl.
    apply validate_true in Hval as [Hprev _].
    by rewrite bool_decide_eq_false_2 by (by intros ?).
  - by left.
Qed.

(** C1. A block whose previous hash is not the hash of the canonical tip is
    turned away by [add_block] before the fork handler is consulted: the
    result is [False] and the ledger is as it was, fork list included. *)
Theorem add_block_rejects_off_tip_block (s : Blockchain.t) (block tip : Block.t) :
  Blockchain.last_block s = Some tip ->
  Block.previous_hash block <> Block.hash tip ->
  Blockchain.add_block s block = Some (false, s).
Proof.
  intros Htip Hprev.
  unfold Blockchain.add_block, Blockchain.is_valid_block.
  rewrite Htip. simpl. by rewrite validate_previous_hash.
Qed.

(** The case at hand: [fork2] builds on [block1] while the tip is [block2].
    The fork handler, asked directly, would have started a fork. *)
Lemma add_block_rejects_off_tip_block_witness :
  Blockchain.add_block (Sample.ledger [Sample.genesis; Sample.block1; Sample.block2] [])
                       Sample.fork2
  = Some (false, Sample.ledger [Sample.genesis; Sample.block1; Sample.block2] []).
Proof.
  apply (add_block_rejects_off_tip_block _ _ Sample.block2).
  - reflexivity.
  - vm_compute. discriminate.
Defined.

Example handle_fork_would_attach_it :
  (fun r => (fst r, Blockchain.chain (snd r), Blockchain.forks (snd r))) <$>
    Blockchain._handle_fork
      (Sample.ledger [Sample.genesis; Sample.block1; Sample.block2] []) Sample.fork2
  = Some (true, [Sample.genesis; Sample.block1; Sample.block2],
          [[Sample.genesis; Sample.block1; Sample.fork2]]).
Proof. vm_compute. reflexivity. Qed.

(** ** The pending pool *)

Lemma mine_fields (json_dumps : json -> string) (fuel : nat) (b b' : Block.t) :
  Block.mine json_dumps fuel b = Some b' ->
  Block.index b' = Block.index b /\
  Block.transactions b' = Block.transactions b /\
  Block.previous_hash b' = Block.previous_hash b /\
  Block.difficulty b' = Block.difficulty b /\
  Block.merkle_root b' = Block.merkle_root b /\
  str_take (Block.difficulty b') (Block.hash b') = zeros (Block.difficulty b').
Proof.
  revert b. induction fuel as [|fuel IH]; intros b; simpl.
  - case_bool_decide as H; [done|]. intros [= <-]. by repeat split.
  - case_bool_decide as H.
    + intros Hm. apply IH in Hm. simpl in Hm. exact Hm.
    + intros [= <-]. by repeat split.
Qed.




(** ** The coinbase rule *)

Lemma validate_transactions_coinbase_check (block : Block.t)
    (txs : list Transaction.t) :
  forall temp_utxo total_fees seen_txids,
  Blockchain.validate_transactions block temp_utxo total_fees seen_txids txs = true ->
  Blockchain.coinbase_check block = true.
Proof.
  induction txs as [|tx rest IH]; intros temp fees seen; simpl; [done|].
  case_bool_decide; [done|].
  destruct (Transaction.is_coinbase tx); [apply IH|].
  destruct (UTXOSet.validate_transaction temp tx) as [[|] v]; simpl; [apply IH|done].
Qed.

(** What the block-level rule does enforce: a zero-input transaction at
    index 0 of an accepted block has one output, of value 50. *)
Lemma first_coinbase_is_checked (s : Blockchain.t) (block : Block.t)
    (coinbase : Transaction.t) (rest : list Transaction.t) :
  Blockchain.is_valid_block s block = Some true ->
  Block.transactions block = coinbase :: rest ->
  Transaction.is_coinbase coinbase = true ->
  exists recipient, Transaction.outputs coinbase = [TransactionOutput.mk 50 recipient].
Proof.
  intros Hv Htxs Hcb.
  destruct (is_valid_block_true s block Hv) as (tip & _ & _ & Hloop).
  apply validate_transactions_coinbase_check in Hloop.
  unfold Blockchain.coinbase_check in Hloop. rewrite Htxs, Hcb in Hloop.
  destruct (Transaction.outputs coinbase) as [|[v r] [|? ?]]; try done.
  case_bool_decide as Hval; [done|]. simpl in Hval.
  exists r. by rewrite Hval.
Qed.

(** A zero-input transaction anywhere in the list is passed over by the
    loop, whatever its outputs. *)
Lemma validate_transactions_skips_coinbase (block : Block.t)
    (temp_utxo : UTXOSet.t) (total_fees : Z) (seen_txids : gset string)
    (tx : Transaction.t) (rest : list Transaction.t) :
  Transaction.is_coinbase tx = true ->
  Transaction.txid tx ∉ seen_txids ->
  Blockchain.validate_transactions block temp_utxo total_fees seen_txids (tx :: rest) =
  Blockchain.validate_transactions block temp_utxo total_fees
    ({[Transaction.txid tx]} ∪ seen_txids) rest.
Proof.
  intros Hcb Hseen. simpl. by rewrite bool_decide_eq_false_2, Hcb.
Qed.

(** C4, at the failing input.  [block_two_coinbases] carries a well-formed
    coinbase at index 0 and a second zero-input transaction at index 1 that
    pays 1000000; [add_block] accepts it and the payee's balance shows it. *)
Theorem second_coinbase_is_accepted :
  (fun r => (fst r, Blockchain.chain (snd r), Blockchain.get_balance (snd r) "mallory")) <$>
    Blockchain.add_block
      (Sample.ledger [Sample.genesis; Sample.block1; Sample.block2] [])
      Sample.block_two_coinbases
  = Some (true,
          [Sample.genesis; Sample.block1; Sample.block2; Sample.block_two_coinbases],
          1000050)
  /\ Block.transactions Sample.block_two_coinbases = [Sample.cb_mallory; Sample.cb_extra]
  /\ Transaction.is_coinbase Sample.cb_extra = true
  /\ Transaction.outputs Sample.cb_extra = [TransactionOutput.mk 1000000 "mallory"]
  /\ Blockchain.get_balance
       (Sample.ledger [Sample.genesis; Sample.block1; Sample.block2] []) "mallory" = 0.
Proof. vm_compute. repeat split; reflexivity. Qed.

(** ** Submitting transactions *)

(** C5, in general.  [add_transaction] checks a transaction against the
    UTXO set alone, which it does not change: two transactions that are each
    valid against the set are both taken into the pool, one after the other,
    whether or not they spend the same output. *)
Theorem second_spend_is_accepted (s : Blockchain.t) (tx1 tx2 : Transaction.t) :
  fst (UTXOSet.validate_transaction (Blockchain.utxo s) tx1) = true ->
  fst (UTXOSet.validate_transaction (Blockchain.utxo s) tx2) = true ->
  exists s1 s2,
    Blockchain.add_transaction s tx1 = (true, s1) /\
    Blockchain.add_transaction s1 tx2 = (true, s2) /\
    Blockchain.utxo s2 = Blockchain.utxo s /\
    Blockchain.pending_transactions s2 = Blockchain.pending_transactions s ++ [tx1; tx2].
Proof.
  intros H1 H2. unfold Blockchain.add_transaction.
  destruct (UTXOSet.validate_transaction (Blockchain.utxo s) tx1) as [v1 n1] eqn:E1.
  simpl in H1. subst v1.
  eexists _, _. split; [reflexivity|]. simpl.
  destruct (UTXOSet.validate_transaction (Blockchain.utxo s) tx2) as [v2 n2] eqn:E2.
  simpl in H2. subst v2.
  split; [reflexivity|]. simpl. split; [done|]. by rewrite <- app_assoc.
Qed.

(** [tx_pay] and [tx_pay_again] both spend output 0 of [cb1]. *)
Lemma second_spend_is_accepted_witness :
  input_keys Sample.tx_pay = input_keys Sample.tx_pay_again /\
  exists s1 s2,
    Blockchain.add_transaction
      (Sample.ledger [Sample.genesis; Sample.block1] []) Sample.tx_pay = (true, s1) /\
    Blockchain.add_transaction s1 Sample.tx_pay_again = (true, s2) /\
    Blockchain.utxo s2 = Blockchain.utxo (Sample.ledger [Sample.genesis; Sample.block1] []) /\
    Blockchain.pending_transactions s2 = [Sample.tx_pay; Sample.tx_pay_again].
Proof.
  split; [reflexivity|].
  apply (second_spend_is_accepted
           (Sample.ledger [Sample.genesis; Sample.block1] [])
           Sample.tx_pay Sample.tx_pay_again); vm_compute; reflexivity.
Defined.

(** The two can never be mined together: the loop of [is_valid_block]
    rejects the second once the first has been applied to the copy. *)
Example double_spend_block_is_rejected :
  Blockchain.validate_transactions Sample.block1
    (Sample.replay [Sample.genesis; Sample.block1]) 0 ∅
    [Sample.cb2; Sample.tx_pay; Sample.tx_pay_again] = false.
Proof. vm_compute. reflexivity. Qed.

(** The single-file ledger marks the outputs spent on submission, and
    there the second submission fails. *)
Example legacy_second_spend_is_rejected :
  let s := Legacy.Blockchain.mk [] []
             {[ Legacy.Blockchain.utxo_key (Transaction.txid Sample.cb1) 0 :=
                  TransactionOutput.mk 50 "alice" ]} 2 in
  fst (Legacy.Blockchain.add_transaction s Sample.tx_pay) = true /\
  fst (Legacy.Blockchain.add_transaction
         (snd (Legacy.Blockchain.add_transaction s Sample.tx_pay))
         Sample.tx_pay_again) = false.
Proof. vm_compute. split; reflexivity. Qed.

Lemma foldl_delete_lookup {A} (f : A -> string) (l : list A)
    (m : gmap string TransactionOutput.t) (k : string) :
  foldl (fun m x => delete (f x) m) m l !! k
  = if bool_decide (k ∈ f <$> l) then None else m !! k.
Proof.
  revert m. induction l as [|x l IH]; intros m.
  - done.
  - simpl foldl. rewrite IH, fmap_cons.
    destruct (decide (k = f x)) as [->|Hne].
    + rewrite lookup_delete_eq.
      rewrite (bool_decide_eq_true_2 (f x ∈ f x :: (f <$> l))) by (by left).
      by case_bool_decide.
    + rewrite lookup_delete_ne by done.
      repeat case_bool_decide; try done.
      * exfalso. match goal with H : ¬ _ |- _ => apply H end. by right.
      * exfalso. match goal with H : _ ∈ _ :: _ |- _ => apply elem_of_cons in H as [?|?] end; done.
Qed.

Lemma foldl_insert_lookup_ne {A} (f : A -> string) (g : A -> TransactionOutput.t)
    (l : list A) (m : gmap string TransactionOutput.t) (k : string) :
  k ∉ f <$> l ->
  foldl (fun m x => <[f x := g x]> m) m l !! k = m !! k.
Proof.
  revert m. induction l as [|x l IH]; intros m Hk; simpl; [done|].
  rewrite fmap_cons, not_elem_of_cons in Hk. destruct Hk as [Hne Hk].
  rewrite IH by done. by apply lookup_insert_ne.
Qed.

Lemma legacy_valid_inputs_missing (s : Legacy.Blockchain.t) (output_sum : Z)
    (inputs : list TransactionInput.t) :
  forall input_sum,
  (exists tx_input, tx_input ∈ inputs /\
     Legacy.Blockchain.utxos s !!
       Legacy.Blockchain.utxo_key (TransactionInput.txid tx_input)
                                  (TransactionInput.output_index tx_input) = None) ->
  Legacy.Blockchain.valid_inputs s output_sum input_sum inputs = false.
Proof.
  induction inputs as [|i rest IH]; intros acc (x & Hx & Hnone).
  - by apply elem_of_nil in Hx.
  - simpl. apply elem_of_cons in Hx as [->|Hx].
    + by rewrite Hnone.
    + destruct (Legacy.Blockchain.utxos s !!
                Legacy.Blockchain.utxo_key (TransactionInput.txid i)
                                           (TransactionInput.output_index i));
        [|done].
      apply IH. by exists x.
Qed.

(** X26. The single-file ledger marks the outputs of an accepted transaction
    spent at once: a later transaction that refers to one of them is turned
    away (unless the first transaction itself put the key back). *)
Lemma legacy_second_spend_is_rejected_in_general (s : Legacy.Blockchain.t)
    (tx1 tx2 : Transaction.t) (in1 in2 : TransactionInput.t) :
  Legacy.Blockchain.is_valid_transaction s tx1 = true ->
  in1 ∈ Transaction.inputs tx1 ->
  in2 ∈ Transaction.inputs tx2 ->
  (TransactionInput.txid in1, TransactionInput.output_index in1)
    = (TransactionInput.txid in2, TransactionInput.output_index in2) ->
  (forall i, Legacy.Blockchain.utxo_key (Transaction.txid tx1) i
             <> Legacy.Blockchain.utxo_key (TransactionInput.txid in1)
                                           (TransactionInput.output_index in1)) ->
  exists s1,
    Legacy.Blockchain.add_transaction s tx1 = (true, s1) /\
    Legacy.Blockchain.add_transaction s1 tx2 = (false, s1).
Proof.
  intros Hvalid Hin1 Hin2 [= Hid Hidx] Hfresh.
  unfold Legacy.Blockchain.add_transaction at 1. rewrite Hvalid. simpl.
  eexists. split; [reflexivity|].
  unfold Legacy.Blockchain.add_transaction.
  replace (Legacy.Blockchain.is_valid_transaction _ tx2) with false; [done|].
  symmetry. unfold Legacy.Blockchain.is_valid_transaction, Transaction.is_coinbase.
  destruct (Transaction.inputs tx2) as [|i0 rest] eqn:Hinputs; [by apply elem_of_nil in Hin2|].
  rewrite <- Hinputs in *.
  apply legacy_valid_inputs_missing. exists in2. split; [done|]. simpl.
  rewrite <- Hid, <- Hidx.
  rewrite (foldl_insert_lookup_ne
             (fun io : Z * TransactionOutput.t =>
                Legacy.Blockchain.utxo_key (Transaction.txid tx1) (fst io)) snd).
  - rewrite (foldl_delete_lookup
               (fun x => Legacy.Blockchain.utxo_key (TransactionInput.txid x)
                                                    (TransactionInput.output_index x))).
    rewrite bool_decide_eq_true_2; [done|].
    apply list_elem_of_fmap. by exists in1.
  - intros (io & Heq & _)%list_elem_of_fmap. by apply (Hfresh (fst io)).
Qed.

(** ** Fork handling *)

Lemma switch_to_fork_longer (s : Blockchain.t) (fork_chain : list Block.t)
    (earlier later : list (list Block.t)) :
  (length (Blockchain.chain s) < length fork_chain)%nat ->
  Blockchain.forks s = earlier ++ fork_chain :: later ->
  Blockchain._switch_to_fork s fork_chain (length earlier)
  = Some (switched s fork_chain earlier later).
Proof.
  intros Hlen Hforks. unfold Blockchain._switch_to_fork, Blockchain.pop.
  rewrite Hforks.
  rewrite bool_decide_eq_true_2 by (rewrite length_app; simpl; lia).
  simpl. rewrite delete_middle.
  replace (Z.of_nat (length fork_chain) - 1) with (Z.of_nat (length fork_chain - 1)) by lia.
  rewrite slice_to_nat, slice_from_nat.
  rewrite take_ge by lia. rewrite <- foldl_app. reflexivity.
Qed.

(** The loop passes over forks whose tip does not match. *)
Lemma handle_fork_from_skip (s : Blockchain.t) (block : Block.t)
    (mid : list (list Block.t)) :
  forall (i : nat) (later : list (list Block.t)),
  Forall (passed_over (Block.previous_hash block)) mid ->
  Blockchain.handle_fork_from s block i (mid ++ later)
  = Blockchain.handle_fork_from s block (i + length mid) later.
Proof.
  induction mid as [|fc mid IH]; intros i later Hmid; simpl.
  - by rewrite Nat.add_0_r.
  - apply Forall_cons in Hmid as [(tip & -> & Hne) Hmid]. simpl.
    rewrite bool_decide_eq_false_2 by (by intros ?).
    rewrite IH by done. f_equal. lia.
Qed.

(** An empty fork sequence makes [fork_chain[-1]] fail. *)
Lemma handle_fork_from_empty_fork (s : Blockchain.t) (block : Block.t) (i : nat)
    (fork_chain : list Block.t) (later : list (list Block.t)) :
  last fork_chain = None ->
  Blockchain.handle_fork_from s block i (fork_chain :: later) = None.
Proof. intros H. simpl. by rewrite H. Qed.

(** The first fork whose tip matches is extended, and the switch is decided
    by comparing lengths. *)
Lemma handle_fork_from_hit (s : Blockchain.t) (block fork_tip : Block.t)
    (fork_chain : list Block.t) (earlier later : list (list Block.t)) :
  Blockchain.forks s = earlier ++ fork_chain :: later ->
  last fork_chain = Some fork_tip ->
  Block.previous_hash block = Block.hash fork_tip ->
  Blockchain.handle_fork_from s block (length earlier) (fork_chain :: later)
  = Some (true,
          if bool_decide (length (Blockchain.chain s) < length (fork_chain ++ [block]))%nat
          then switched s (fork_chain ++ [block]) earlier later
          else Blockchain.set_forks s (earlier ++ (fork_chain ++ [block]) :: later)).
Proof.
  intros Hforks Htip Hprev. simpl. rewrite Htip. simpl.
  rewrite bool_decide_eq_true_2 by done.
  rewrite Hforks, insert_app_r_alt by lia.
  rewrite Nat.sub_diag. simpl.
  case_bool_decide as Hlen; [|done].
  rewrite (switch_to_fork_longer _ (fork_chain ++ [block]) earlier later); done.
Qed.

Lemma filter_head_of_find {A} (P : A -> Prop) `{!forall x, Decision (P x)}
    (l : list A) (j : nat) (m : A) :
  list_find P l = Some (j, m) -> exists rest, filter P l = m :: rest.
Proof.
  revert j. induction l as [|x l IH]; intros j; [done|].
  simpl. destruct (decide (P x)) as [Hx|Hx].
  - intros [= <- <-]. rewrite filter_cons_True by done. by eexists.
  - rewrite filter_cons_False by done.
    destruct (list_find P l) as [[j' m']|]; [|done]. simpl.
    intros [= <- <-]. by eapply IH.
Qed.

Lemma filter_nil_of_find {A} (P : A -> Prop) `{!forall x, Decision (P x)}
    (l : list A) :
  list_find P l = None -> filter P l = [].
Proof.
  induction l as [|x l IH]; [done|].
  simpl. destruct (decide (P x)) as [Hx|Hx]; [done|].
  rewrite filter_cons_False by done.
  destruct (list_find P l) as [[j' m']|]; [done|]. auto.
Qed.

(** With no fork to extend and no block of the canonical chain carrying the
    previous hash, the block is an orphan. *)
Lemma handle_fork_from_orphan (s : Blockchain.t) (block : Block.t) (i : nat) :
  Forall (fun b => Block.hash b <> Block.previous_hash block) (Blockchain.chain s) ->
  Blockchain.handle_fork_from s block i [] = Some (false, s).
Proof.
  intros Hall. simpl.
  rewrite (filter_nil_of_find _ (Blockchain.chain s)); [done|].
  apply list_find_None. exact Hall.
Qed.

(** With no fork to extend, a new fork starts at the first block of the
    canonical chain that carries the previous hash. *)
Lemma handle_fork_from_new_fork (s : Blockchain.t) (block ancestor : Block.t)
    (i j : nat) :
  list_find (fun b => Block.hash b = Block.previous_hash block) (Blockchain.chain s)
    = Some (j, ancestor) ->
  Blockchain.handle_fork_from s block i []
  = Some (true, Blockchain.set_forks s
                  (Blockchain.forks s ++ [take (S j) (Blockchain.chain s) ++ [block]])).
Proof.
  intros Hfind. simpl.
  destruct (filter_head_of_find _ _ _ _ Hfind) as [rest ->].
  apply list_find_Some in Hfind as (Hj & Hhash & Hmin).
  destruct (list_find (fun b => b = ancestor) (Blockchain.chain s)) as [[j' m]|] eqn:Hidx.
  - apply list_find_Some in Hidx as (Hj' & -> & Hmin').
    assert (j' = j) as ->.
    { destruct (Nat.lt_trichotomy j' j) as [Hlt|[->|Hgt]]; [|done|].
      - by destruct (Hmin _ _ Hj' Hlt).
      - by destruct (Hmin' _ _ Hj Hgt). }
    simpl. replace (Z.of_nat j + 1) with (Z.of_nat (S j)) by lia.
    by rewrite slice_to_nat.
  - exfalso. eapply list_find_None, Forall_lookup_1 in Hidx; [|exact Hj]. done.
Qed.

Lemma forks_split (prev : string) (forks : list (list Block.t)) :
  Forall (passed_over prev) forks \/
  exists mid fork_chain later,
    forks = mid ++ fork_chain :: later /\
    Forall (passed_over prev) mid /\
    (last fork_chain = None \/
     exists fork_tip, last fork_chain = Some fork_tip /\ prev = Block.hash fork_tip).
Proof.
  induction forks as [|fc forks IH]; [by left|].
  destruct (last fc) as [tip|] eqn:Htip.
  - destruct (decide (prev = Block.hash tip)) as [Heq|Hne].
    + right. exists [], fc, forks. split; [done|]. split; [constructor|].
      right. by exists tip.
    + assert (Hfc : passed_over prev fc) by (exists tip; split; [done|congruence]).
      destruct IH as [IH|(mid & fc' & later & -> & Hmid & Hfc')].
      * left. by constructor.
      * right. exists (fc :: mid), fc', later. split; [done|]. split; [by constructor|done].
  - right. exists [], fc, forks. split; [done|]. split; [constructor|]. by left.
Qed.

(** Every way [_handle_fork] can return. *)
Lemma handle_fork_cases (s : Blockchain.t) (block : Block.t) (r : bool) (s' : Blockchain.t) :
  Blockchain._handle_fork s block = Some (r, s') ->
  (r = false /\ s' = s) \/
  (r = true /\ exists j ancestor,
     Blockchain.chain s !! j = Some ancestor /\
     Block.hash ancestor = Block.previous_hash block /\
     s' = Blockchain.set_forks s
            (Blockchain.forks s ++ [take (S j) (Blockchain.chain s) ++ [block]])) \/
  (r = true /\ exists earlier fork_chain later,
     Blockchain.forks s = earlier ++ fork_chain :: later /\
     (length (fork_chain ++ [block]) <= length (Blockchain.chain s))%nat /\
     s' = Blockchain.set_forks s (earlier ++ (fork_chain ++ [block]) :: later)) \/
  (r = true /\ exists earlier fork_chain later,
     Blockchain.forks s = earlier ++ fork_chain :: later /\
     (length (Blockchain.chain s) < length (fork_chain ++ [block]))%nat /\
     s' = switched s (fork_chain ++ [block]) earlier later).
Proof.
  unfold Blockchain._handle_fork. intros H.
  destruct (forks_split (Block.previous_hash block) (Blockchain.forks s))
    as [Hall|(mid & fc & later & Hforks & Hmid & Hfc)].
  - rewrite <- (app_nil_r (Blockchain.forks s)) in H.
    rewrite handle_fork_from_skip in H by done.
    destruct (list_find (fun b => Block.hash b = Block.previous_hash block)
                (Blockchain.chain s)) as [[j ancestor]|] eqn:Hfind.
    + rewrite (handle_fork_from_new_fork _ _ _ _ _ Hfind) in H.
      injection H as <- <-. right. left. split; [done|].
      apply list_find_Some in Hfind as (Hj & Hh & _). by exists j, ancestor.
    + apply list_find_None in Hfind.
      rewrite handle_fork_from_orphan in H by exact Hfind.
      injection H as <- <-. by left.
  - rewrite Hforks, handle_fork_from_skip in H by done. simpl in H.
    destruct Hfc as [Hnone|(tip & Htip & Hprev)].
    + by rewrite Hnone in H.
    + change (length mid) with (0 + length mid)%nat in H. simpl in H.
      pose proof (handle_fork_from_hit s block tip fc mid later Hforks Htip Hprev) as Hhit.
      simpl in Hhit. rewrite Hhit in H. injection H as <- <-.
      right. right. case_bool_decide as Hlen.
      * right. split; [done|]. by exists mid, fc, later.
      * left. split; [done|]. exists mid, fc, later. repeat split; [done|lia].
Qed.

(** [_handle_fork] returns, whatever the block, as long as no tracked fork
    sequence is empty. *)
Lemma handle_fork_total (s : Blockchain.t) (block : Block.t) :
  Forall (fun fork_chain => fork_chain <> []) (Blockchain.forks s) ->
  is_Some (Blockchain._handle_fork s block).
Proof.
  intros Hne. unfold Blockchain._handle_fork.
  destruct (forks_split (Block.previous_hash block) (Blockchain.forks s))
    as [Hall|(mid & fc & later & Hforks & Hmid & Hfc)].
  - rewrite <- (app_nil_r (Blockchain.forks s)).
    rewrite handle_fork_from_skip by done.
    destruct (list_find (fun b => Block.hash b = Block.previous_hash block)
                (Blockchain.chain s)) as [[j ancestor]|] eqn:Hfind.
    + rewrite (handle_fork_from_new_fork _ _ _ _ _ Hfind). by eexists.
    + apply list_find_None in Hfind.
      rewrite handle_fork_from_orphan by exact Hfind. by eexists.
  - rewrite Hforks, handle_fork_from_skip by done.
    destruct Hfc as [Hnone|(tip & Htip & Hprev)].
    + exfalso. apply last_None in Hnone. rewrite Hforks in Hne.
      apply Forall_app in Hne as [_ Hne]. by apply Forall_cons in Hne as [? _].
    + pose proof (handle_fork_from_hit s block tip fc mid later Hforks Htip Hprev) as Hhit.
      simpl in *. rewrite Hhit. by eexists.
Qed.

(** ** Cumulative work *)


(** ** The canonical chain and the tracked forks *)


Lemma add_block_result (s : Blockchain.t) (block : Block.t) (r : bool) (s' : Blockchain.t) :
  Blockchain.add_block s block = Some (r, s') ->
  s' = s \/
  s' = Blockchain.mk (Blockchain.difficulty s) (Blockchain.chain s ++ [block])
         (Blockchain.pending_transactions s)
         (UTXOSet.apply_block (Blockchain.utxo s) block) (Blockchain.forks s).
Proof.
  intros H.
  destruct (decide (Blockchain.chain s = [])) as [Hnil|Hne].
  - unfold Blockchain.add_block, Blockchain.is_valid_block, Blockchain.last_block in H.
    by rewrite Hnil in H.
  - destruct (add_block_cases s block Hne) as [[_ Ha]|[_ Ha]];
      rewrite Ha in H; injection H as <- <-; auto.
Qed.







(** ** The UTXO set after a reorg *)

(** What [_switch_to_fork] replays when the fork is the longer sequence (the
    only case in which it is called): the whole of the old canonical chain,
    then the blocks of the fork at the positions the old chain did not
    have. *)
Lemma switch_to_fork_replays (s s' : Blockchain.t) (fork_chain : list Block.t)
    (earlier later : list (list Block.t)) :
  (length (Blockchain.chain s) < length fork_chain)%nat ->
  Blockchain.forks s = earlier ++ fork_chain :: later ->
  Blockchain._switch_to_fork s fork_chain (length earlier) = Some s' ->
  Blockchain.utxo s' =
    foldl UTXOSet.apply_block UTXOSet.empty
      (Blockchain.chain s ++ drop (length (Blockchain.chain s)) fork_chain).
Proof.
  intros Hlen Hforks. rewrite (switch_to_fork_longer s fork_chain earlier later) by done.
  by intros [= <-].
Qed.

(** C3, at the failing input.  The canonical chain [genesis; block1; block2]
    is overtaken by the fork [genesis; block1; fork2] when [fork3] extends it.
    The chain switches to the four blocks of the fork, but the UTXO set is
    that of [genesis; block1; block2; fork3]: [bob], paid only in the
    discarded [block2], still has his 20, and [dave] has the reward of
    [fork3] but not that of [fork2].  Replaying the new chain would give 0
    and 100. *)
Theorem reorg_keeps_discarded_payments :
  (fun r => (fst r, Blockchain.chain (snd r), Blockchain.forks (snd r),
             Blockchain.get_balance (snd r) "bob", Blockchain.get_balance (snd r) "dave")) <$>
    Blockchain._handle_fork
      (Sample.ledger [Sample.genesis; Sample.block1; Sample.block2]
                     [[Sample.genesis; Sample.block1; Sample.fork2]])
      Sample.fork3
  = Some (true, [Sample.genesis; Sample.block1; Sample.fork2; Sample.fork3], [], 20, 50)
  /\ UTXOSet.get_balance
       (Sample.replay [Sample.genesis; Sample.block1; Sample.fork2; Sample.fork3]) "bob" = 0
  /\ UTXOSet.get_balance
       (Sample.replay [Sample.genesis; Sample.block1; Sample.fork2; Sample.fork3]) "dave" = 100
  /\ Blockchain.get_chain_difficulty
       (Sample.ledger [Sample.genesis; Sample.block1; Sample.block2] [])
       (Some [Sample.genesis; Sample.block1; Sample.fork2; Sample.fork3]) = 16
  /\ Blockchain.get_chain_difficulty
       (Sample.ledger [Sample.genesis; Sample.block1; Sample.block2] []) None = 12.
Proof. vm_compute. repeat split; reflexivity. Qed.

(** ** Rejections *)

(** A transaction id that occurs twice in a block makes the loop of
    [is_valid_block] return [False]. *)
Lemma validate_transactions_duplicate (block : Block.t) (txs : list Transaction.t) :
  forall temp_utxo total_fees (seen_txids : gset string),
  ~ NoDup (Transaction.txid <$> txs) \/
    (exists tx, tx ∈ txs /\ Transaction.txid tx ∈ seen_txids) ->
  Blockchain.validate_transactions block temp_utxo total_fees seen_txids txs = false.
Proof.
  induction txs as [|tx rest IH]; intros temp fees seen H.
  - exfalso. destruct H as [H|(tx & Hin & _)].
    + apply H. constructor.
    + by apply elem_of_nil in Hin.
  - simpl. case_bool_decide as Hseen; [done|].
    assert (Hrest : ~ NoDup (Transaction.txid <$> rest) \/
              (exists tx', tx' ∈ rest /\
                 Transaction.txid tx' ∈ ({[Transaction.txid tx]} ∪ seen : gset string))).
    { destruct H as [H|(tx' & Hin & Hs)].
      - rewrite fmap_cons in H.
        destruct (decide (Transaction.txid tx ∈ Transaction.txid <$> rest)) as [Hd|Hd].
        + right. apply list_elem_of_fmap in Hd as (tx' & Heq & Hin).
          exists tx'. split; [done|]. apply elem_of_union. left.
          by apply elem_of_singleton.
        + left. intros Hnd. apply H. by constructor.
      - apply elem_of_cons in Hin as [->|Hin]; [done|].
        right. exists tx'. split; [done|]. apply elem_of_union. by right. }
    destruct (Transaction.is_coinbase tx); [by apply IH|].
    destruct (UTXOSet.validate_transaction temp tx) as [[|] v]; simpl; [by apply IH|done].
Qed.

(** X25. The causes of a rejection that can be read off the block.  A block
    that does not name the tip as its predecessor, whose hash misses its
    difficulty target, whose Merkle root is not that of its transactions,
    that lists a transaction id twice, or whose first transaction is a
    malformed reward makes [add_block] return [False] with the ledger as it
    was. *)
Lemma add_block_rejections (s : Blockchain.t) (block tip : Block.t) :
  Blockchain.last_block s = Some tip ->
  Block.previous_hash block <> Block.hash tip \/
  str_take (Block.difficulty block) (Block.hash block) <> zeros (Block.difficulty block) \/
  Block.calculate_merkle_root (Block.transactions block) <> Some (Block.merkle_root block) \/
  ~ NoDup (Transaction.txid <$> Block.transactions block) \/
  Blockchain.coinbase_check block = false ->
  Blockchain.add_block s block = Some (false, s).
Proof.
  intros Htip Hcause.
  assert (Hne : Blockchain.chain s <> []).
  { intros E. unfold Blockchain.last_block in Htip. by rewrite E in Htip. }
  destruct (add_block_cases s block Hne) as [[_ Ha]|[Hv _]]; [done|]. exfalso.
  destruct (is_valid_block_true s block Hv) as (tip' & Htip' & Hval & Hloop).
  assert (tip' = tip) as -> by congruence.
  apply validate_true in Hval as (Hprev & Hpow & Hroot).
  destruct Hcause as [H|[H|[H|[H|H]]]]; try done.
  - rewrite validate_transactions_duplicate in Hloop; [done|by left].
  - apply validate_transactions_coinbase_check in Hloop. congruence.
Qed.

(** ** Validation works on a copy *)

Lemma store_validate_transactions (block : Block.t) (txs : list Transaction.t) :
  forall (h : Store.heap) (temp_utxo : Store.loc) (u : UTXOSet.t)
         (total_fees : Z) (seen_txids : gset string),
  h !! temp_utxo = Some u ->
  exists h',
    Store.validate_transactions block h temp_utxo total_fees seen_txids txs
    = Some (h', Blockchain.validate_transactions block u total_fees seen_txids txs) /\
    forall l, l <> temp_utxo -> h' !! l = h !! l.
Proof.
  induction txs as [|tx rest IH]; intros h temp u fees seen Hu; simpl.
  - by exists h.
  - case_bool_decide; [by exists h|].
    destruct (Transaction.is_coinbase tx); [by apply IH|].
    unfold Store.validate_transaction, Store.apply_transaction. rewrite Hu. simpl.
    destruct (UTXOSet.validate_transaction u tx) as [[|] v]; simpl; [|by exists h].
    destruct (IH (<[temp := UTXOSet.apply_transaction u tx]> h) temp
                 (UTXOSet.apply_transaction u tx)
                 (fees + (v - sum (TransactionOutput.value <$> Transaction.outputs tx)))
                 ({[Transaction.txid tx]} ∪ seen)) as (h' & -> & Hframe).
    { apply lookup_insert_eq. }
    exists h'. split; [done|].
    intros l Hl. rewrite Hframe by done. by apply lookup_insert_ne.
Qed.

Lemma store_is_valid_block (s : Blockchain.t) (tip block : Block.t)
    (h : Store.heap) (utxo : Store.loc) :
  Blockchain.last_block s = Some tip ->
  h !! utxo = Some (Blockchain.utxo s) ->
  exists h' r,
    Store.is_valid_block h utxo tip block = Some (h', r) /\
    Blockchain.is_valid_block s block = Some r /\
    forall l, is_Some (h !! l) -> h' !! l = h !! l.
Proof.
  intros Htip Hu. unfold Store.is_valid_block, Blockchain.is_valid_block.
  rewrite Htip. simpl.
  destruct (validate_total block (Block.hash tip)) as [ok ->]. simpl.
  destruct ok; simpl; [|by exists h, false].
  unfold Store.deepcopy. rewrite Hu. simpl.
  set (l' := fresh (dom h)).
  assert (Hfresh : h !! l' = None).
  { apply not_elem_of_dom. apply is_fresh. }
  destruct (store_validate_transactions block (Block.transactions block)
              (<[l' := Blockchain.utxo s]> h) l' (Blockchain.utxo s) 0 ∅)
    as (h' & -> & Hframe).
  { apply lookup_insert_eq. }
  eexists h', _. split; [done|]. split; [done|].
  intros l [x Hl].
  assert (l <> l') by congruence.
  rewrite Hframe by done. by apply lookup_insert_ne.
Qed.

(** A transaction with inputs that the copy of the UTXO set does not
    accept, when the loop reaches it, makes the loop return [False]. *)
Lemma validate_transactions_invalid (block : Block.t) (tx : Transaction.t)
    (post : list Transaction.t) (pre : list Transaction.t) :
  forall temp_utxo total_fees seen_txids,
  Transaction.is_coinbase tx = false ->
  fst (UTXOSet.validate_transaction (snapshot_before temp_utxo pre) tx) = false ->
  Blockchain.validate_transactions block temp_utxo total_fees seen_txids
    (pre ++ tx :: post) = false.
Proof.
  induction pre as [|p pre IH]; intros temp fees seen Hcb Hbad; simpl.
  - case_bool_decide; [done|]. rewrite Hcb. simpl in Hbad.
    destruct (UTXOSet.validate_transaction temp tx) as [ok v]. simpl in Hbad.
    by rewrite Hbad.
  - case_bool_decide; [done|]. simpl in Hbad.
    destruct (Transaction.is_coinbase p); [by apply IH|].
    destruct (UTXOSet.validate_transaction temp p) as [[|] v]; simpl; [by apply IH|done].
Qed.

(** C8.  Every cause of rejection read off the block makes [add_block]
    return [False] on the ledger it was called on: a previous hash other
    than the tip's, a hash that misses the target, a Merkle root that is not
    that of the transactions, a transaction id listed twice, a transaction
    with inputs that the copy of the UTXO set does not accept at its turn, a
    malformed reward; so does a block that attaches nowhere in the fork
    handler, and so does a transaction the UTXO set does not accept in
    [add_transaction].  [add_block] returns on every ledger with a chain,
    and it changes the ledger only when [is_valid_block] has returned
    [True], and then by appending the block and applying it; whenever
    [add_block], the fork handler or [add_transaction] returns [False], the
    ledger (canonical chain, UTXO set, fork list, pending pool) is the one
    it was called on.  With the UTXO sets kept as objects in a store,
    [is_valid_block] gives the same verdict and leaves every object that
    existed before the call as it was, the live UTXO set among them: all
    its writes go to the copy. *)
Theorem rejection_leaves_ledger_unchanged :
  (forall s block, Blockchain.chain s <> [] ->
     exists r s', Blockchain.add_block s block = Some (r, s')) /\
  (forall s block s', Blockchain.add_block s block = Some (false, s') -> s' = s) /\
  (forall s block s', Blockchain._handle_fork s block = Some (false, s') -> s' = s) /\
  (forall s tx s', Blockchain.add_transaction s tx = (false, s') -> s' = s) /\
  (forall s tip block (h : Store.heap) (utxo : Store.loc),
     Blockchain.last_block s = Some tip ->
     h !! utxo = Some (Blockchain.utxo s) ->
     exists h' r,
       Store.is_valid_block h utxo tip block = Some (h', r) /\
       Blockchain.is_valid_block s block = Some r /\
       forall l, is_Some (h !! l) -> h' !! l = h !! l) /\
  (forall s tip block,
     Blockchain.last_block s = Some tip ->
     Block.previous_hash block <> Block.hash tip \/
     str_take (Block.difficulty block) (Block.hash block) <> zeros (Block.difficulty block) \/
     Block.calculate_merkle_root (Block.transactions block) <> Some (Block.merkle_root block) \/
     ~ NoDup (Transaction.txid <$> Block.transactions block) \/
     (exists pre tx post,
        Block.transactions block = pre ++ tx :: post /\
        Transaction.is_coinbase tx = false /\
        fst (UTXOSet.validate_transaction (snapshot_before (Blockchain.utxo s) pre) tx)
        = false) \/
     Blockchain.coinbase_check block = false ->
     Blockchain.add_block s block = Some (false, s)) /\
  (forall s block,
     Forall (passed_over (Block.previous_hash block)) (Blockchain.forks s) ->
     Forall (fun b => Block.hash b <> Block.previous_hash block) (Blockchain.chain s) ->
     Blockchain._handle_fork s block = Some (false, s)) /\
  (forall s tx,
     fst (UTXOSet.validate_transaction (Blockchain.utxo s) tx) = false ->
     Blockchain.add_transaction s tx = (false, s)) /\
  (forall s block r s',
     Blockchain.add_block s block = Some (r, s') ->
     (r = false /\ s' = s /\ Blockchain.is_valid_block s block = Some false) \/
     (r = true /\ Blockchain.is_valid_block s block = Some true /\
      s' = Blockchain.mk (Blockchain.difficulty s) (Blockchain.chain s ++ [block])
             (Blockchain.pending_transactions s)
             (UTXOSet.apply_block (Blockchain.utxo s) block)
             (Blockchain.forks s))).
Proof.
  assert (Hcases : forall s block r s',
     Blockchain.add_block s block = Some (r, s') ->
     (r = false /\ s' = s /\ Blockchain.is_valid_block s block = Some false) \/
     (r = true /\ Blockchain.is_valid_block s block = Some true /\
      s' = Blockchain.mk (Blockchain.difficulty s) (Blockchain.chain s ++ [block])
             (Blockchain.pending_transactions s)
             (UTXOSet.apply_block (Blockchain.utxo s) block)
             (Blockchain.forks s))).
  { intros s block r s' H.
    destruct (decide (Blockchain.chain s = [])) as [Hnil|Hne].
    { unfold Blockchain.add_block, Blockchain.is_valid_block, Blockchain.last_block in H.
      by rewrite Hnil in H. }
    destruct (add_block_cases s block Hne) as [[Hv Ha]|[Hv Ha]];
      rewrite Ha in H; injection H as <- <-; [by left|by right]. }
  split; [|split; [|split; [|split; [|split; [|split; [|split; [|split]]]]]]].
  - intros s block Hne.
    destruct (add_block_cases s block Hne) as [[_ ->]|[_ ->]]; by eexists _, _.
  - intros s block s' H.
    by destruct (Hcases s block false s' H) as [(_ & -> & _)|(? & _)].
  - intros s block s' H.
    apply handle_fork_cases in H as [[_ ->]|[(? & _)|[(? & _)|(? & _)]]]; done.
  - intros s tx s'. unfold Blockchain.add_transaction.
    destruct (UTXOSet.validate_transaction _ _) as [[|] ?]; [done|]. by intros [= <-].
  - exact store_is_valid_block.
  - intros s tip block Htip Hcause.
    assert (Hne : Blockchain.chain s <> []).
    { intros E. unfold Blockchain.last_block in Htip. by rewrite E in Htip. }
    destruct (add_block_cases s block Hne) as [[_ Ha]|[Hv _]]; [done|]. exfalso.
    destruct (is_valid_block_true s block Hv) as (tip' & Htip' & Hval & Hloop).
    assert (tip' = tip) as -> by congruence.
    apply validate_true in Hval as (Hprev & Hpow & Hroot).
    destruct Hcause as [H|[H|[H|[H|[(pre & tx & post & Htxs & Hcb & Hbad)|H]]]]]; try done.
    + rewrite validate_transactions_duplicate in Hloop; [done|by left].
    + rewrite Htxs, validate_transactions_invalid in Hloop; done.
    + apply validate_transactions_coinbase_check in Hloop. congruence.
  - intros s block Hforks Hchain. unfold Blockchain._handle_fork.
    rewrite <- (app_nil_r (Blockchain.forks s)).
    rewrite handle_fork_from_skip by done.
    by apply handle_fork_from_orphan.
  - intros s tx Hbad. unfold Blockchain.add_transaction.
    destruct (UTXOSet.validate_transaction _ _) as [ok v]. simpl in Hbad. by rewrite Hbad.
  - exact Hcases.
Qed.

(** [block_double_spend] is well mined on [block1] and spends one output
    twice: [tx_pay_again] is not accepted by the copy once [tx_pay] has been
    applied to it.  The block is rejected, and the ledger is untouched. *)
Lemma rejection_leaves_ledger_unchanged_witness :
  Blockchain.add_block
    (Sample.ledger_with_pending [Sample.genesis; Sample.block1] [Sample.tx_pay])
    Sample.block_double_spend
  = Some (false, Sample.ledger_with_pending [Sample.genesis; Sample.block1] [Sample.tx_pay]).
Proof.
  apply (proj1 (proj2 (proj2 (proj2 (proj2 (proj2 rejection_leaves_ledger_unchanged)))))
           (Sample.ledger_with_pending [Sample.genesis; Sample.block1] [Sample.tx_pay])
           Sample.block1 Sample.block_double_spend).
  - reflexivity.
  - right. right. right. right. left.
    exists [Sample.cb_erin; Sample.tx_pay], Sample.tx_pay_again, [].
    split; [reflexivity|]. split; [reflexivity|]. vm_compute. reflexivity.
Defined.

(** ** [is_chain_valid] of the single-file ledger *)

Section LegacyChain.
Variable json_dumps : json -> string.

Lemma legacy_calculate_hash_set_hash (b : Legacy.Block.t) (h : string) :
  Legacy.Block.calculate_hash json_dumps (Legacy.Block.set_hash b h)
  = Legacy.Block.calculate_hash json_dumps b.
Proof. reflexivity. Qed.

Lemma legacy_mine_result (fuel difficulty : nat) (b b' : Legacy.Block.t) :
  Legacy.Block.hash b = Legacy.Block.calculate_hash json_dumps b ->
  Legacy.Block.mine json_dumps fuel difficulty b = Some b' ->
  Legacy.Block.hash b' = Legacy.Block.calculate_hash json_dumps b' /\
  Legacy.Block.previous_hash b' = Legacy.Block.previous_hash b /\
  str_take difficulty (Legacy.Block.hash b') = zeros difficulty.
Proof.
  revert b. induction fuel as [|fuel IH]; intros b Hb; simpl.
  - case_bool_decide as H; [done|]. intros [= <-]. by repeat split.
  - case_bool_decide as H.
    + intros Hm. apply IH in Hm; [exact Hm|]. reflexivity.
    + intros [= <-]. by repeat split.
Qed.

Lemma chain_valid_from_cons (difficulty : nat) (previous_block current_block : Legacy.Block.t)
    (rest : list Legacy.Block.t) :
  Legacy.Blockchain.chain_valid_from (Legacy.Block.calculate_hash json_dumps) difficulty
    previous_block (current_block :: rest) = true <->
  block_ok json_dumps difficulty previous_block current_block /\
  Legacy.Blockchain.chain_valid_from (Legacy.Block.calculate_hash json_dumps) difficulty
    current_block rest = true.
Proof.
  simpl. unfold block_ok.
  repeat case_bool_decide; split; try done; tauto.
Qed.

Lemma chain_valid_from_lookup (difficulty : nat) (rest : list Legacy.Block.t) :
  forall previous_block,
  Legacy.Blockchain.chain_valid_from (Legacy.Block.calculate_hash json_dumps) difficulty
    previous_block rest = true <->
  forall i p c,
    (previous_block :: rest) !! i = Some p ->
    (previous_block :: rest) !! S i = Some c ->
    block_ok json_dumps difficulty p c.
Proof.
  induction rest as [|b rest IH]; intros prev.
  - split; [|done]. intros _ i p c _ Hc. by destruct i.
  - rewrite chain_valid_from_cons, IH. split.
    + intros [Hb Hrest] [|i] p c Hp Hc; simpl in *.
      * by injection Hp as <-; injection Hc as <-.
      * by apply (Hrest i).
    + intros H. split; [by apply (H 0%nat)|].
      intros i p c Hp Hc. by apply (H (S i)).
Qed.

(** What [is_chain_valid] decides: every block but the first carries its
    own hash, names the hash of the block before it, and meets the
    difficulty target. *)
Lemma is_chain_valid_lookup (s : Legacy.Blockchain.t) :
  Legacy.Blockchain.is_chain_valid json_dumps s = true <->
  forall i p c,
    Legacy.Blockchain.chain s !! i = Some p ->
    Legacy.Blockchain.chain s !! S i = Some c ->
    block_ok json_dumps (Legacy.Blockchain.difficulty s) p c.
Proof.
  unfold Legacy.Blockchain.is_chain_valid.
  destruct (Legacy.Blockchain.chain s) as [|g rest].
  - split; [|done]. intros _ i p c Hp. by destruct i.
  - apply chain_valid_from_lookup.
Qed.

Lemma legacy_step_valid (s s' : Legacy.Blockchain.t) :
  legacy_step json_dumps s s' ->
  Legacy.Blockchain.is_chain_valid json_dumps s = true ->
  Legacy.Blockchain.is_chain_valid json_dumps s' = true.
Proof.
  intros Hstep Hvalid.
  destruct Hstep as [s tx r s' H|s fuel miner loaded_tx loaded_block r s' H].
  - unfold Legacy.Blockchain.add_transaction in H.
    destruct (Legacy.Blockchain.is_valid_transaction s tx); simpl in H;
      injection H as <- <-; done.
  - unfold Legacy.Blockchain.mine_pending_transactions in H.
    destruct (Legacy.Blockchain.pending_transactions s); [by injection H as <- <-|].
    destruct (Legacy.Blockchain.last_block s) as [tip|] eqn:Htip; [|done]. simpl in H.
    destruct (Legacy.Block.mine _ _ _ _) as [nb|] eqn:Hmine; [|done]. simpl in H.
    injection H as <- <-.
    apply legacy_mine_result in Hmine as (Hhash & Hprev & Hpow); [|reflexivity].
    simpl in Hprev.
    apply is_chain_valid_lookup. simpl.
    rewrite is_chain_valid_lookup in Hvalid.
    intros i p c Hp Hc.
    destruct (decide (S i < length (Legacy.Blockchain.chain s))%nat) as [Hlt|Hge].
    + rewrite lookup_app_l in Hp by lia. rewrite lookup_app_l in Hc by lia.
      by apply (Hvalid i).
    + assert (S i = length (Legacy.Blockchain.chain s)) as Hi.
      { apply lookup_lt_Some in Hc. rewrite length_app in Hc. simpl in Hc. lia. }
      rewrite Hi, list_lookup_middle in Hc by done. injection Hc as <-.
      rewrite lookup_app_l in Hp by lia.
      unfold Legacy.Blockchain.last_block in Htip. rewrite last_lookup in Htip.
      replace (pred (length (Legacy.Blockchain.chain s))) with i in Htip by lia.
      assert (p = tip) as -> by congruence.
      by repeat split.
Qed.

Lemma legacy_reachable_valid (difficulty : nat) (genesis_time : Z)
    (s : Legacy.Blockchain.t) :
  rtc (legacy_step json_dumps)
      (Legacy.Blockchain.init json_dumps difficulty genesis_time) s ->
  Legacy.Blockchain.is_chain_valid json_dumps s = true.
Proof.
  intros Hrtc.
  assert (H0 : Legacy.Blockchain.is_chain_valid json_dumps
                 (Legacy.Blockchain.init json_dumps difficulty genesis_time) = true)
    by reflexivity.
  revert H0. induction Hrtc as [|s1 s2 s3 Hstep _ IH]; [done|].
  intros H1. apply IH. by eapply legacy_step_valid.
Qed.

Lemma is_chain_valid_false (s : Legacy.Blockchain.t) :
  Legacy.Blockchain.is_chain_valid json_dumps s <> true ->
  Legacy.Blockchain.is_chain_valid json_dumps s = false.
Proof. by destruct (Legacy.Blockchain.is_chain_valid json_dumps s). Qed.

(** A stored block other than the first whose stored hash is not the hash
    of its other fields makes the chain invalid. *)
Lemma stale_hash_detected (s : Legacy.Blockchain.t) (i : nat) (b' : Legacy.Block.t) :
  (1 <= i < length (Legacy.Blockchain.chain s))%nat ->
  Legacy.Block.hash b' <> Legacy.Block.calculate_hash json_dumps b' ->
  Legacy.Blockchain.is_chain_valid json_dumps (replace_block s i b') = false.
Proof.
  intros Hi Hstale. apply is_chain_valid_false. rewrite is_chain_valid_lookup.
  intros H. simpl in H.
  destruct (lookup_lt_is_Some_2 (<[i := b']> (Legacy.Blockchain.chain s)) (pred i))
    as [p Hp]; [rewrite length_insert; lia|].
  destruct (H (pred i) p b' Hp) as (Hh & _).
  - replace (S (pred i)) with i by lia. apply list_lookup_insert_eq. lia.
  - done.
Qed.

(** The first block is only ever read for its stored hash. *)
Lemma first_block_unchecked (s : Legacy.Blockchain.t) (g g' : Legacy.Block.t) :
  Legacy.Blockchain.chain s !! 0%nat = Some g ->
  Legacy.Block.hash g' = Legacy.Block.hash g ->
  Legacy.Blockchain.is_chain_valid json_dumps (replace_block s 0 g')
  = Legacy.Blockchain.is_chain_valid json_dumps s.
Proof.
  intros Hg Hh. unfold Legacy.Blockchain.is_chain_valid. simpl.
  destruct (Legacy.Blockchain.chain s) as [|g0 rest]; [done|].
  injection Hg as ->. simpl.
  destruct rest as [|b rest]; [done|]. simpl. by rewrite Hh.
Qed.

Lemma first_hash_detected (s : Legacy.Blockchain.t) (g g' b : Legacy.Block.t) :
  Legacy.Blockchain.is_chain_valid json_dumps s = true ->
  Legacy.Blockchain.chain s !! 0%nat = Some g ->
  Legacy.Blockchain.chain s !! 1%nat = Some b ->
  Legacy.Block.hash g' <> Legacy.Block.hash g ->
  Legacy.Blockchain.is_chain_valid json_dumps (replace_block s 0 g') = false.
Proof.
  intros Hvalid Hg Hb Hh. apply is_chain_valid_false. rewrite is_chain_valid_lookup.
  rewrite is_chain_valid_lookup in Hvalid.
  intros H. simpl in H.
  destruct (Hvalid 0%nat g b Hg Hb) as (_ & Hlink & _).
  destruct (H 0%nat g' b) as (_ & Hlink' & _).
  - apply list_lookup_insert_eq. by eapply lookup_lt_Some.
  - by rewrite list_lookup_insert_ne.
  - congruence.
Qed.
End LegacyChain.

(** C9 (amended).  [is_chain_valid] recomputes the hash of every block but
    the first, checks the previous-hash link of every adjacent pair, and
    checks the difficulty target of every block but the first.  Every ledger
    reached from a new one by submitting and mining is valid.  On a valid
    chain, changing the stored hash of a later block, or changing its other
    fields so that they hash differently, makes the chain invalid, and so
    does changing the stored hash of the first block when a second one
    exists.  The other fields of the first block are never looked at. *)
Theorem is_chain_valid_checks_all_but_first (json_dumps : json -> string) :
  (forall s,
     Legacy.Blockchain.is_chain_valid json_dumps s = true <->
     forall i p c,
       Legacy.Blockchain.chain s !! i = Some p ->
       Legacy.Blockchain.chain s !! S i = Some c ->
       block_ok json_dumps (Legacy.Blockchain.difficulty s) p c) /\
  (forall difficulty genesis_time s,
     rtc (legacy_step json_dumps)
         (Legacy.Blockchain.init json_dumps difficulty genesis_time) s ->
     Legacy.Blockchain.is_chain_valid json_dumps s = true) /\
  (forall s i b b',
     Legacy.Blockchain.is_chain_valid json_dumps s = true ->
     (1 <= i)%nat ->
     Legacy.Blockchain.chain s !! i = Some b ->
     (Legacy.Block.hash b' = Legacy.Block.hash b /\
      Legacy.Block.calculate_hash json_dumps b' <> Legacy.Block.calculate_hash json_dumps b) \/
     (Legacy.Block.hash b' <> Legacy.Block.hash b /\
      Legacy.Block.calculate_hash json_dumps b' = Legacy.Block.calculate_hash json_dumps b) ->
     Legacy.Blockchain.is_chain_valid json_dumps (replace_block s i b') = false) /\
  (forall s g b g',
     Legacy.Blockchain.is_chain_valid json_dumps s = true ->
     Legacy.Blockchain.chain s !! 0%nat = Some g ->
     Legacy.Blockchain.chain s !! 1%nat = Some b ->
     Legacy.Block.hash g' <> Legacy.Block.hash g ->
     Legacy.Blockchain.is_chain_valid json_dumps (replace_block s 0 g') = false) /\
  (forall s g g',
     Legacy.Blockchain.chain s !! 0%nat = Some g ->
     Legacy.Block.hash g' = Legacy.Block.hash g ->
     Legacy.Blockchain.is_chain_valid json_dumps (replace_block s 0 g')
     = Legacy.Blockchain.is_chain_valid json_dumps s).
Proof.
  split; [exact (is_chain_valid_lookup json_dumps)|].
  split; [exact (legacy_reachable_valid json_dumps)|].
  split; [|split].
  - intros s i b b' Hvalid Hi Hb Hchange.
    apply stale_hash_detected.
    + split; [done|]. by eapply lookup_lt_Some.
    + destruct i as [|i]; [lia|].
      destruct (lookup_lt_is_Some_2 (Legacy.Blockchain.chain s) i) as [p Hp].
      { apply lookup_lt_Some in Hb. lia. }
      pose proof (proj1 (is_chain_valid_lookup json_dumps s) Hvalid) as Hall.
      destruct (Hall i p b Hp Hb) as (Hh & _).
      destruct Hchange as [[H1 H2]|[H1 H2]]; congruence.
  - intros s g b g'. exact (first_hash_detected json_dumps s g g' b).
  - exact (first_block_unchecked json_dumps).
Qed.

Lemma with_nonce_hash (b : Legacy.Block.t) (n : Z) :
  Legacy.Block.hash (with_nonce b n) = Legacy.Block.hash b.
Proof. reflexivity. Qed.

(** The mined sample ledger is valid, and is not once the nonce of its
    second block has been changed. *)
Lemma is_chain_valid_checks_all_but_first_witness :
  Legacy.Blockchain.is_chain_valid Sample.render Sample.legacy_mined = true /\
  Legacy.Blockchain.is_chain_valid Sample.render
    (replace_block Sample.legacy_mined 1
       (with_nonce Sample.legacy_block1 (Legacy.Block.nonce Sample.legacy_block1 + 1)))
  = false.
Proof.
  assert (Hvalid : Legacy.Blockchain.is_chain_valid Sample.render Sample.legacy_mined = true)
    by (vm_compute; reflexivity).
  split; [exact Hvalid|].
  apply (proj1 (proj2 (proj2 (is_chain_valid_checks_all_but_first Sample.render)))
           Sample.legacy_mined 1%nat Sample.legacy_block1); [exact Hvalid|lia| |].
  - vm_compute. reflexivity.
  - left. split; [apply with_nonce_hash|]. vm_compute. discriminate.
Defined.

(** C9, as the claim has it, fails on the genesis block: on a new ledger,
    whatever the JSON rendering, the genesis block with another nonce is a
    different stored block and the chain is still valid. *)
Lemma genesis_mutation_counterexample :
  (forall json_dumps : json -> string,
     let s := Legacy.Blockchain.init json_dumps 2 1704067200000000 in
     let g := Legacy.Block.new json_dumps 0 [] (zeros 64) 1704067200000000 in
     Legacy.Blockchain.chain s = [g] /\
     with_nonce g 1 <> g /\
     Legacy.Blockchain.is_chain_valid json_dumps s = true /\
     Legacy.Blockchain.is_chain_valid json_dumps (replace_block s 0 (with_nonce g 1)) = true)
  /\ Legacy.Blockchain.is_chain_valid Sample.render
       (replace_block Sample.legacy_mined 0 (with_nonce Sample.legacy_genesis 1)) = true.
Proof.
  split.
  - intros json_dumps s g. repeat split. intros H.
    apply (f_equal Legacy.Block.nonce) in H. discriminate.
  - vm_compute. reflexivity.
Qed.

(** * Further properties *)

(** ** Balances and the entries of the UTXO set *)

Lemma get_balance_weighted (u : UTXOSet.t) (address : string) :
  UTXOSet.get_balance u address = weighted_sum (credit address) u.
Proof.
  unfold UTXOSet.get_balance, weighted_sum.
  rewrite !map_fold_foldr.
  induction (map_to_list (UTXOSet.utxos u)) as [|[k o] l IH]; [done|].
  simpl. rewrite IH. unfold credit. case_bool_decide; lia.
Qed.

Lemma weighted_sum_remove (w : TransactionOutput.t -> Z) (u : UTXOSet.t)
    (txid : string) (i : Z) :
  weighted_sum w (UTXOSet.remove_utxo u txid i)
  = weighted_sum w u - from_option w 0 (UTXOSet.get_utxo u txid i).
Proof.
  unfold weighted_sum, UTXOSet.remove_utxo, UTXOSet.get_utxo. simpl.
  destruct (UTXOSet.utxos u !! (txid, i)) as [o|] eqn:Hk; simpl.
  - rewrite (map_fold_delete_L _ 0 (txid, i) o (UTXOSet.utxos u)); [lia| |done].
    intros. lia.
  - rewrite delete_id by done. lia.
Qed.

Lemma weighted_sum_add (w : TransactionOutput.t -> Z) (u : UTXOSet.t)
    (txid : string) (i : Z) (o : TransactionOutput.t) :
  weighted_sum w (UTXOSet.add_utxo u txid i o)
  = weighted_sum w u - from_option w 0 (UTXOSet.get_utxo u txid i) + w o.
Proof.
  rewrite <- weighted_sum_remove.
  unfold weighted_sum, UTXOSet.add_utxo, UTXOSet.remove_utxo. simpl.
  rewrite <- (insert_delete_eq (UTXOSet.utxos u)).
  rewrite map_fold_insert_L; [lia| |apply lookup_delete_eq].
  intros. lia.
Qed.

Lemma remove_inputs_lookup (inputs : list TransactionInput.t) (u : UTXOSet.t)
    (k : string * Z) :
  UTXOSet.utxos
    (foldl (fun u tx_input =>
              UTXOSet.remove_utxo u (TransactionInput.txid tx_input)
                (TransactionInput.output_index tx_input)) u inputs) !! k
  = if bool_decide
         (k ∈ (fun i => (TransactionInput.txid i, TransactionInput.output_index i)) <$> inputs)
    then None else UTXOSet.utxos u !! k.
Proof.
  revert u. induction inputs as [|x l IH]; intros u.
  - done.
  - simpl foldl. rewrite IH, fmap_cons. simpl UTXOSet.utxos.
    set (kx := (TransactionInput.txid x, TransactionInput.output_index x)).
    destruct (decide (k = kx)) as [->|Hne].
    + rewrite lookup_delete_eq.
      rewrite (bool_decide_eq_true_2 (kx ∈ kx :: _)) by (by left).
      by case_bool_decide.
    + rewrite lookup_delete_ne by done.
      repeat case_bool_decide; try done.
      * exfalso. match goal with H : ¬ _ |- _ => apply H end. by right.
      * exfalso. match goal with H : _ ∈ _ :: _ |- _ => apply elem_of_cons in H as [?|?] end; done.
Qed.

Lemma add_outputs_lookup_ne (txid : string) (ios : list (Z * TransactionOutput.t))
    (u : UTXOSet.t) (k : string * Z) :
  k ∉ (fun io => (txid, fst io)) <$> ios ->
  UTXOSet.utxos (foldl (fun u io => UTXOSet.add_utxo u txid (fst io) (snd io)) u ios) !! k
  = UTXOSet.utxos u !! k.
Proof.
  revert u. induction ios as [|x l IH]; intros u Hk; simpl; [done|].
  rewrite fmap_cons, not_elem_of_cons in Hk. destruct Hk as [Hne Hk].
  rewrite IH by done. simpl. by apply lookup_insert_ne.
Qed.

Lemma add_outputs_lookup (txid : string) (ios : list (Z * TransactionOutput.t))
    (u : UTXOSet.t) (i : Z) (o : TransactionOutput.t) :
  NoDup (fst <$> ios) -> (i, o) ∈ ios ->
  UTXOSet.utxos (foldl (fun u io => UTXOSet.add_utxo u txid (fst io) (snd io)) u ios)
    !! (txid, i) = Some o.
Proof.
  revert u. induction ios as [|x l IH]; intros u Hnd Hin; simpl.
  - by apply elem_of_nil in Hin.
  - rewrite fmap_cons in Hnd. apply NoDup_cons in Hnd as [Hx Hnd].
    apply elem_of_cons in Hin as [<-|Hin].
    + rewrite add_outputs_lookup_ne.
      * simpl. apply lookup_insert_eq.
      * intros Hin. apply Hx. simpl.
        apply list_elem_of_fmap in Hin as (io & Heq & Hio).
        apply list_elem_of_fmap. exists io. split; [congruence|done].
    + by apply IH.
Qed.

Lemma enumerate_lookup {A} (l : list A) (n : nat) :
  enumerate l !! n = (fun x => (Z.of_nat n, x)) <$> l !! n.
Proof. exact (list_lookup_imap (fun i x => (Z.of_nat i, x)) l n). Qed.

Lemma elem_of_enumerate {A} (l : list A) (i : Z) (x : A) :
  (i, x) ∈ enumerate l <-> exists n : nat, i = Z.of_nat n /\ l !! n = Some x.
Proof.
  rewrite list_elem_of_lookup. split.
  - intros (n & Hn). rewrite enumerate_lookup in Hn.
    destruct (l !! n) as [y|] eqn:Hl; [|done]. simpl in Hn.
    exists n. inversion Hn; by subst.
  - intros (n & -> & Hl). exists n. by rewrite enumerate_lookup, Hl.
Qed.

Lemma enumerate_fst {A} (l : list A) :
  fst <$> enumerate l = Z.of_nat <$> seq 0 (length l).
Proof.
  apply list_eq. intros n.
  rewrite !list_lookup_fmap, enumerate_lookup.
  destruct (l !! n) as [x|] eqn:Hl; simpl.
  - rewrite lookup_seq_lt by (by eapply lookup_lt_Some). done.
  - rewrite lookup_seq_ge by (by apply lookup_ge_None). done.
Qed.

Lemma enumerate_NoDup {A} (l : list A) : NoDup (fst <$> enumerate l).
Proof.
  rewrite enumerate_fst. apply NoDup_fmap_2; [|apply NoDup_seq].
  intros a b. lia.
Qed.

Lemma elem_of_output_keys (tx : Transaction.t) (txid : string) (i : Z) :
  (txid, i) ∈ output_keys tx
  <-> txid = Transaction.txid tx /\ 0 <= i < Z.of_nat (length (Transaction.outputs tx)).
Proof.
  unfold output_keys. rewrite list_elem_of_fmap. split.
  - intros ([j o] & Heq & Hin). simpl in Heq. inversion Heq; subst.
    apply elem_of_enumerate in Hin as (n & -> & Hn).
    apply lookup_lt_Some in Hn. split; [done|lia].
  - intros [-> Hi].
    destruct (lookup_lt_is_Some_2 (Transaction.outputs tx) (Z.to_nat i)) as [o Ho]; [lia|].
    exists (i, o). split; [done|].
    apply elem_of_enumerate. exists (Z.to_nat i). split; [lia|done].
Qed.

Lemma apply_transaction_lookup_output (u : UTXOSet.t) (tx : Transaction.t)
    (n : nat) (o : TransactionOutput.t) :
  Transaction.outputs tx !! n = Some o ->
  UTXOSet.get_utxo (UTXOSet.apply_transaction u tx) (Transaction.txid tx) (Z.of_nat n)
  = Some o.
Proof.
  unfold UTXOSet.apply_transaction, UTXOSet.get_utxo.
  intros Hn. apply add_outputs_lookup; [apply enumerate_NoDup|].
  apply elem_of_enumerate. by exists n.
Qed.

Lemma apply_transaction_lookup_other (u : UTXOSet.t) (tx : Transaction.t)
    (txid : string) (i : Z) :
  (txid, i) ∉ output_keys tx ->
  UTXOSet.get_utxo (UTXOSet.apply_transaction u tx) txid i
  = if bool_decide ((txid, i) ∈ input_keys tx) then None
    else UTXOSet.get_utxo u txid i.
Proof.
  unfold UTXOSet.apply_transaction, UTXOSet.get_utxo.
  intros Hout. rewrite add_outputs_lookup_ne by exact Hout.
  apply remove_inputs_lookup.
Qed.

(** X1. What [apply_transaction] does to the entries of the set: every output
    of the transaction is filed under the transaction's id and its position;
    a key the transaction spends, and does not file an output under, is gone;
    every other key keeps its entry. *)
Theorem apply_transaction_entries (u : UTXOSet.t) (tx : Transaction.t) :
  (forall (n : nat) (o : TransactionOutput.t),
     Transaction.outputs tx !! n = Some o ->
     UTXOSet.get_utxo (UTXOSet.apply_transaction u tx) (Transaction.txid tx) (Z.of_nat n)
     = Some o) /\
  (forall (txid : string) (i : Z),
     (txid, i) ∉ output_keys tx ->
     UTXOSet.get_utxo (UTXOSet.apply_transaction u tx) txid i
     = if bool_decide ((txid, i) ∈ input_keys tx) then None
       else UTXOSet.get_utxo u txid i).
Proof.
  split.
  - apply apply_transaction_lookup_output.
  - apply apply_transaction_lookup_other.
Qed.

(** X2. The effect of the two primitive updates on a balance: adding an
    output under a key raises the balance of an address by what the output
    is worth to it, less what the entry it overwrites (if any) was worth;
    removing a key lowers it by what the entry was worth, and removing a
    key that is not in the set changes nothing. *)
Theorem get_balance_add_remove (u : UTXOSet.t) (txid : string) (i : Z)
    (o : TransactionOutput.t) (address : string) :
  UTXOSet.get_balance (UTXOSet.add_utxo u txid i o) address
  = UTXOSet.get_balance u address
    - from_option (credit address) 0 (UTXOSet.get_utxo u txid i) + credit address o /\
  UTXOSet.get_balance (UTXOSet.remove_utxo u txid i) address
  = UTXOSet.get_balance u address
    - from_option (credit address) 0 (UTXOSet.get_utxo u txid i) /\
  (UTXOSet.get_utxo u txid i = None -> UTXOSet.remove_utxo u txid i = u).
Proof.
  rewrite !get_balance_weighted, weighted_sum_add, weighted_sum_remove.
  split; [done|]. split; [done|].
  unfold UTXOSet.get_utxo, UTXOSet.remove_utxo. intros Hnone.
  destruct u as [m]. simpl in *. by rewrite delete_id.
Qed.

Lemma omap_step {A B} (f : A -> option B) (x : A) (l : list A) :
  omap f (x :: l) = match f x with Some y => y :: omap f l | None => omap f l end.
Proof. reflexivity. Qed.

Lemma omap_lookup_delete (m : gmap (string * Z) TransactionOutput.t)
    (k : string * Z) (ks : list (string * Z)) :
  k ∉ ks ->
  omap (fun key => delete k m !! key) ks = omap (fun key => m !! key) ks.
Proof.
  induction ks as [|k' ks IH]; intros Hk; [done|].
  apply not_elem_of_cons in Hk as [Hne Hk].
  specialize (IH Hk). simpl. rewrite lookup_delete_ne by done.
  destruct (m !! k'); simpl; [f_equal|]; exact IH.
Qed.

Lemma weighted_sum_remove_inputs (w : TransactionOutput.t -> Z)
    (inputs : list TransactionInput.t) (u : UTXOSet.t) :
  let keys := (fun i => (TransactionInput.txid i, TransactionInput.output_index i)) <$> inputs in
  NoDup keys ->
  weighted_sum w
    (foldl (fun u tx_input =>
              UTXOSet.remove_utxo u (TransactionInput.txid tx_input)
                (TransactionInput.output_index tx_input)) u inputs)
  = weighted_sum w u - sum (w <$> omap (fun key => UTXOSet.utxos u !! key) keys).
Proof.
  revert u. induction inputs as [|x l IH]; intros u keys Hnd.
  - simpl. unfold sum. simpl. lia.
  - subst keys. rewrite fmap_cons in Hnd. apply NoDup_cons in Hnd as [Hx Hnd].
    simpl foldl. rewrite IH by done. rewrite weighted_sum_remove.
    rewrite fmap_cons, omap_step. unfold UTXOSet.get_utxo.
    set (kx := (TransactionInput.txid x, TransactionInput.output_index x)) in *.
    unfold UTXOSet.remove_utxo. simpl UTXOSet.utxos. fold kx.
    rewrite omap_lookup_delete by exact Hx.
    destruct (UTXOSet.utxos u !! kx) as [o|]; simpl from_option.
    + rewrite fmap_cons, sum_cons. lia.
    + lia.
Qed.

Lemma weighted_sum_add_outputs (w : TransactionOutput.t -> Z) (txid : string)
    (ios : list (Z * TransactionOutput.t)) (u : UTXOSet.t) :
  NoDup (fst <$> ios) ->
  (forall io, io ∈ ios -> UTXOSet.utxos u !! (txid, fst io) = None) ->
  weighted_sum w (foldl (fun u io => UTXOSet.add_utxo u txid (fst io) (snd io)) u ios)
  = weighted_sum w u + sum (w <$> (snd <$> ios)).
Proof.
  revert u. induction ios as [|x l IH]; intros u Hnd Hfresh.
  - simpl. unfold sum. simpl. lia.
  - rewrite fmap_cons in Hnd. apply NoDup_cons in Hnd as [Hx Hnd].
    simpl foldl. rewrite IH; [|done|].
    + rewrite weighted_sum_add. unfold UTXOSet.get_utxo.
      rewrite (Hfresh x) by (by left). simpl from_option.
      rewrite !fmap_cons, sum_cons. lia.
    + intros io Hio. simpl. rewrite lookup_insert_ne.
      * apply Hfresh. by right.
      * intros Heq. apply Hx. inversion Heq as [Hfst]. rewrite Hfst.
        apply list_elem_of_fmap. by exists io.
Qed.

Lemma enumerate_snd {A} (l : list A) : snd <$> enumerate l = l.
Proof.
  apply list_eq. intros n. rewrite list_lookup_fmap, enumerate_lookup.
  by destruct (l !! n).
Qed.

Lemma weighted_sum_apply_transaction (w : TransactionOutput.t -> Z)
    (u : UTXOSet.t) (tx : Transaction.t) :
  NoDup (input_keys tx) ->
  (forall k, k ∈ output_keys tx -> k ∉ input_keys tx -> UTXOSet.utxos u !! k = None) ->
  weighted_sum w (UTXOSet.apply_transaction u tx)
  = weighted_sum w u - sum (w <$> spent_outputs u tx)
    + sum (w <$> Transaction.outputs tx).
Proof.
  intros Hnd Hfresh. unfold UTXOSet.apply_transaction.
  rewrite weighted_sum_add_outputs.
  - rewrite weighted_sum_remove_inputs by exact Hnd.
    rewrite enumerate_snd. reflexivity.
  - apply enumerate_NoDup.
  - intros io Hio. rewrite remove_inputs_lookup. case_bool_decide as Hin; [done|].
    apply Hfresh; [|exact Hin].
    unfold output_keys. apply list_elem_of_fmap. by exists io.
Qed.

(** X3. The effect of [apply_transaction] on a balance.  For a transaction
    whose inputs are pairwise distinct and whose output keys are not in the
    set already (unless it spends them itself), the balance of an address
    falls by what the spent entries were worth to it and rises by what the
    new outputs are worth to it. *)
Theorem apply_transaction_balance (u : UTXOSet.t) (tx : Transaction.t)
    (address : string) :
  NoDup (input_keys tx) ->
  (forall k, k ∈ output_keys tx -> k ∉ input_keys tx -> UTXOSet.utxos u !! k = None) ->
  UTXOSet.get_balance (UTXOSet.apply_transaction u tx) address
  = UTXOSet.get_balance u address
    - sum (credit address <$> spent_outputs u tx)
    + sum (credit address <$> Transaction.outputs tx).
Proof.
  intros Hnd Hfresh. rewrite !get_balance_weighted.
  by apply weighted_sum_apply_transaction.
Qed.

(** [tx_pay] applied after [block1]: it spends the 50 of [alice] and pays
    20 to [bob]. *)
Lemma apply_transaction_balance_witness :
  UTXOSet.get_balance
    (UTXOSet.apply_transaction (Sample.replay [Sample.genesis; Sample.block1]) Sample.tx_pay)
    "bob"
  = UTXOSet.get_balance (Sample.replay [Sample.genesis; Sample.block1]) "bob"
    - sum (credit "bob" <$> spent_outputs (Sample.replay [Sample.genesis; Sample.block1])
                              Sample.tx_pay)
    + sum (credit "bob" <$> Transaction.outputs Sample.tx_pay).
Proof.
  apply (apply_transaction_balance (Sample.replay [Sample.genesis; Sample.block1])
           Sample.tx_pay "bob").
  - apply NoDup_singleton.
  - intros [txid i] Hk _. apply elem_of_output_keys in Hk as [-> Hi].
    simpl in Hi.
    assert (i = 0 \/ i = 1) as [-> | ->] by lia; vm_compute; reflexivity.
Defined.

Lemma validate_transaction_true (u : UTXOSet.t) (tx : Transaction.t) (v : Z) :
  UTXOSet.validate_transaction u tx = (true, v) ->
  Transaction.inputs tx <> [] ->
  NoDup (input_keys tx) /\
  (forall k, k ∈ input_keys tx -> is_Some (UTXOSet.utxos u !! k)) /\
  v = sum (input_values u tx) /\
  sum (output_values tx) <= v.
Proof.
  unfold UTXOSet.validate_transaction, Transaction.is_coinbase.
  intros Hv Hne.
  destruct (Transaction.inputs tx) as [|i0 rest] eqn:Hin; [congruence|].
  rewrite <- Hin in Hv.
  destruct (decide (NoDup (input_keys tx))) as [Hnd|Hnd].
  2:{ rewrite validate_inputs_bad in Hv; [done|]. by left. }
  destruct (decide (Forall (fun k => is_Some (UTXOSet.utxos u !! k)) (input_keys tx)))
    as [Hall|Hall].
  2:{ apply not_Forall_Exists in Hall; [|solve_decision].
      apply Exists_exists in Hall as (k & Hk & Hnone).
      rewrite validate_inputs_bad in Hv; [done|].
      right. right. exists k. split; [done|].
      unfold compose in Hnone. by apply eq_None_not_Some. }
  rewrite Forall_forall in Hall.
  rewrite (validate_inputs_ok u tx (Transaction.inputs tx) ∅ 0 Hnd) in Hv; [| |done].
  2:{ intros k _. apply not_elem_of_empty. }
  fold (input_keys tx) in Hv. fold (input_values u tx) in Hv.
  rewrite Z.add_0_l in Hv.
  destruct (Z.ltb_spec (sum (input_values u tx)) (sum (output_values tx))); [done|].
  inversion Hv. subst v. done.
Qed.

Lemma spent_outputs_values (u : UTXOSet.t) (tx : Transaction.t) :
  (forall k, k ∈ input_keys tx -> is_Some (UTXOSet.utxos u !! k)) ->
  TransactionOutput.value <$> spent_outputs u tx = input_values u tx.
Proof.
  unfold spent_outputs, input_values.
  induction (input_keys tx) as [|k ks IH]; intros Hall; [done|].
  destruct (Hall k ltac:(left)) as [o Ho].
  simpl. rewrite Ho. simpl. f_equal. apply IH. intros k' Hk'. apply Hall. by right.
Qed.

(** X4. Value is conserved up to the fee.  When [validate_transaction]
    accepts a transaction with inputs, reporting input value [v], then [v] is
    the sum of the values of the entries the transaction spends, the fee
    [calculate_fee] computes from them is [v] less the output values and is
    not negative, and [apply_transaction] lowers the total value held in the
    set by exactly that fee (given that the transaction's output keys are not
    in the set already). *)
Theorem validated_transaction_burns_fee (u : UTXOSet.t) (tx : Transaction.t) (v : Z) :
  UTXOSet.validate_transaction u tx = (true, v) ->
  Transaction.inputs tx <> [] ->
  (forall k, k ∈ output_keys tx -> k ∉ input_keys tx -> UTXOSet.utxos u !! k = None) ->
  let fee := Transaction.calculate_fee tx (input_values u tx) in
  fee = v - sum (output_values tx) /\ 0 <= fee /\
  total_value (UTXOSet.apply_transaction u tx) = total_value u - fee.
Proof.
  intros Hv Hne Hfresh fee.
  destruct (validate_transaction_true u tx v Hv Hne) as (Hnd & Hall & -> & Hle).
  subst fee. unfold Transaction.calculate_fee, total_value.
  fold (output_values tx).
  rewrite weighted_sum_apply_transaction by done.
  rewrite spent_outputs_values by done.
  fold (output_values tx). lia.
Qed.

(** [tx_fee] spends 50 and pays out 45. *)
Lemma validated_transaction_burns_fee_witness :
  let u := Sample.replay [Sample.genesis; Sample.block1] in
  let fee := Transaction.calculate_fee Cases.tx_fee (input_values u Cases.tx_fee) in
  fee = 50 - sum (output_values Cases.tx_fee) /\ 0 <= fee /\
  total_value (UTXOSet.apply_transaction u Cases.tx_fee) = total_value u - fee.
Proof.
  apply (validated_transaction_burns_fee
           (Sample.replay [Sample.genesis; Sample.block1]) Cases.tx_fee 50).
  - vm_compute. reflexivity.
  - discriminate.
  - intros [txid i] Hk _. apply elem_of_output_keys in Hk as [-> Hi].
    simpl in Hi. assert (i = 0) as -> by lia. vm_compute. reflexivity.
Defined.

(** X5. No output is spent twice.  Once a transaction has been applied, every
    transaction that refers to one of the entries it spent is refused by
    [validate_transaction] (the one exception being a key under which the
    applied transaction filed an output of its own). *)
Theorem spent_output_is_refused (u : UTXOSet.t) (tx1 tx2 : Transaction.t)
    (k : string * Z) :
  k ∈ input_keys tx1 -> k ∈ input_keys tx2 -> k ∉ output_keys tx1 ->
  UTXOSet.validate_transaction (UTXOSet.apply_transaction u tx1) tx2 = (false, 0).
Proof.
  intros H1 H2 Hout.
  unfold UTXOSet.validate_transaction, Transaction.is_coinbase.
  destruct (Transaction.inputs tx2) as [|i0 rest] eqn:Hin.
  { unfold input_keys in H2. rewrite Hin in H2. by apply elem_of_nil in H2. }
  rewrite <- Hin. apply validate_inputs_bad. right. right.
  exists k. split; [exact H2|].
  destruct k as [txid i].
  pose proof (apply_transaction_lookup_other u tx1 txid i Hout) as Hk.
  rewrite bool_decide_eq_true_2 in Hk by exact H1. exact Hk.
Qed.

(** [tx_pay_again] spends what [tx_pay] has spent. *)
Lemma spent_output_is_refused_witness :
  UTXOSet.validate_transaction
    (UTXOSet.apply_transaction (Sample.replay [Sample.genesis; Sample.block1]) Sample.tx_pay)
    Sample.tx_pay_again
  = (false, 0).
Proof.
  apply (spent_output_is_refused (Sample.replay [Sample.genesis; Sample.block1])
           Sample.tx_pay Sample.tx_pay_again (Transaction.txid Sample.cb1, 0)).
  - apply list_elem_of_singleton. reflexivity.
  - apply list_elem_of_singleton. reflexivity.
  - intros [H _]%elem_of_output_keys. vm_compute in H. discriminate H.
Defined.

(** X6. The outputs of a transaction can be spent as soon as it has been
    applied, whatever the set held before: a transaction whose pairwise
    distinct inputs all refer to outputs of the applied one, and whose
    outputs do not exceed their values, is accepted. *)
Theorem created_outputs_are_spendable (u : UTXOSet.t) (tx1 tx2 : Transaction.t) :
  Transaction.inputs tx2 <> [] ->
  NoDup (input_keys tx2) ->
  (forall k, k ∈ input_keys tx2 -> k ∈ output_keys tx1) ->
  let u' := UTXOSet.apply_transaction u tx1 in
  sum (output_values tx2) <= sum (input_values u' tx2) ->
  UTXOSet.validate_transaction u' tx2 = (true, sum (input_values u' tx2)) /\
  (forall tx_input, tx_input ∈ Transaction.inputs tx2 ->
     UTXOSet.get_utxo u' (TransactionInput.txid tx_input)
                      (TransactionInput.output_index tx_input)
     = Transaction.outputs tx1 !! Z.to_nat (TransactionInput.output_index tx_input)).
Proof.
  intros Hne Hnd Hall u' Hle.
  assert (Hget : forall k, k ∈ output_keys tx1 ->
            UTXOSet.utxos u' !! k = Transaction.outputs tx1 !! Z.to_nat (snd k) /\
            is_Some (UTXOSet.utxos u' !! k)).
  { intros [txid i] Hk. apply elem_of_output_keys in Hk as [-> Hi].
    destruct (lookup_lt_is_Some_2 (Transaction.outputs tx1) (Z.to_nat i)) as [o Ho]; [lia|].
    pose proof (apply_transaction_lookup_output u tx1 (Z.to_nat i) o Ho) as Hk.
    rewrite Z2Nat.id in Hk by lia. unfold UTXOSet.get_utxo in Hk. fold u' in Hk.
    simpl. rewrite Hk, Ho. split; [done|by eexists]. }
  split.
  - unfold UTXOSet.validate_transaction, Transaction.is_coinbase.
    destruct (Transaction.inputs tx2) as [|i0 rest] eqn:Hin; [congruence|].
    rewrite <- Hin.
    rewrite (validate_inputs_ok u' tx2 (Transaction.inputs tx2) ∅ 0 Hnd).
    + fold (input_keys tx2). fold (input_values u' tx2). rewrite Z.add_0_l.
      destruct (Z.ltb_spec (sum (input_values u' tx2)) (sum (output_values tx2))); [lia|done].
    + intros k _. apply not_elem_of_empty.
    + intros k Hk. apply Hget, Hall, Hk.
  - intros tx_input Hin. unfold UTXOSet.get_utxo.
    apply (Hget (TransactionInput.txid tx_input, TransactionInput.output_index tx_input)).
    apply Hall. unfold input_keys. apply list_elem_of_fmap. by exists tx_input.
Qed.

(** [tx_pay] spends the output of [cb1], on a set that held nothing
    before [cb1]. *)
Lemma created_outputs_are_spendable_witness :
  UTXOSet.validate_transaction (UTXOSet.apply_transaction UTXOSet.empty Sample.cb1)
    Sample.tx_pay
  = (true, sum (input_values (UTXOSet.apply_transaction UTXOSet.empty Sample.cb1)
                             Sample.tx_pay)).
Proof.
  apply (created_outputs_are_spendable UTXOSet.empty Sample.cb1 Sample.tx_pay).
  - discriminate.
  - apply NoDup_singleton.
  - intros k Hk. apply list_elem_of_singleton in Hk as ->.
    apply elem_of_output_keys. split; [reflexivity|]. simpl. lia.
  - vm_compute. discriminate.
Defined.

(** X7. [get_utxos_for_address] lists exactly the entries of the set that
    pay the address, each once, and their values add up to what
    [get_balance] reports for the address. *)
Theorem get_utxos_for_address_spec (u : UTXOSet.t) (address : string) :
  (forall txid i o,
     (txid, i, o) ∈ UTXOSet.get_utxos_for_address u address
     <-> UTXOSet.get_utxo u txid i = Some o /\ TransactionOutput.recipient o = address) /\
  NoDup (UTXOSet.get_utxos_for_address u address) /\
  sum ((fun e => TransactionOutput.value (snd e)) <$> UTXOSet.get_utxos_for_address u address)
  = UTXOSet.get_balance u address.
Proof.
  unfold UTXOSet.get_utxos_for_address, UTXOSet.get_utxo. split; [|split].
  - intros txid i o. rewrite list_elem_of_omap. split.
    + intros ([[t j] o'] & Hin & Hsome). simpl in Hsome.
      case_bool_decide as Hr; [|done]. inversion Hsome; subst.
      by apply elem_of_map_to_list in Hin.
    + intros [Hlook Hr]. exists (txid, i, o). split.
      * by apply elem_of_map_to_list.
      * simpl. by rewrite bool_decide_eq_true_2.
  - pose proof (NoDup_map_to_list (UTXOSet.utxos u)) as Hnd.
    induction Hnd as [|kv l Hkv Hnd IH]; [constructor|].
    rewrite omap_step. case_bool_decide as Hr; [|exact IH].
    constructor; [|exact IH].
    intros Hin. apply list_elem_of_omap in Hin as (kv' & Hin & Hsome).
    case_bool_decide; [|done].
    destruct kv as [[? ?] ?], kv' as [[? ?] ?]. simpl in Hsome.
    inversion Hsome; subst. by apply Hkv.
  - rewrite get_balance_weighted. unfold weighted_sum. rewrite map_fold_foldr.
    induction (map_to_list (UTXOSet.utxos u)) as [|[k o] l IH]; [done|].
    rewrite omap_step. simpl foldr. rewrite <- IH. simpl snd.
    unfold credit. case_bool_decide.
    + rewrite fmap_cons, sum_cons. simpl. lia.
    + lia.
Qed.

(** ** The Merkle tree *)

Lemma hash_pairs_app (l1 l2 n1 : list string) :
  Block.hash_pairs l1 = Some n1 ->
  Block.hash_pairs (l1 ++ l2) = (fun n2 => n1 ++ n2) <$> Block.hash_pairs l2.
Proof.
  revert n1. induction l1 as [| a | a b l IH] using list_pair_ind; intros n1 H.
  - injection H as <-. simpl. by destruct (Block.hash_pairs l2).
  - done.
  - simpl in H. destruct (Block.hash_pairs l) as [n|] eqn:Hn; [|done].
    injection H as <-. simpl. rewrite (IH n eq_refl).
    by destruct (Block.hash_pairs l2).
Qed.

Lemma merkle_loop_more_fuel (fuel fuel' : nat) (hashes : list string) (root : string) :
  Block.merkle_loop fuel hashes = Some root -> (fuel <= fuel')%nat ->
  Block.merkle_loop fuel' hashes = Some root.
Proof.
  revert fuel' hashes. induction fuel as [|fuel IH]; intros fuel' hashes H Hle.
  - simpl in H. case_bool_decide as Hlen; [|done].
    destruct fuel'; simpl; by rewrite bool_decide_eq_true_2.
  - destruct fuel' as [|fuel']; [lia|]. simpl in H |- *.
    case_bool_decide as Hlen; [done|].
    destruct (Block.hash_pairs hashes) as [new_hashes|]; [|done]. simpl in H |- *.
    apply (IH fuel'); [done|lia].
Qed.

Lemma pow2_S (k : nat) : (2 ^ S k = 2 ^ k + 2 ^ k)%nat.
Proof. simpl. lia. Qed.

Lemma pow2_even (k : nat) : Nat.even (2 ^ S k) = true.
Proof.
  rewrite pow2_S. replace (2 ^ k + 2 ^ k)%nat with (2 * 2 ^ k)%nat by lia.
  by rewrite Nat.even_mul.
Qed.

Lemma pow2_pos (k : nat) : (1 <= 2 ^ k)%nat.
Proof. induction k; simpl; lia. Qed.

Lemma pad_odd_pow2 (k : nat) (hashes : list string) :
  length hashes = (2 ^ k)%nat ->
  Block.pad_odd (bool_decide (1 < length hashes)%nat) hashes = hashes.
Proof.
  intros Hlen. unfold Block.pad_odd. destruct k as [|k].
  - rewrite Hlen. done.
  - by rewrite Hlen, pow2_even, andb_false_r.
Qed.

Lemma merkle_loop_halves (k : nat) :
  forall l1 l2 : list string,
  length l1 = (2 ^ k)%nat -> length l2 = (2 ^ k)%nat ->
  exists r1 r2,
    Block.merkle_loop k l1 = Some r1 /\ Block.merkle_loop k l2 = Some r2 /\
    Block.merkle_loop (S k) (l1 ++ l2) = Some (sha256 (r1 +:+ r2)).
Proof.
  induction k as [|k IH]; intros l1 l2 H1 H2.
  - destruct l1 as [|a [|? ?]]; try done. destruct l2 as [|b [|? ?]]; try done.
    exists a, b. done.
  - assert (He1 : Nat.even (length l1) = true) by (rewrite H1; apply pow2_even).
    assert (He2 : Nat.even (length l2) = true) by (rewrite H2; apply pow2_even).
    destruct (hash_pairs_even l1 He1) as (n1 & Hn1 & Hlen1).
    destruct (hash_pairs_even l2 He2) as (n2 & Hn2 & Hlen2).
    rewrite H1, pow2_S in Hlen1. rewrite H2, pow2_S in Hlen2.
    assert (Hl1 : length n1 = (2 ^ k)%nat) by lia.
    assert (Hl2 : length n2 = (2 ^ k)%nat) by lia.
    destruct (IH n1 n2 Hl1 Hl2) as (r1 & r2 & Hr1 & Hr2 & Hr).
    pose proof (pow2_pos k) as Hpos.
    assert (Hone : forall l n r, length l = (2 ^ S k)%nat -> length n = (2 ^ k)%nat ->
                     Block.hash_pairs l = Some n -> Block.merkle_loop k n = Some r ->
                     Block.merkle_loop (S k) l = Some r).
    { intros l n r Hl Hn Hp Hm. simpl Block.merkle_loop.
      rewrite bool_decide_eq_false_2. 2:{ rewrite Hl, pow2_S. lia. }
      rewrite Hp. simpl.
      rewrite (pad_odd_pow2 k) by done. exact Hm. }
    exists r1, r2. split; [by apply (Hone l1 n1)|]. split; [by apply (Hone l2 n2)|].
    change (Block.merkle_loop (S (S k)) (l1 ++ l2)) with
      (if bool_decide (length (l1 ++ l2) <= 1)%nat
       then Some (match l1 ++ l2 with h :: _ => h | [] => EmptyString end)
       else new_hashes ← Block.hash_pairs (l1 ++ l2);
            Block.merkle_loop (S k)
              (Block.pad_odd (bool_decide (1 < length new_hashes)%nat) new_hashes)).
    rewrite bool_decide_eq_false_2 by (rewrite length_app, H1, pow2_S; lia).
    rewrite (hash_pairs_app l1 l2 n1 Hn1), Hn2. simpl fmap. simpl mbind.
    rewrite (pad_odd_pow2 (S k)).
    + exact Hr.
    + rewrite length_app, pow2_S. lia.
Qed.

Lemma merkle_root_of_pow2 (k : nat) (txids : list string) :
  length txids = (2 ^ S k)%nat ->
  Block.merkle_root_of txids = Block.merkle_loop (length txids) txids.
Proof.
  intros Hlen. unfold Block.merkle_root_of.
  destruct txids as [|a l]; [pose proof (pow2_pos (S k)); simpl length in Hlen; lia|].
  assert (Hpad : Block.pad_odd true (a :: l) = a :: l).
  { unfold Block.pad_odd. by rewrite Hlen, pow2_even. }
  by rewrite Hpad.
Qed.

Lemma pow2_gt (k : nat) : (k < 2 ^ k)%nat.
Proof. apply Nat.pow_gt_lin_r. lia. Qed.

(** X8. The Merkle root is that of a binary tree.  For two transaction lists
    of the same length, a power of two greater than one, the root of their
    concatenation is the hash of the two roots put side by side. *)
Theorem merkle_root_of_halves (k : nat) (txs1 txs2 : list Transaction.t) :
  length txs1 = (2 ^ S k)%nat -> length txs2 = (2 ^ S k)%nat ->
  exists r1 r2,
    Block.calculate_merkle_root txs1 = Some r1 /\
    Block.calculate_merkle_root txs2 = Some r2 /\
    Block.calculate_merkle_root (txs1 ++ txs2) = Some (sha256 (r1 +:+ r2)).
Proof.
  intros H1 H2. unfold Block.calculate_merkle_root. rewrite fmap_app.
  set (l1 := Transaction.txid <$> txs1). set (l2 := Transaction.txid <$> txs2).
  assert (Hl1 : length l1 = (2 ^ S k)%nat) by (subst l1; by rewrite length_fmap).
  assert (Hl2 : length l2 = (2 ^ S k)%nat) by (subst l2; by rewrite length_fmap).
  destruct (merkle_loop_halves (S k) l1 l2 Hl1 Hl2) as (r1 & r2 & Hr1 & Hr2 & Hr).
  pose proof (pow2_gt (S k)) as Hgt. pose proof (pow2_gt (S (S k))) as Hgt'.
  exists r1, r2. split; [|split].
  - rewrite (merkle_root_of_pow2 k) by done.
    apply (merkle_loop_more_fuel (S k)); [done|lia].
  - rewrite (merkle_root_of_pow2 k) by done.
    apply (merkle_loop_more_fuel (S k)); [done|lia].
  - rewrite (merkle_root_of_pow2 (S k)).
    + apply (merkle_loop_more_fuel (S (S k))); [done|].
      rewrite length_app, Hl1, Hl2. rewrite (pow2_S (S k)) in Hgt'. lia.
    + rewrite length_app, Hl1, Hl2, (pow2_S (S k)). lia.
Qed.

(** Two lists of two transactions. *)
Lemma merkle_root_of_halves_witness :
  exists r1 r2,
    Block.calculate_merkle_root [Sample.cb1; Sample.cb2] = Some r1 /\
    Block.calculate_merkle_root [Sample.tx_pay; Sample.tx_pay_again] = Some r2 /\
    Block.calculate_merkle_root
      ([Sample.cb1; Sample.cb2] ++ [Sample.tx_pay; Sample.tx_pay_again])
    = Some (sha256 (r1 +:+ r2)).
Proof.
  apply (merkle_root_of_halves 0 [Sample.cb1; Sample.cb2]
           [Sample.tx_pay; Sample.tx_pay_again]); reflexivity.
Defined.

(** ** Digests and proof of work *)

Lemma round_length (st : list Z) (kw : Z * Z) :
  length (SHA256.round st kw) = length st.
Proof.
  unfold SHA256.round.
  destruct st as [|a [|b [|c [|d [|e [|f [|g [|h [|i st]]]]]]]]]; reflexivity.
Qed.

Lemma fold_round_length (kws : list (Z * Z)) (st : list Z) :
  length (fold_left SHA256.round kws st) = length st.
Proof.
  revert st. induction kws as [|kw kws IH]; intros st; simpl; [done|].
  by rewrite IH, round_length.
Qed.

Lemma compress_length (h chunk : list Z) :
  length (SHA256.compress h chunk) = length h.
Proof.
  unfold SHA256.compress.
  rewrite length_map, length_combine, fold_round_length. lia.
Qed.

Lemma digest_length (msg : list Z) : length (SHA256.digest msg) = 8%nat.
Proof.
  unfold SHA256.digest.
  generalize (SHA256.chunks (length (SHA256.words_of_bytes (SHA256.pad msg)) / 16)
                            (SHA256.words_of_bytes (SHA256.pad msg))).
  assert (H : length SHA256.H0 = 8%nat) by reflexivity.
  revert H. generalize SHA256.H0.
  intros h Hh cs. revert h Hh. induction cs as [|c cs IH]; intros h Hh; simpl; [done|].
  apply IH. by rewrite compress_length.
Qed.

Lemma hex_of_length (n : nat) (x : Z) : length (SHA256.hex_of n x) = n.
Proof.
  revert x. induction n as [|n IH]; intros x; simpl; [done|].
  rewrite length_app, IH. simpl. lia.
Qed.

Lemma concat_hex_length (ws : list Z) :
  length (concat (List.map (SHA256.hex_of 8) ws)) = (8 * length ws)%nat.
Proof.
  induction ws as [|w ws IH]; [done|].
  cbn [List.map concat]. rewrite length_app, IH, hex_of_length. simpl length. lia.
Qed.

Lemma string_of_list_ascii_length (l : list ascii) :
  String.length (string_of_list_ascii l) = length l.
Proof. induction l as [|c l IH]; simpl; [done|]. by rewrite IH. Qed.

Lemma sha256_length (s : string) : String.length (sha256 s) = 64%nat.
Proof.
  unfold sha256, SHA256.hexdigest.
  rewrite string_of_list_ascii_length, concat_hex_length, digest_length. done.
Qed.

Lemma str_take_length (n : nat) (s : string) :
  (String.length (str_take n s) <= String.length s)%nat.
Proof.
  revert s. induction n as [|n IH]; intros s; destruct s as [|c s]; simpl; try lia.
  specialize (IH s). lia.
Qed.

Lemma zeros_length (n : nat) : String.length (zeros n) = n.
Proof. induction n as [|n IH]; simpl; [done|]. by rewrite IH. Qed.

Lemma target_out_of_reach (d : nat) (h : string) :
  (String.length h < d)%nat -> str_take d h <> zeros d.
Proof.
  intros Hlt Heq. pose proof (str_take_length d h) as Hle.
  rewrite Heq, zeros_length in Hle. lia.
Qed.

Lemma mine_out_of_reach (json_dumps : json -> string) (fuel : nat) (b : Block.t) :
  (64 < Block.difficulty b)%nat -> (String.length (Block.hash b) <= 64)%nat ->
  Block.mine json_dumps fuel b = None.
Proof.
  revert b. induction fuel as [|fuel IH]; intros b Hd Hh; simpl.
  - rewrite bool_decide_eq_true_2; [done|]. apply target_out_of_reach. lia.
  - rewrite bool_decide_eq_true_2 by (apply target_out_of_reach; lia).
    apply IH; simpl; [done|].
    unfold BlockHeader.calculate_hash. by rewrite sha256_length.
Qed.

(** X9. The two ends of the difficulty scale.  At difficulty 0 every hash
    meets the target: [mine] returns the block as it is, at once.  At a
    difficulty above 64, the length of a digest, no hash meets it: [mine]
    runs for ever on a freshly built block, and the constructor of
    [Blockchain], which mines the genesis block, never returns. *)
Theorem mine_difficulty_bounds (json_dumps : json -> string) (fuel : nat) :
  (forall b, Block.difficulty b = 0%nat -> Block.mine json_dumps fuel b = Some b) /\
  (forall index transactions previous_hash difficulty now loaded b,
     (64 < difficulty)%nat ->
     Block.new json_dumps index transactions previous_hash difficulty now loaded = Some b ->
     Block.mine json_dumps fuel b = None) /\
  (forall difficulty now loaded,
     (64 < difficulty)%nat ->
     Blockchain.init json_dumps fuel difficulty now loaded = None).
Proof.
  split; [|split].
  - intros b Hd. destruct fuel; simpl; by rewrite Hd.
  - intros index transactions previous_hash difficulty now loaded b Hd Hnew.
    unfold Block.new in Hnew.
    destruct (Block.calculate_merkle_root transactions) as [root|]; [|done].
    injection Hnew as <-. apply mine_out_of_reach; simpl; [done|].
    unfold BlockHeader.calculate_hash. by rewrite sha256_length.
  - intros difficulty now loaded Hd. unfold Blockchain.init, Block.new.
    destruct (Block.calculate_merkle_root []) as [root|]; [|done]. simpl.
    rewrite mine_out_of_reach; simpl; [done|done|].
    unfold BlockHeader.calculate_hash. by rewrite sha256_length.
Qed.

(** The header a block has once its nonce is [n]. *)
Lemma set_nonce_set_nonce (h : BlockHeader.t) (n m : Z) :
  BlockHeader.set_nonce (BlockHeader.set_nonce h n) m = BlockHeader.set_nonce h m.
Proof. reflexivity. Qed.

Lemma mine_search (json_dumps : json -> string) (fuel : nat) :
  forall b b' : Block.t,
  Block.mine json_dumps fuel b = Some b' ->
  (b' = b /\ str_take (Block.difficulty b) (Block.hash b) = zeros (Block.difficulty b)) \/
  (exists k : nat,
     (0 < k <= fuel)%nat /\
     Block.nonce b' = Block.nonce b + Z.of_nat k /\
     Block.header b' = BlockHeader.set_nonce (Block.header b) (Block.nonce b') /\
     Block.hash b' = BlockHeader.calculate_hash json_dumps (Block.header b') /\
     str_take (Block.difficulty b) (Block.hash b') = zeros (Block.difficulty b) /\
     str_take (Block.difficulty b) (Block.hash b) <> zeros (Block.difficulty b) /\
     forall j : nat, (0 < j < k)%nat ->
       str_take (Block.difficulty b)
         (BlockHeader.calculate_hash json_dumps
            (BlockHeader.set_nonce (Block.header b) (Block.nonce b + Z.of_nat j)))
       <> zeros (Block.difficulty b)).
Proof.
  induction fuel as [|fuel IH]; intros b b'; simpl.
  - case_bool_decide as H; [done|]. intros [= <-]. left. split; [done|].
    destruct (decide (str_take (Block.difficulty b) (Block.hash b) = zeros (Block.difficulty b)));
      [done|by destruct H].
  - case_bool_decide as H.
    2:{ intros [= <-]. left. split; [done|].
        destruct (decide (str_take (Block.difficulty b) (Block.hash b)
                          = zeros (Block.difficulty b))); [done|by destruct H]. }
    intros Hm. right. apply IH in Hm. simpl in Hm.
    destruct Hm as [[-> Hmeets]|(k & Hk & Hn & Hh & Hhash & Hmeets & Hnot & Hfirst)].
    + exists 1%nat. simpl. repeat split; try done; try lia; intros j Hj; lia.
    + exists (S k). rewrite Hn. repeat split; try done; try lia.
      * rewrite Hh, set_nonce_set_nonce, Hn. done.
      * intros j Hj. destruct j as [|[|j]]; [lia| |].
        -- exact Hnot.
        -- specialize (Hfirst (S j) ltac:(lia)).
           rewrite set_nonce_set_nonce in Hfirst.
           replace (Block.nonce b + Z.of_nat (S (S j)))
             with (Block.nonce b + 1 + Z.of_nat (S j)) by lia.
           exact Hfirst.
Qed.

Lemma mine_finds (json_dumps : json -> string) (k : nat) :
  forall (fuel : nat) (b : Block.t),
  (k <= fuel)%nat ->
  str_take (Block.difficulty b)
    (BlockHeader.calculate_hash json_dumps
       (BlockHeader.set_nonce (Block.header b) (Block.nonce b + Z.of_nat k)))
  = zeros (Block.difficulty b) ->
  (0 < k)%nat ->
  is_Some (Block.mine json_dumps fuel b).
Proof.
  induction k as [|k IH]; intros fuel b Hle Hmeets Hk; [lia|].
  destruct fuel as [|fuel]; [lia|]. simpl.
  case_bool_decide as H; [|by eexists].
  destruct k as [|k].
  - destruct fuel; simpl; rewrite bool_decide_eq_false_2; try (by eexists);
      intros Hne; apply Hne; exact Hmeets.
  - apply IH; [lia| |lia]. simpl. rewrite set_nonce_set_nonce.
    replace (Block.nonce b + 1 + Z.of_nat (S k))
      with (Block.nonce b + Z.of_nat (S (S k))) by lia.
    exact Hmeets.
Qed.

(** X10. [mine] searches the nonces upwards and stops at the first one whose
    header hash meets the target.  If the nonce [k] steps up meets it and
    the search is given at least [k] turns, it returns; and a block it
    returns after some turns carries a nonce whose hash meets the target,
    that hash, and a header with that nonce, while no nonce passed on the
    way (nor the hash the block started with) met the target. *)
Theorem mine_returns_first_nonce (json_dumps : json -> string) (fuel : nat)
    (b : Block.t) :
  (forall k : nat,
     (0 < k <= fuel)%nat ->
     str_take (Block.difficulty b)
       (BlockHeader.calculate_hash json_dumps
          (BlockHeader.set_nonce (Block.header b) (Block.nonce b + Z.of_nat k)))
     = zeros (Block.difficulty b) ->
     is_Some (Block.mine json_dumps fuel b)) /\
  (forall b' : Block.t,
     Block.mine json_dumps fuel b = Some b' -> b' <> b ->
     exists k : nat,
       (0 < k <= fuel)%nat /\
       Block.nonce b' = Block.nonce b + Z.of_nat k /\
       Block.header b' = BlockHeader.set_nonce (Block.header b) (Block.nonce b') /\
       Block.hash b' = BlockHeader.calculate_hash json_dumps (Block.header b') /\
       str_take (Block.difficulty b) (Block.hash b') = zeros (Block.difficulty b) /\
       str_take (Block.difficulty b) (Block.hash b) <> zeros (Block.difficulty b) /\
       forall j : nat, (0 < j < k)%nat ->
         str_take (Block.difficulty b)
           (BlockHeader.calculate_hash json_dumps
              (BlockHeader.set_nonce (Block.header b) (Block.nonce b + Z.of_nat j)))
         <> zeros (Block.difficulty b)).
Proof.
  split.
  - intros k [Hk Hle] Hmeets. by apply (mine_finds json_dumps k).
  - intros b' Hm Hne. apply mine_search in Hm as [[-> _]|Hm]; [done|exact Hm].
Qed.

Lemma mine_keeps_hash (json_dumps : json -> string) (fuel : nat) (b b' : Block.t) :
  Block.mine json_dumps fuel b = Some b' ->
  Block.hash b = Block.calculate_hash json_dumps b ->
  BlockHeader.nonce (Block.header b) = Block.nonce b ->
  Block.hash b' = Block.calculate_hash json_dumps b' /\
  Block.header b' = BlockHeader.set_nonce (Block.header b) (Block.nonce b') /\
  Block.nonce b <= Block.nonce b' <= Block.nonce b + Z.of_nat fuel.
Proof.
  intros Hm Hh Hn. apply mine_search in Hm as [[-> _]|(k & Hle & Hk & Hhd & Hhash & _)].
  - split; [done|]. split; [|lia]. rewrite <- Hn. by destruct (Block.header b).
  - split; [done|]. split; [done|lia].
Qed.

Lemma new_fields (json_dumps : json -> string) (index : Z)
    (transactions : list Transaction.t) (previous_hash : string) (difficulty : nat)
    (now loaded : Z) (b : Block.t) :
  Block.new json_dumps index transactions previous_hash difficulty now loaded = Some b ->
  Block.index b = index /\ Block.transactions b = transactions /\
  Block.previous_hash b = previous_hash /\ Block.difficulty b = difficulty /\
  Block.timestamp b = now /\ Block.nonce b = 0 /\
  Block.calculate_merkle_root transactions = Some (Block.merkle_root b) /\
  Block.header b = BlockHeader.mk previous_hash (Block.merkle_root b) difficulty 1 loaded 0 /\
  Block.hash b = Block.calculate_hash json_dumps b.
Proof.
  unfold Block.new. intros H.
  destruct (Block.calculate_merkle_root transactions) as [root|]; [|done].
  injection H as <-. by repeat split.
Qed.

Lemma mined_block_fields (json_dumps : json -> string) (fuel : nat) (index : Z)
    (transactions : list Transaction.t) (previous_hash : string) (difficulty : nat)
    (now loaded : Z) (b0 b : Block.t) :
  Block.new json_dumps index transactions previous_hash difficulty now loaded = Some b0 ->
  Block.mine json_dumps fuel b0 = Some b ->
  Block.validate b previous_hash = Some true /\
  Block.index b = index /\ Block.transactions b = transactions /\
  Block.previous_hash b = previous_hash /\ Block.difficulty b = difficulty /\
  0 <= Block.nonce b <= Z.of_nat fuel /\
  Block.header b
  = BlockHeader.mk previous_hash (Block.merkle_root b) difficulty 1 loaded (Block.nonce b) /\
  Block.hash b = Block.calculate_hash json_dumps b.
Proof.
  intros Hnew Hmine.
  destruct (new_fields _ _ _ _ _ _ _ _ Hnew)
    as (Hi & Ht & Hp & Hd & Hts & Hn & Hroot & Hhd & Hh).
  destruct (mine_fields _ _ _ _ Hmine) as (Hi' & Ht' & Hp' & Hd' & Hr' & Hpow).
  destruct (mine_keeps_hash _ _ _ _ Hmine Hh) as (Hh' & Hhd' & Hn').
  { by rewrite Hhd, Hn. }
  split.
  - unfold Block.validate.
    rewrite bool_decide_eq_false_2 by (intros Hne; apply Hne; congruence).
    rewrite bool_decide_eq_false_2 by (intros Hne; apply Hne; exact Hpow).
    rewrite Ht', Ht, Hroot. simpl.
    rewrite bool_decide_eq_false_2 by (intros Hne; apply Hne; congruence). done.
  - repeat split; try congruence; try lia.
    rewrite Hhd', Hhd, Hr'. reflexivity.
Qed.

(** X11. A block built by [Block(...)] and then mined is well formed: it
    passes [validate] against the previous hash it was built on; its index,
    transactions, previous hash and difficulty are those it was built with;
    its header carries its Merkle root and its nonce; and its hash is the
    hash of that header.  The constructor itself never fails. *)
Theorem mined_block_validates (json_dumps : json -> string) (fuel : nat) (index : Z)
    (transactions : list Transaction.t) (previous_hash : string) (difficulty : nat)
    (now loaded : Z) :
  exists b0,
    Block.new json_dumps index transactions previous_hash difficulty now loaded = Some b0 /\
    forall b, Block.mine json_dumps fuel b0 = Some b ->
      Block.validate b previous_hash = Some true /\
      Block.index b = index /\ Block.transactions b = transactions /\
      Block.previous_hash b = previous_hash /\ Block.difficulty b = difficulty /\
      0 <= Block.nonce b <= Z.of_nat fuel /\
      Block.header b
      = BlockHeader.mk previous_hash (Block.merkle_root b) difficulty 1 loaded (Block.nonce b) /\
      Block.hash b = Block.calculate_hash json_dumps b.
Proof.
  destruct (calculate_merkle_root_total transactions) as [root Hroot].
  eexists. split.
  - unfold Block.new. rewrite Hroot. reflexivity.
  - intros b Hmine. eapply mined_block_fields; [|exact Hmine].
    unfold Block.new. rewrite Hroot. reflexivity.
Qed.

(** ** Blocks that spend an output twice *)

Lemma is_coinbase_false (tx : Transaction.t) (k : string * Z) :
  k ∈ input_keys tx -> Transaction.is_coinbase tx = false.
Proof.
  unfold input_keys, Transaction.is_coinbase.
  destruct (Transaction.inputs tx); [|done].
  intros H. by apply elem_of_nil in H.
Qed.

Lemma validate_transaction_missing (u : UTXOSet.t) (tx : Transaction.t) (k : string * Z) :
  k ∈ input_keys tx -> UTXOSet.utxos u !! k = None ->
  UTXOSet.validate_transaction u tx = (false, 0).
Proof.
  intros Hk Hnone. unfold UTXOSet.validate_transaction.
  rewrite (is_coinbase_false tx k Hk).
  apply validate_inputs_bad. right. right. by exists k.
Qed.

(** Once the key is gone from the copy, it stays gone while no transaction
    files an output under it, and the transaction that refers to it fails. *)
Lemma validate_transactions_missing (block : Block.t) (k : string * Z)
    (mid : list Transaction.t) (tx2 : Transaction.t) (post : list Transaction.t) :
  forall temp_utxo total_fees seen_txids,
  UTXOSet.utxos temp_utxo !! k = None ->
  (forall tx, tx ∈ mid -> k ∉ output_keys tx) ->
  k ∈ input_keys tx2 ->
  Blockchain.validate_transactions block temp_utxo total_fees seen_txids
    (mid ++ tx2 :: post) = false.
Proof.
  induction mid as [|tx mid IH]; intros temp fees seen Hnone Hmid Hk2; simpl.
  - case_bool_decide; [done|].
    rewrite (is_coinbase_false tx2 k Hk2).
    by rewrite (validate_transaction_missing temp tx2 k).
  - case_bool_decide; [done|].
    destruct (Transaction.is_coinbase tx).
    + apply IH; [done| |done]. intros tx' Hin. apply Hmid. by right.
    + destruct (UTXOSet.validate_transaction temp tx) as [[|] v]; simpl; [|done].
      apply IH; [| |done].
      * destruct k as [txid i].
        pose proof (apply_transaction_lookup_other temp tx txid i
                      (Hmid tx ltac:(left))) as Hk.
        unfold UTXOSet.get_utxo in Hk. rewrite Hk.
        case_bool_decide; done.
      * intros tx' Hin. apply Hmid. by right.
Qed.

Lemma validate_transactions_double_spend (block : Block.t) (k : string * Z)
    (pre : list Transaction.t) (tx1 : Transaction.t) (mid : list Transaction.t)
    (tx2 : Transaction.t) (post : list Transaction.t) :
  forall temp_utxo total_fees seen_txids,
  k ∈ input_keys tx1 -> k ∈ input_keys tx2 ->
  (forall tx, tx ∈ tx1 :: mid -> k ∉ output_keys tx) ->
  Blockchain.validate_transactions block temp_utxo total_fees seen_txids
    (pre ++ tx1 :: mid ++ tx2 :: post) = false.
Proof.
  induction pre as [|tx pre IH]; intros temp fees seen Hk1 Hk2 Hout; simpl.
  - case_bool_decide; [done|].
    rewrite (is_coinbase_false tx1 k Hk1).
    destruct (UTXOSet.validate_transaction temp tx1) as [[|] v]; simpl; [|done].
    apply (validate_transactions_missing block k); [| |done].
    + destruct k as [txid i].
      pose proof (apply_transaction_lookup_other temp tx1 txid i
                    (Hout tx1 ltac:(left))) as Hk.
      unfold UTXOSet.get_utxo in Hk. rewrite Hk.
      by rewrite bool_decide_eq_true_2.
    + intros tx' Hin. apply Hout. by right.
  - case_bool_decide; [done|].
    destruct (Transaction.is_coinbase tx); [by apply IH|].
    destruct (UTXOSet.validate_transaction temp tx) as [[|] v]; simpl; [by apply IH|done].
Qed.

Lemma add_block_of_validate_transactions (s : Blockchain.t) (block tip : Block.t) :
  Blockchain.last_block s = Some tip ->
  Blockchain.validate_transactions block (Blockchain.utxo s) 0 ∅
    (Block.transactions block) = false ->
  Blockchain.add_block s block = Some (false, s).
Proof.
  intros Htip Hloop.
  unfold Blockchain.add_block, Blockchain.is_valid_block. rewrite Htip. simpl.
  destruct (validate_total block (Block.hash tip)) as [ok ->]. simpl.
  destruct ok; simpl; [|done].
  unfold Blockchain.deepcopy. by rewrite Hloop.
Qed.

(** X12. No block spends an output twice.  A block in which two transactions
    refer to the same (txid, output index) is turned away by [add_block],
    the ledger staying as it was (the one exception being a key under which
    the first of the two, or a transaction between them, files an output of
    its own). *)
Theorem block_double_spend_is_refused (s : Blockchain.t) (block tip : Block.t)
    (k : string * Z) (pre : list Transaction.t) (tx1 : Transaction.t)
    (mid : list Transaction.t) (tx2 : Transaction.t) (post : list Transaction.t) :
  Blockchain.last_block s = Some tip ->
  Block.transactions block = pre ++ tx1 :: mid ++ tx2 :: post ->
  k ∈ input_keys tx1 -> k ∈ input_keys tx2 ->
  (forall tx, tx ∈ tx1 :: mid -> k ∉ output_keys tx) ->
  Blockchain.add_block s block = Some (false, s).
Proof.
  intros Htip Htxs Hk1 Hk2 Hout.
  apply (add_block_of_validate_transactions s block tip Htip).
  rewrite Htxs. by apply (validate_transactions_double_spend block k).
Qed.

(** [block_double_spend] holds [tx_pay] and [tx_pay_again]. *)
Lemma block_double_spend_is_refused_witness :
  Blockchain.add_block (Sample.ledger [Sample.genesis; Sample.block1] [])
    Sample.block_double_spend
  = Some (false, Sample.ledger [Sample.genesis; Sample.block1] []).
Proof.
  apply (block_double_spend_is_refused
           (Sample.ledger [Sample.genesis; Sample.block1] []) Sample.block_double_spend
           Sample.block1 (Transaction.txid Sample.cb1, 0)
           [Sample.cb_erin] Sample.tx_pay [] Sample.tx_pay_again []).
  - reflexivity.
  - reflexivity.
  - apply list_elem_of_singleton. reflexivity.
  - apply list_elem_of_singleton. reflexivity.
  - intros tx Htx. apply list_elem_of_singleton in Htx as ->.
    intros [H _]%elem_of_output_keys. vm_compute in H. discriminate H.
Defined.

(** ** Mining the pool *)

Lemma mine_block_unfold (json_dumps : json -> string) (fuel : nat) (s : Blockchain.t)
    (miner_address : string) (now_tx now_block loaded : Z) (tip b0 b : Block.t) :
  Blockchain.pending_transactions s <> [] ->
  Blockchain.last_block s = Some tip ->
  Block.new json_dumps (Z.of_nat (length (Blockchain.chain s)))
    (Transaction.new json_dumps [] [TransactionOutput.mk 50 miner_address] now_tx
       :: Blockchain.pending_transactions s)
    (Block.hash tip) (Blockchain.difficulty s) now_block loaded = Some b0 ->
  Block.mine json_dumps fuel b0 = Some b ->
  Blockchain.mine_block json_dumps fuel s miner_address now_tx now_block loaded
  = Some (if Blockchain.validate_transactions b (Blockchain.utxo s) 0 ∅
               (Block.transactions b)
          then (Some b,
                Blockchain.mk (Blockchain.difficulty s) (Blockchain.chain s ++ [b]) []
                  (UTXOSet.apply_block (Blockchain.utxo s) b) (Blockchain.forks s))
          else (None, s)).
Proof.
  intros Hpending Htip Hnew Hmine.
  destruct (mined_block_fields _ _ _ _ _ _ _ _ _ _ Hnew Hmine) as (Hval & _ & _ & Hprev & _).
  unfold Blockchain.mine_block.
  destruct (Blockchain.pending_transactions s) as [|tx0 rest] eqn:Hp; [done|].
  rewrite Htip. simpl. simpl in Hnew. rewrite Hnew. simpl. rewrite Hmine. simpl.
  unfold Blockchain.add_block, Blockchain.is_valid_block. rewrite Htip. simpl.
  rewrite Hval. simpl. unfold Blockchain.deepcopy.
  destruct (Blockchain.validate_transactions b (Blockchain.utxo s) 0 ∅
              (Block.transactions b)); simpl; [|done].
  rewrite bool_decide_eq_false_2 by (intros Hne; apply Hne; exact Hprev).
  reflexivity.
Qed.

(** X13. What [mine_block] does with a pool that is not empty.  The block it
    builds (the reward of 50 to the miner first, then the pool in order, on
    the tip, at the ledger's difficulty) always passes the structural check
    once mined, so the outcome rests on the transactions alone: if they pass
    the loop of [is_valid_block], the block is appended, its transactions
    are applied to the UTXO set and the pool is emptied; if not, [None] is
    returned and the ledger, pool included, is as it was. *)
Theorem mine_block_outcome (json_dumps : json -> string) (fuel : nat) (s : Blockchain.t)
    (miner_address : string) (now_tx now_block loaded : Z) (tip : Block.t) :
  Blockchain.pending_transactions s <> [] ->
  Blockchain.last_block s = Some tip ->
  exists b0,
    Block.new json_dumps (Z.of_nat (length (Blockchain.chain s)))
      (Transaction.new json_dumps [] [TransactionOutput.mk 50 miner_address] now_tx
         :: Blockchain.pending_transactions s)
      (Block.hash tip) (Blockchain.difficulty s) now_block loaded = Some b0 /\
    (Block.mine json_dumps fuel b0 = None ->
     Blockchain.mine_block json_dumps fuel s miner_address now_tx now_block loaded = None) /\
    forall b, Block.mine json_dumps fuel b0 = Some b ->
      Block.validate b (Block.hash tip) = Some true /\
      Blockchain.mine_block json_dumps fuel s miner_address now_tx now_block loaded
      = Some (if Blockchain.validate_transactions b (Blockchain.utxo s) 0 ∅
                   (Block.transactions b)
              then (Some b,
                    Blockchain.mk (Blockchain.difficulty s) (Blockchain.chain s ++ [b]) []
                      (UTXOSet.apply_block (Blockchain.utxo s) b) (Blockchain.forks s))
              else (None, s)).
Proof.
  intros Hpending Htip.
  destruct (calculate_merkle_root_total
              (Transaction.new json_dumps [] [TransactionOutput.mk 50 miner_address] now_tx
                 :: Blockchain.pending_transactions s)) as [root Hroot].
  assert (Hnew : exists b0,
            Block.new json_dumps (Z.of_nat (length (Blockchain.chain s)))
              (Transaction.new json_dumps [] [TransactionOutput.mk 50 miner_address] now_tx
                 :: Blockchain.pending_transactions s)
              (Block.hash tip) (Blockchain.difficulty s) now_block loaded = Some b0).
  { unfold Block.new. rewrite Hroot. by eexists. }
  destruct Hnew as [b0 Hnew].
  exists b0. split; [exact Hnew|]. split.
  - intros Hnone. unfold Blockchain.mine_block.
    destruct (Blockchain.pending_transactions s) as [|tx0 rest] eqn:Hp; [done|].
    rewrite Htip. simpl. simpl in Hnew. rewrite Hnew. simpl. by rewrite Hnone.
  - intros b Hmine. split.
    + by destruct (mined_block_fields _ _ _ _ _ _ _ _ _ _ Hnew Hmine) as [Hval _].
    + by apply (mine_block_unfold _ _ _ _ _ _ _ tip b0).
Qed.

(** The pool [tx_pay] on the chain [genesis; block1]. *)
Lemma mine_block_outcome_witness :
  let s := Sample.ledger_with_pending [Sample.genesis; Sample.block1] [Sample.tx_pay] in
  exists b0,
    Block.new Sample.render (Z.of_nat (length (Blockchain.chain s)))
      (Transaction.new Sample.render [] [TransactionOutput.mk 50 "miner"] 1700000110000000
         :: Blockchain.pending_transactions s)
      (Block.hash Sample.block1) (Blockchain.difficulty s)
      1700000111000000 1700000000000000
    = Some b0 /\
    (Block.mine Sample.render 200 b0 = None ->
     Blockchain.mine_block Sample.render 200 s "miner"
       1700000110000000 1700000111000000 1700000000000000 = None) /\
    forall b, Block.mine Sample.render 200 b0 = Some b ->
      Block.validate b (Block.hash Sample.block1) = Some true /\
      Blockchain.mine_block Sample.render 200 s "miner"
        1700000110000000 1700000111000000 1700000000000000
      = Some (if Blockchain.validate_transactions b (Blockchain.utxo s) 0 ∅
                   (Block.transactions b)
              then (Some b,
                    Blockchain.mk (Blockchain.difficulty s) (Blockchain.chain s ++ [b]) []
                      (UTXOSet.apply_block (Blockchain.utxo s) b) (Blockchain.forks s))
              else (None, s)).
Proof.
  apply (mine_block_outcome Sample.render 200
           (Sample.ledger_with_pending [Sample.genesis; Sample.block1] [Sample.tx_pay])
           "miner" 1700000110000000 1700000111000000 1700000000000000 Sample.block1).
  - discriminate.
  - reflexivity.
Defined.

Lemma mine_block_stuck (json_dumps : json -> string) (fuel : nat) (s : Blockchain.t)
    (miner_address : string) (now_tx now_block loaded : Z)
    (k : string * Z) (pre : list Transaction.t) (tx1 : Transaction.t)
    (mid : list Transaction.t) (tx2 : Transaction.t) (post : list Transaction.t)
    (r : option Block.t * Blockchain.t) :
  Blockchain.pending_transactions s = pre ++ tx1 :: mid ++ tx2 :: post ->
  k ∈ input_keys tx1 -> k ∈ input_keys tx2 ->
  (forall tx, tx ∈ tx1 :: mid -> k ∉ output_keys tx) ->
  Blockchain.mine_block json_dumps fuel s miner_address now_tx now_block loaded = Some r ->
  r = (None, s).
Proof.
  intros Hpool Hk1 Hk2 Hout Hr.
  assert (Hpending : Blockchain.pending_transactions s <> []).
  { rewrite Hpool. by destruct pre. }
  destruct (Blockchain.last_block s) as [tip|] eqn:Htip.
  2:{ unfold Blockchain.mine_block in Hr. rewrite Htip in Hr.
      by destruct (Blockchain.pending_transactions s). }
  destruct (Block.new json_dumps (Z.of_nat (length (Blockchain.chain s)))
              (Transaction.new json_dumps [] [TransactionOutput.mk 50 miner_address] now_tx
                 :: Blockchain.pending_transactions s)
              (Block.hash tip) (Blockchain.difficulty s) now_block loaded) as [b0|] eqn:Hnew.
  2:{ unfold Blockchain.mine_block in Hr. rewrite Htip in Hr.
      destruct (Blockchain.pending_transactions s); [done|].
      simpl in Hr, Hnew. by rewrite Hnew in Hr. }
  destruct (Block.mine json_dumps fuel b0) as [b|] eqn:Hmine.
  2:{ unfold Blockchain.mine_block in Hr. rewrite Htip in Hr.
      destruct (Blockchain.pending_transactions s); [done|].
      simpl in Hr, Hnew. rewrite Hnew in Hr. simpl in Hr. by rewrite Hmine in Hr. }
  rewrite (mine_block_unfold _ _ _ _ _ _ _ tip b0 b) in Hr by done.
  destruct (mined_block_fields _ _ _ _ _ _ _ _ _ _ Hnew Hmine) as (_ & _ & Htxs & _).
  rewrite Htxs, Hpool in Hr.
  rewrite (validate_transactions_double_spend b k
             (Transaction.new json_dumps [] [TransactionOutput.mk 50 miner_address] now_tx
                :: pre) tx1 mid tx2 post) in Hr by done.
  by injection Hr as <-.
Qed.

Lemma call_keeps_pool_prefix (s s' : Blockchain.t) (k : string * Z)
    (pre : list Transaction.t) (tx1 : Transaction.t) (mid : list Transaction.t)
    (tx2 : Transaction.t) :
  k ∈ input_keys tx1 -> k ∈ input_keys tx2 ->
  (forall tx, tx ∈ tx1 :: mid -> k ∉ output_keys tx) ->
  call s s' ->
  (exists post, Blockchain.pending_transactions s = pre ++ tx1 :: mid ++ tx2 :: post) ->
  exists post, Blockchain.pending_transactions s' = pre ++ tx1 :: mid ++ tx2 :: post.
Proof.
  intros Hk1 Hk2 Hout Hcall [post Hpool].
  destruct Hcall as [s tx r s' H|s block r s' H
                    |json_dumps fuel s miner now_tx now_block loaded r s' H].
  - unfold Blockchain.add_transaction in H.
    destruct (UTXOSet.validate_transaction _ _) as [[|] ?]; injection H as <- <-.
    + exists (post ++ [tx]). simpl. rewrite Hpool.
      rewrite <- !app_assoc. simpl. rewrite <- !app_assoc. done.
    + by exists post.
  - apply add_block_result in H as [->| ->]; by exists post.
  - apply (mine_block_stuck _ _ _ _ _ _ _ k pre tx1 mid tx2 post) in H; [|done..].
    injection H as _ <-. by exists post.
Qed.

(** X14. Two conflicting transactions block the pool for good.  Once the
    pool holds two transactions that refer to the same (txid, output index)
    (and neither the first nor one between them files an output under that
    key), no sequence of calls of [add_transaction], [add_block] and
    [mine_block] removes them, and no later [mine_block] ever returns a
    block. *)
Theorem conflicting_pool_blocks_mining (s s' : Blockchain.t) (k : string * Z)
    (pre : list Transaction.t) (tx1 : Transaction.t) (mid : list Transaction.t)
    (tx2 : Transaction.t) (post : list Transaction.t) :
  Blockchain.pending_transactions s = pre ++ tx1 :: mid ++ tx2 :: post ->
  k ∈ input_keys tx1 -> k ∈ input_keys tx2 ->
  (forall tx, tx ∈ tx1 :: mid -> k ∉ output_keys tx) ->
  rtc call s s' ->
  (exists post', Blockchain.pending_transactions s' = pre ++ tx1 :: mid ++ tx2 :: post') /\
  forall json_dumps fuel miner_address now_tx now_block loaded r,
    Blockchain.mine_block json_dumps fuel s' miner_address now_tx now_block loaded = Some r ->
    r = (None, s').
Proof.
  intros Hpool Hk1 Hk2 Hout Hrtc.
  assert (Hinv : exists post', Blockchain.pending_transactions s'
                               = pre ++ tx1 :: mid ++ tx2 :: post').
  { assert (H0 : exists post', Blockchain.pending_transactions s
                               = pre ++ tx1 :: mid ++ tx2 :: post') by (by exists post).
    clear Hpool. induction Hrtc as [|s1 s2 s3 Hcall _ IH]; [done|].
    apply IH. by apply (call_keeps_pool_prefix s1 s2 k). }
  split; [exact Hinv|].
  destruct Hinv as [post' Hpool'].
  intros json_dumps fuel miner now_tx now_block loaded r Hr.
  by apply (mine_block_stuck _ _ _ _ _ _ _ k pre tx1 mid tx2 post') in Hr.
Qed.

(** The pool [tx_pay; tx_pay_again], after one more submission. *)
Lemma conflicting_pool_blocks_mining_witness :
  let s := Sample.ledger_with_pending [Sample.genesis; Sample.block1]
             [Sample.tx_pay; Sample.tx_pay_again] in
  let s' := snd (Blockchain.add_transaction s Sample.cb2) in
  (exists post', Blockchain.pending_transactions s'
                 = [] ++ Sample.tx_pay :: [] ++ Sample.tx_pay_again :: post') /\
  forall json_dumps fuel miner_address now_tx now_block loaded r,
    Blockchain.mine_block json_dumps fuel s' miner_address now_tx now_block loaded = Some r ->
    r = (None, s').
Proof.
  apply (conflicting_pool_blocks_mining
           (Sample.ledger_with_pending [Sample.genesis; Sample.block1]
              [Sample.tx_pay; Sample.tx_pay_again])
           (snd (Blockchain.add_transaction
                   (Sample.ledger_with_pending [Sample.genesis; Sample.block1]
                      [Sample.tx_pay; Sample.tx_pay_again]) Sample.cb2))
           (Transaction.txid Sample.cb1, 0) [] Sample.tx_pay [] Sample.tx_pay_again []).
  - reflexivity.
  - apply list_elem_of_singleton. reflexivity.
  - apply list_elem_of_singleton. reflexivity.
  - intros tx Htx. apply list_elem_of_singleton in Htx as ->.
    intros [H _]%elem_of_output_keys. vm_compute in H. discriminate H.
  - apply rtc_once.
    apply (call_add_transaction _ Sample.cb2
             (fst (Blockchain.add_transaction
                     (Sample.ledger_with_pending [Sample.genesis; Sample.block1]
                        [Sample.tx_pay; Sample.tx_pay_again]) Sample.cb2))).
    apply surjective_pairing.
Defined.

(** ** The sample ledgers *)

Lemma init_ledger0 :
  Blockchain.init Sample.render 200 1 1700000100000000 1700000000000000
  = Some Cases.ledger0.
Proof.
  assert (Hs : match Blockchain.init Sample.render 200 1 1700000100000000 1700000000000000
               with Some _ => true | None => false end = true)
    by (vm_compute; reflexivity).
  unfold Cases.ledger0.
  destruct (Blockchain.init Sample.render 200 1 1700000100000000 1700000000000000)
    as [s|]; [reflexivity|discriminate Hs].
Qed.

Lemma mine_ledger1 :
  exists b,
    Blockchain.mine_block Sample.render 200 Cases.ledger_pending "miner"
      1700000110000000 1700000111000000 1700000000000000
    = Some (Some b, Cases.ledger1).
Proof.
  assert (Hs : match Blockchain.mine_block Sample.render 200 Cases.ledger_pending "miner"
                       1700000110000000 1700000111000000 1700000000000000
               with Some (Some _, _) => true | _ => false end = true)
    by (vm_compute; reflexivity).
  unfold Cases.ledger1.
  destruct (Blockchain.mine_block Sample.render 200 Cases.ledger_pending "miner"
              1700000110000000 1700000111000000 1700000000000000)
    as [[[b|] s]|]; [|discriminate Hs..].
  exists b. reflexivity.
Qed.

Lemma ledger1_reached : rtc call Cases.ledger0 Cases.ledger1.
Proof.
  destruct mine_ledger1 as [b Hmine].
  eapply rtc_l; [|apply rtc_once].
  - apply (call_add_transaction Cases.ledger0 Cases.tx_mint
             (fst (Blockchain.add_transaction Cases.ledger0 Cases.tx_mint))
             Cases.ledger_pending).
    apply surjective_pairing.
  - exact (call_mine_block _ _ _ _ _ _ _ _ _ Hmine).
Qed.

(** ** What the public methods keep *)

Lemma call_result (s s' : Blockchain.t) :
  call s s' ->
  Blockchain.difficulty s' = Blockchain.difficulty s /\
  Blockchain.forks s' = Blockchain.forks s /\
  ((Blockchain.chain s' = Blockchain.chain s /\ Blockchain.utxo s' = Blockchain.utxo s) \/
   (exists tip block,
      Blockchain.last_block s = Some tip /\
      Block.validate block (Block.hash tip) = Some true /\
      Blockchain.chain s' = Blockchain.chain s ++ [block] /\
      Blockchain.utxo s' = UTXOSet.apply_block (Blockchain.utxo s) block)).
Proof.
  assert (Hadd : forall s block r s',
            Blockchain.add_block s block = Some (r, s') ->
            Blockchain.difficulty s' = Blockchain.difficulty s /\
            Blockchain.forks s' = Blockchain.forks s /\
            Blockchain.pending_transactions s' = Blockchain.pending_transactions s /\
            ((Blockchain.chain s' = Blockchain.chain s /\
              Blockchain.utxo s' = Blockchain.utxo s) \/
             (exists tip block,
                Blockchain.last_block s = Some tip /\
                Block.validate block (Block.hash tip) = Some true /\
                Blockchain.chain s' = Blockchain.chain s ++ [block] /\
                Blockchain.utxo s' = UTXOSet.apply_block (Blockchain.utxo s) block))).
  { clear. intros s block r s' H.
    destruct (decide (Blockchain.chain s = [])) as [Hnil|Hne].
    { unfold Blockchain.add_block, Blockchain.is_valid_block, Blockchain.last_block in H.
      by rewrite Hnil in H. }
    destruct (add_block_cases s block Hne) as [[_ Ha]|[Hv Ha]];
      rewrite Ha in H; injection H as <- <-.
    - repeat split; try done. by left.
    - repeat split; try done. right.
      destruct (is_valid_block_true s block Hv) as (tip & Htip & Hval & _).
      by exists tip, block. }
  intros Hcall.
  destruct Hcall as [s tx r s' H|s block r s' H
                    |json_dumps fuel s miner now_tx now_block loaded r s' H].
  - unfold Blockchain.add_transaction in H.
    destruct (UTXOSet.validate_transaction _ _) as [[|] ?]; injection H as <- <-;
      repeat split; try done; by left.
  - destruct (Hadd _ _ _ _ H) as (? & ? & _ & ?). done.
  - unfold Blockchain.mine_block in H.
    destruct (Blockchain.pending_transactions s) as [|tx0 rest].
    { injection H as <- <-. repeat split; try done. by left. }
    destruct (Blockchain.last_block s) as [tip|] eqn:Htip; [|done]. simpl in H.
    destruct (Block.new _ _ _ _ _ _ _) as [b0|]; [|done]. simpl in H.
    destruct (Block.mine _ _ _) as [b|]; [|done]. simpl in H.
    destruct (Blockchain.add_block s b) as [[added s1]|] eqn:Ha; [|done]. simpl in H.
    destruct (Hadd _ _ _ _ Ha) as (Hd & Hf & _ & Hc). rewrite Htip in Hc.
    destruct added; injection H as <- <-; simpl; (split; [done|split; [done|exact Hc]]).
Qed.

Lemma public_calls_append_only_aux (s s' : Blockchain.t) :
  rtc call s s' ->
  Blockchain.chain s `prefix_of` Blockchain.chain s' /\
  Blockchain.forks s' = Blockchain.forks s /\
  Blockchain.difficulty s' = Blockchain.difficulty s.
Proof.
  induction 1 as [s|s1 s2 s3 Hcall _ IH]; [done|].
  destruct IH as (Hpre & Hf & Hd).
  destruct (call_result _ _ Hcall) as (Hd1 & Hf1 & Hc1).
  split; [|split; congruence].
  destruct Hc1 as [[Hc _]|(tip & block & _ & _ & Hc & _)].
  - by rewrite <- Hc.
  - etrans; [|exact Hpre]. rewrite Hc. by apply prefix_app_r.
Qed.

(** X15. The public methods only ever append to the canonical chain.  After
    any sequence of calls of [add_transaction], [add_block] and
    [mine_block], the chain the ledger had at the start is still there, as
    a prefix of the present one, and the fork list and the difficulty are
    what they were: no call reaches the fork handler. *)
Theorem public_calls_append_only (s s' : Blockchain.t) :
  rtc call s s' ->
  Blockchain.chain s `prefix_of` Blockchain.chain s' /\
  Blockchain.forks s' = Blockchain.forks s /\
  Blockchain.difficulty s' = Blockchain.difficulty s.
Proof. exact (public_calls_append_only_aux s s'). Qed.

(** From the new ledger to the one with a first block mined. *)
Lemma public_calls_append_only_witness :
  Blockchain.chain Cases.ledger0 `prefix_of` Blockchain.chain Cases.ledger1 /\
  Blockchain.forks Cases.ledger1 = Blockchain.forks Cases.ledger0 /\
  Blockchain.difficulty Cases.ledger1 = Blockchain.difficulty Cases.ledger0.
Proof. exact (public_calls_append_only Cases.ledger0 Cases.ledger1 ledger1_reached). Defined.

Lemma linked_snoc (chain : list Block.t) (tip block : Block.t) :
  linked chain -> last chain = Some tip ->
  Block.validate block (Block.hash tip) = Some true ->
  linked (chain ++ [block]).
Proof.
  intros Hl Htip Hval i b b' Hb Hb'.
  destruct (decide (S i < length chain)%nat) as [Hlt|Hge].
  - rewrite lookup_app_l in Hb by lia. rewrite lookup_app_l in Hb' by lia.
    by apply (Hl i).
  - assert (Hi : S i = length chain).
    { apply lookup_lt_Some in Hb'. rewrite length_app in Hb'. simpl in Hb'. lia. }
    rewrite lookup_app_l in Hb by lia.
    rewrite lookup_app_r in Hb' by lia.
    rewrite Hi, Nat.sub_diag in Hb'. injection Hb' as <-.
    rewrite last_lookup in Htip.
    replace (Nat.pred (length chain)) with i in Htip by lia.
    assert (b = tip) as -> by congruence. exact Hval.
Qed.

Lemma init_fields (json_dumps : json -> string) (fuel difficulty : nat)
    (now loaded : Z) (s0 : Blockchain.t) :
  Blockchain.init json_dumps fuel difficulty now loaded = Some s0 ->
  exists genesis_block,
    s0 = Blockchain.mk difficulty [genesis_block] [] UTXOSet.empty [] /\
    Block.validate genesis_block (zeros 64) = Some true /\
    Block.index genesis_block = 0 /\
    Block.transactions genesis_block = [] /\
    Block.difficulty genesis_block = difficulty.
Proof.
  unfold Blockchain.init. intros H.
  destruct (Block.new json_dumps 0 [] (zeros 64) difficulty now loaded) as [b0|] eqn:Hnew;
    [|done]. simpl in H.
  destruct (Block.mine json_dumps fuel b0) as [g|] eqn:Hmine; [|done].
  injection H as <-.
  destruct (mined_block_fields _ _ _ _ _ _ _ _ _ _ Hnew Hmine)
    as (Hval & Hi & Ht & _ & Hd & _).
  by exists g.
Qed.

Lemma calls_keep_replay (s s' : Blockchain.t) :
  rtc call s s' ->
  Blockchain.utxo s = foldl UTXOSet.apply_block UTXOSet.empty (Blockchain.chain s) ->
  Blockchain.utxo s' = foldl UTXOSet.apply_block UTXOSet.empty (Blockchain.chain s').
Proof.
  induction 1 as [s|s1 s2 s3 Hcall _ IH]; intros H0; [done|].
  apply IH. destruct (call_result _ _ Hcall) as (_ & _ & Hc).
  destruct Hc as [[-> ->]|(tip & block & _ & _ & -> & ->)]; [done|].
  by rewrite foldl_app, <- H0.
Qed.

Lemma calls_keep_linked (s s' : Blockchain.t) :
  rtc call s s' -> linked (Blockchain.chain s) -> linked (Blockchain.chain s').
Proof.
  induction 1 as [s|s1 s2 s3 Hcall _ IH]; intros H0; [done|].
  apply IH. destruct (call_result _ _ Hcall) as (_ & _ & Hc).
  destruct Hc as [[-> _]|(tip & block & Htip & Hvalid & -> & _)]; [done|].
  by apply (linked_snoc _ tip).
Qed.

(** X16. The UTXO set is the replay of the canonical chain.  In every ledger
    reached from a newly constructed one by calls of the public methods,
    the UTXO set is what applying the blocks of the chain in order to an
    empty set gives, and there is no tracked fork. *)
Theorem ledger_utxo_is_replay (json_dumps : json -> string) (fuel difficulty : nat)
    (now loaded : Z) (s0 s : Blockchain.t) :
  Blockchain.init json_dumps fuel difficulty now loaded = Some s0 ->
  rtc call s0 s ->
  Blockchain.utxo s = foldl UTXOSet.apply_block UTXOSet.empty (Blockchain.chain s) /\
  Blockchain.forks s = [] /\
  Blockchain.difficulty s = difficulty.
Proof.
  intros Hinit Hrtc.
  destruct (init_fields _ _ _ _ _ _ Hinit) as (g & -> & _ & _ & Htxs & _).
  assert (H0 : Blockchain.utxo (Blockchain.mk difficulty [g] [] UTXOSet.empty [])
               = foldl UTXOSet.apply_block UTXOSet.empty
                   (Blockchain.chain (Blockchain.mk difficulty [g] [] UTXOSet.empty []))).
  { simpl. unfold UTXOSet.apply_block. by rewrite Htxs. }
  destruct (public_calls_append_only_aux _ _ Hrtc) as (_ & Hf & Hd).
  split; [|done]. by apply (calls_keep_replay _ _ Hrtc).
Qed.

(** The ledger with a first block mined. *)
Lemma ledger_utxo_is_replay_witness :
  Blockchain.utxo Cases.ledger1
  = foldl UTXOSet.apply_block UTXOSet.empty (Blockchain.chain Cases.ledger1) /\
  Blockchain.forks Cases.ledger1 = [] /\
  Blockchain.difficulty Cases.ledger1 = 1%nat.
Proof.
  exact (ledger_utxo_is_replay Sample.render 200 1 1700000100000000 1700000000000000
           Cases.ledger0 Cases.ledger1 init_ledger0 ledger1_reached).
Defined.

(** X17. The canonical chain is linked.  In every ledger reached from a
    newly constructed one by calls of the public methods, the chain starts
    with the genesis block (no transactions, index 0, mined on sixty-four
    zeros) and every later block passes [validate] against the hash of the
    block before it: its previous hash is that hash, its own hash meets its
    difficulty target, and its Merkle root is that of its transactions. *)
Theorem ledger_chain_is_linked (json_dumps : json -> string) (fuel difficulty : nat)
    (now loaded : Z) (s0 s : Blockchain.t) :
  Blockchain.init json_dumps fuel difficulty now loaded = Some s0 ->
  rtc call s0 s ->
  (exists genesis_block rest,
     Blockchain.chain s0 = [genesis_block] /\
     Blockchain.chain s = genesis_block :: rest /\
     Block.validate genesis_block (zeros 64) = Some true /\
     Block.index genesis_block = 0 /\
     Block.transactions genesis_block = []) /\
  linked (Blockchain.chain s).
Proof.
  intros Hinit Hrtc.
  destruct (init_fields _ _ _ _ _ _ Hinit) as (g & -> & Hval & Hi & Htxs & _).
  split.
  - destruct (public_calls_append_only_aux _ _ Hrtc) as ([rest Hpre] & _).
    exists g, rest. by rewrite Hpre.
  - apply (calls_keep_linked _ _ Hrtc).
    intros i b b' Hb Hb'. simpl in Hb'. by destruct i.
Qed.

(** The ledger with a first block mined. *)
Lemma ledger_chain_is_linked_witness :
  (exists genesis_block rest,
     Blockchain.chain Cases.ledger0 = [genesis_block] /\
     Blockchain.chain Cases.ledger1 = genesis_block :: rest /\
     Block.validate genesis_block (zeros 64) = Some true /\
     Block.index genesis_block = 0 /\
     Block.transactions genesis_block = []) /\
  linked (Blockchain.chain Cases.ledger1).
Proof.
  exact (ledger_chain_is_linked Sample.render 200 1 1700000100000000 1700000000000000
           Cases.ledger0 Cases.ledger1 init_ledger0 ledger1_reached).
Defined.

(** ** The single-file ledger: submitting and mining *)

Lemma legacy_valid_inputs_spec (s : Legacy.Blockchain.t) (output_sum : Z)
    (inputs : list TransactionInput.t) :
  forall input_sum,
  Legacy.Blockchain.valid_inputs s output_sum input_sum inputs = true <->
  (forall tx_input, tx_input ∈ inputs ->
     is_Some (Legacy.Blockchain.utxos s !!
                Legacy.Blockchain.utxo_key (TransactionInput.txid tx_input)
                  (TransactionInput.output_index tx_input))) /\
  output_sum <=
    input_sum +
    sum ((fun tx_input =>
            from_option TransactionOutput.value 0
              (Legacy.Blockchain.utxos s !!
                 Legacy.Blockchain.utxo_key (TransactionInput.txid tx_input)
                   (TransactionInput.output_index tx_input))) <$> inputs).
Proof.
  induction inputs as [|i rest IH]; intros acc.
  - simpl. unfold sum. simpl. destruct (Z.ltb_spec acc output_sum); split.
    + done.
    + intros [_ ?]. lia.
    + intros _. split; [|lia]. intros x Hx. by apply elem_of_nil in Hx.
    + done.
  - simpl Legacy.Blockchain.valid_inputs. rewrite fmap_cons, sum_cons.
    destruct (Legacy.Blockchain.utxos s !!
                Legacy.Blockchain.utxo_key (TransactionInput.txid i)
                  (TransactionInput.output_index i)) as [o|] eqn:Hlook.
    + rewrite IH. simpl from_option. split.
      * intros [Hall Hle]. split; [|lia].
        intros x [->|Hx]%elem_of_cons; [by rewrite Hlook|by apply Hall].
      * intros [Hall Hle]. split; [|lia].
        intros x Hx. apply Hall. by right.
    + split; [done|]. intros [Hall _].
      destruct (Hall i ltac:(left)) as [o Ho]. congruence.
Qed.

(** X18. What the single-file ledger accepts.  [is_valid_transaction] takes
    every zero-input transaction, and a transaction with inputs exactly when
    each input is found in the UTXO map and the values found, added up input
    by input, cover the outputs.  An input listed twice is counted twice:
    a transaction that names one entry of value [v] in both of its two
    inputs may pay out up to [2 * v]. *)
Theorem legacy_is_valid_transaction_spec (s : Legacy.Blockchain.t) (tx : Transaction.t) :
  (Legacy.Blockchain.is_valid_transaction s tx = true <->
   Transaction.inputs tx = [] \/
   ((forall key, key ∈ legacy_input_keys tx ->
       is_Some (Legacy.Blockchain.utxos s !! key)) /\
    sum (output_values tx) <= sum (legacy_input_values s tx))) /\
  (forall tx_input o,
     Transaction.inputs tx = [tx_input; tx_input] ->
     Legacy.Blockchain.utxos s !!
       Legacy.Blockchain.utxo_key (TransactionInput.txid tx_input)
         (TransactionInput.output_index tx_input) = Some o ->
     sum (output_values tx) <= 2 * TransactionOutput.value o ->
     Legacy.Blockchain.is_valid_transaction s tx = true).
Proof.
  assert (Hspec :
    Legacy.Blockchain.is_valid_transaction s tx = true <->
    Transaction.inputs tx = [] \/
    ((forall key, key ∈ legacy_input_keys tx ->
        is_Some (Legacy.Blockchain.utxos s !! key)) /\
     sum (output_values tx) <= sum (legacy_input_values s tx))).
  { unfold Legacy.Blockchain.is_valid_transaction, Transaction.is_coinbase.
    unfold legacy_input_keys, legacy_input_values, legacy_input_keys, output_values.
    destruct (Transaction.inputs tx) as [|i0 rest] eqn:Hin.
    { split; [by left|done]. }
    rewrite <- Hin. rewrite legacy_valid_inputs_spec, Z.add_0_l.
    rewrite <- list_fmap_compose. unfold compose.
    split.
    - intros [Hall Hle]. right. split; [|done].
      intros key (x & -> & Hx)%list_elem_of_fmap. by apply Hall.
    - intros [Hnil|[Hall Hle]]; [congruence|]. split; [|done].
      intros x Hx. apply Hall. apply list_elem_of_fmap. by exists x. }
  split; [exact Hspec|].
  intros tx_input o Hin Hlook Hle. apply Hspec. right.
  unfold legacy_input_values, legacy_input_keys. rewrite Hin. simpl. split.
  - intros key Hkey. repeat (apply elem_of_cons in Hkey as [->|Hkey]);
      [by rewrite Hlook..|by apply elem_of_nil in Hkey].
  - rewrite Hlook. simpl. rewrite !sum_cons. unfold sum at 2. simpl. lia.
Qed.

Lemma utxo_key_inj (txid : string) (i j : Z) :
  Legacy.Blockchain.utxo_key txid i = Legacy.Blockchain.utxo_key txid j -> i = j.
Proof.
  unfold Legacy.Blockchain.utxo_key. intros H.
  apply (inj (String.app txid)) in H. apply (inj (String.app ":")) in H.
  by apply (inj pretty) in H.
Qed.

Lemma legacy_add_outputs_lookup (txid : string) (ios : list (Z * TransactionOutput.t))
    (m : gmap string TransactionOutput.t) (i : Z) (o : TransactionOutput.t) :
  NoDup (fst <$> ios) -> (i, o) ∈ ios ->
  foldl (fun m io => <[Legacy.Blockchain.utxo_key txid (fst io) := snd io]> m) m ios
    !! Legacy.Blockchain.utxo_key txid i = Some o.
Proof.
  revert m. induction ios as [|x l IH]; intros m Hnd Hin; simpl.
  - by apply elem_of_nil in Hin.
  - rewrite fmap_cons in Hnd. apply NoDup_cons in Hnd as [Hx Hnd].
    apply elem_of_cons in Hin as [<-|Hin].
    + rewrite (foldl_insert_lookup_ne
                 (fun io : Z * TransactionOutput.t =>
                    Legacy.Blockchain.utxo_key txid (fst io)) snd).
      * simpl. apply lookup_insert_eq.
      * intros (io & Heq & Hio)%list_elem_of_fmap. apply Hx.
        apply utxo_key_inj in Heq. simpl in Heq. rewrite Heq.
        apply list_elem_of_fmap. by exists io.
    + by apply IH.
Qed.

(** X19. What a submission does to the single-file ledger.  A transaction
    that [is_valid_transaction] turns down leaves the ledger as it was.  An
    accepted one joins the pool and takes effect on the UTXO map at once,
    before any block is mined: each of its outputs is filed under the
    transaction's id and the output's position, the keys of its inputs are
    gone (unless an output was filed under one), and every other key keeps
    its entry. *)
Theorem legacy_add_transaction_effect (s : Legacy.Blockchain.t) (tx : Transaction.t) :
  (Legacy.Blockchain.is_valid_transaction s tx = false ->
   Legacy.Blockchain.add_transaction s tx = (false, s)) /\
  (Legacy.Blockchain.is_valid_transaction s tx = true ->
   exists s',
     Legacy.Blockchain.add_transaction s tx = (true, s') /\
     Legacy.Blockchain.chain s' = Legacy.Blockchain.chain s /\
     Legacy.Blockchain.difficulty s' = Legacy.Blockchain.difficulty s /\
     Legacy.Blockchain.pending_transactions s'
     = Legacy.Blockchain.pending_transactions s ++ [tx] /\
     (forall (n : nat) (o : TransactionOutput.t),
        Transaction.outputs tx !! n = Some o ->
        Legacy.Blockchain.utxos s'
          !! Legacy.Blockchain.utxo_key (Transaction.txid tx) (Z.of_nat n) = Some o) /\
     (forall key : string,
        (forall n : nat, (n < length (Transaction.outputs tx))%nat ->
           key <> Legacy.Blockchain.utxo_key (Transaction.txid tx) (Z.of_nat n)) ->
        Legacy.Blockchain.utxos s' !! key
        = if bool_decide (key ∈ legacy_input_keys tx) then None
          else Legacy.Blockchain.utxos s !! key)).
Proof.
  unfold Legacy.Blockchain.add_transaction. split; intros ->; simpl; [done|].
  eexists. split; [reflexivity|]. simpl. repeat split.
  - intros n o Hn. apply legacy_add_outputs_lookup; [apply enumerate_NoDup|].
    apply elem_of_enumerate. by exists n.
  - intros key Hkey.
    rewrite (foldl_insert_lookup_ne
               (fun io : Z * TransactionOutput.t =>
                  Legacy.Blockchain.utxo_key (Transaction.txid tx) (fst io)) snd).
    + apply (foldl_delete_lookup
               (fun x => Legacy.Blockchain.utxo_key (TransactionInput.txid x)
                           (TransactionInput.output_index x))).
    + intros ([i o] & Heq & Hio)%list_elem_of_fmap. simpl in Heq.
      apply elem_of_enumerate in Hio as (n & -> & Hn).
      apply (Hkey n); [by eapply lookup_lt_Some|done].
Qed.

Lemma legacy_mine_fields (json_dumps : json -> string) (fuel difficulty : nat) :
  forall b b' : Legacy.Block.t,
  Legacy.Block.mine json_dumps fuel difficulty b = Some b' ->
  Legacy.Block.index b' = Legacy.Block.index b /\
  Legacy.Block.transactions b' = Legacy.Block.transactions b /\
  Legacy.Block.timestamp b' = Legacy.Block.timestamp b /\
  Legacy.Block.nonce b <= Legacy.Block.nonce b' <= Legacy.Block.nonce b + Z.of_nat fuel.
Proof.
  induction fuel as [|fuel IH]; intros b b'; simpl.
  - case_bool_decide; [done|]. intros [= <-]. repeat split; lia.
  - case_bool_decide.
    + intros Hm. apply IH in Hm. simpl in Hm.
      destruct Hm as (? & ? & ? & ?). repeat split; try done; lia.
    + intros [= <-]. repeat split; lia.
Qed.

(** X20. What mining does to the single-file ledger.  With an empty pool
    [mine_pending_transactions] returns [None] and changes nothing.
    Otherwise the block it returns holds the reward transaction (50 to the
    miner, stamped with the reading of the class [Transaction]) followed by
    the pool, is stamped with the reading of the class [Block], sits at the
    end of the chain with the index of its position and the old tip's hash
    as previous hash, carries the hash of its own fields, and meets the
    ledger's difficulty; the pool is emptied.  The UTXO map is not touched:
    the reward is credited to no one, and every balance is what it was
    before. *)
Theorem legacy_mining_effect (json_dumps : json -> string) (fuel : nat)
    (s : Legacy.Blockchain.t) (miner_address : string) (loaded_tx loaded_block : Z) :
  (Legacy.Blockchain.pending_transactions s = [] ->
   Legacy.Blockchain.mine_pending_transactions json_dumps fuel s miner_address
     loaded_tx loaded_block
   = Some (None, s)) /\
  (forall r s',
     Legacy.Blockchain.pending_transactions s <> [] ->
     Legacy.Blockchain.mine_pending_transactions json_dumps fuel s miner_address
       loaded_tx loaded_block
     = Some (r, s') ->
     exists b tip,
       r = Some b /\
       Legacy.Blockchain.last_block s = Some tip /\
       s' = Legacy.Blockchain.mk (Legacy.Blockchain.chain s ++ [b]) []
              (Legacy.Blockchain.utxos s) (Legacy.Blockchain.difficulty s) /\
       Legacy.Block.index b = Z.of_nat (length (Legacy.Blockchain.chain s)) /\
       Legacy.Block.transactions b
       = Transaction.new json_dumps [] [TransactionOutput.mk 50 miner_address] loaded_tx
           :: Legacy.Blockchain.pending_transactions s /\
       Legacy.Block.timestamp b = loaded_block /\
       Legacy.Block.previous_hash b = Legacy.Block.hash tip /\
       Legacy.Block.hash b = Legacy.Block.calculate_hash json_dumps b /\
       str_take (Legacy.Blockchain.difficulty s) (Legacy.Block.hash b)
       = zeros (Legacy.Blockchain.difficulty s) /\
       forall address,
         Legacy.Blockchain.get_balance s' address = Legacy.Blockchain.get_balance s address).
Proof.
  unfold Legacy.Blockchain.mine_pending_transactions. split.
  - by intros ->.
  - intros r s' Hne H.
    destruct (Legacy.Blockchain.pending_transactions s) as [|tx0 rest]; [done|].
    destruct (Legacy.Blockchain.last_block s) as [tip|]; [|done]. simpl in H.
    destruct (Legacy.Block.mine _ _ _ _) as [b|] eqn:Hmine; [|done]. simpl in H.
    injection H as <- <-.
    pose proof (legacy_mine_fields _ _ _ _ _ Hmine) as (Hi & Ht & Hts & _).
    apply legacy_mine_result in Hmine as (Hh & Hp & Hpow); [|reflexivity].
    exists b, tip. repeat split; done.
Qed.

(** ** Blocks that need no work *)

(** X21. The proof-of-work check of [add_block] reads the difficulty from the
    block itself, never from the ledger.  A block that declares difficulty 0
    is therefore taken whatever hash it carries: if it names the tip as its
    predecessor, carries the Merkle root of its transactions, and holds just
    a reward transaction with one output of 50, [add_block] appends it and
    credits the reward. *)
Theorem unworked_block_is_accepted (s : Blockchain.t) (tip block : Block.t)
    (coinbase : Transaction.t) (recipient : string) :
  Blockchain.last_block s = Some tip ->
  Block.difficulty block = 0%nat ->
  Block.previous_hash block = Block.hash tip ->
  Block.transactions block = [coinbase] ->
  Transaction.inputs coinbase = [] ->
  Transaction.outputs coinbase = [TransactionOutput.mk 50 recipient] ->
  Block.merkle_root block = sha256 (Transaction.txid coinbase +:+ Transaction.txid coinbase) ->
  Blockchain.add_block s block
  = Some (true,
          Blockchain.mk (Blockchain.difficulty s) (Blockchain.chain s ++ [block])
            (Blockchain.pending_transactions s)
            (UTXOSet.add_utxo (Blockchain.utxo s) (Transaction.txid coinbase) 0
               (TransactionOutput.mk 50 recipient))
            (Blockchain.forks s)).
Proof.
  intros Htip Hd Hprev Htxs Hin Hout Hroot.
  assert (Hval : Block.validate block (Block.hash tip) = Some true).
  { unfold Block.validate.
    rewrite bool_decide_eq_false_2 by (intros Hne; apply Hne; exact Hprev).
    rewrite Hd. simpl str_take. simpl zeros.
    rewrite bool_decide_eq_false_2 by (intros Hne; by apply Hne).
    rewrite Htxs. unfold Block.calculate_merkle_root. simpl fmap.
    change (Block.merkle_root_of [Transaction.txid coinbase])
      with (Some (sha256 (Transaction.txid coinbase +:+ Transaction.txid coinbase))).
    simpl mbind.
    by rewrite bool_decide_eq_false_2 by (intros Hne; apply Hne; by rewrite Hroot). }
  assert (Hcb : Transaction.is_coinbase coinbase = true).
  { unfold Transaction.is_coinbase. by rewrite Hin. }
  assert (Hloop : Blockchain.validate_transactions block (Blockchain.utxo s) 0 ∅
                    (Block.transactions block) = true).
  { rewrite Htxs. rewrite validate_transactions_skips_coinbase;
      [|exact Hcb|apply not_elem_of_empty].
    simpl. unfold Blockchain.coinbase_check. by rewrite Htxs, Hcb, Hout. }
  unfold Blockchain.add_block, Blockchain.is_valid_block. rewrite Htip. simpl.
  rewrite Hval. simpl. unfold Blockchain.deepcopy. rewrite Hloop. simpl.
  rewrite bool_decide_eq_false_2 by (intros Hne; apply Hne; exact Hprev).
  unfold UTXOSet.apply_block, UTXOSet.apply_transaction. rewrite Htxs. simpl.
  rewrite Hin, Hout. reflexivity.
Qed.

(** [unworked_block] carries the empty string for a hash. *)
Lemma unworked_block_is_accepted_witness :
  let s := Sample.ledger [Sample.genesis; Sample.block1] [] in
  Blockchain.add_block s Cases.unworked_block
  = Some (true,
          Blockchain.mk (Blockchain.difficulty s)
            (Blockchain.chain s ++ [Cases.unworked_block])
            (Blockchain.pending_transactions s)
            (UTXOSet.add_utxo (Blockchain.utxo s) (Transaction.txid Sample.cb2) 0
               (TransactionOutput.mk 50 "alice"))
            (Blockchain.forks s)).
Proof.
  apply (unworked_block_is_accepted (Sample.ledger [Sample.genesis; Sample.block1] [])
           Sample.block1 Cases.unworked_block Sample.cb2 "alice"); reflexivity.
Defined.

(** ** Blocks off the tracked tips *)

(** X22. What [_handle_fork] does with a block that extends none of the
    tracked forks.  If some block of the canonical chain carries the hash
    the block names as its predecessor, a new fork is recorded: the chain up
    to and including the first such block, followed by the new block; the
    chain, the UTXO set and the pool stay as they are.  If there is none, the
    block is refused and nothing changes. *)
Theorem handle_fork_off_the_forks (s : Blockchain.t) (block : Block.t) :
  Forall (passed_over (Block.previous_hash block)) (Blockchain.forks s) ->
  Blockchain._handle_fork s block
  = Some match list_find (fun b => Block.hash b = Block.previous_hash block)
                 (Blockchain.chain s) with
         | Some (j, _) =>
             (true, Blockchain.set_forks s
                      (Blockchain.forks s ++ [take (S j) (Blockchain.chain s) ++ [block]]))
         | None => (false, s)
         end.
Proof.
  intros Hall. unfold Blockchain._handle_fork.
  rewrite <- (app_nil_r (Blockchain.forks s)) at 1.
  rewrite handle_fork_from_skip by done.
  destruct (list_find (fun b => Block.hash b = Block.previous_hash block)
              (Blockchain.chain s)) as [[j ancestor]|] eqn:Hfind.
  - by rewrite (handle_fork_from_new_fork _ _ _ _ _ Hfind).
  - apply list_find_None in Hfind. by rewrite handle_fork_from_orphan.
Qed.

(** [side1] names [genesis], the first block of the chain. *)
Lemma handle_fork_off_the_forks_witness :
  Blockchain._handle_fork
    (Sample.ledger [Sample.genesis; Sample.block1; Sample.block2] []) Sample.side1
  = Some match list_find (fun b => Block.hash b = Block.previous_hash Sample.side1)
                 [Sample.genesis; Sample.block1; Sample.block2] with
         | Some (j, _) =>
             (true, Blockchain.set_forks
                      (Sample.ledger [Sample.genesis; Sample.block1; Sample.block2] [])
                      ([] ++ [take (S j) [Sample.genesis; Sample.block1; Sample.block2]
                              ++ [Sample.side1]]))
         | None => (false, Sample.ledger [Sample.genesis; Sample.block1; Sample.block2] [])
         end.
Proof.
  exact (handle_fork_off_the_forks
           (Sample.ledger [Sample.genesis; Sample.block1; Sample.block2] []) Sample.side1
           (Forall_nil_2 _)).
Defined.

(** ** Fees *)

(** X24. The fees a block collects play no part in its validation.  The
    loop of [is_valid_block] adds them up, but its verdict is the same
    whatever the running total: the reward is checked against the fixed 50
    alone. *)
Theorem collected_fees_are_ignored (block : Block.t) (txs : list Transaction.t) :
  forall (temp_utxo : UTXOSet.t) (total_fees total_fees' : Z) (seen_txids : gset string),
  Blockchain.validate_transactions block temp_utxo total_fees seen_txids txs
  = Blockchain.validate_transactions block temp_utxo total_fees' seen_txids txs.
Proof.
  induction txs as [|tx rest IH]; intros temp fees fees' seen; simpl; [done|].
  case_bool_decide; [done|].
  destruct (Transaction.is_coinbase tx); [apply IH|].
  destruct (UTXOSet.validate_transaction temp tx) as [[|] v]; simpl; [apply IH|done].
Qed.

(** ** Witnesses of earlier lemmas *)

(** [block_repeated] lists one transaction twice. *)
Lemma add_block_rejections_witness :
  Blockchain.add_block (Sample.ledger [Sample.genesis; Sample.block1] []) Cases.block_repeated
  = Some (false, Sample.ledger [Sample.genesis; Sample.block1] []).
Proof.
  apply (add_block_rejections (Sample.ledger [Sample.genesis; Sample.block1] [])
           Cases.block_repeated Sample.block1).
  - reflexivity.
  - right. right. right. left.
    intros [Hnin _]%NoDup_cons. apply Hnin. apply list_elem_of_singleton. reflexivity.
Defined.

(** [tx_pay] and then [tx_pay_again] on a ledger that holds the output of
    [cb1]. *)
Lemma legacy_second_spend_is_rejected_in_general_witness :
  let s := Legacy.Blockchain.mk [] []
             {[ Legacy.Blockchain.utxo_key (Transaction.txid Sample.cb1) 0 :=
                  TransactionOutput.mk 50 "alice" ]} 2 in
  exists s1,
    Legacy.Blockchain.add_transaction s Sample.tx_pay = (true, s1) /\
    Legacy.Blockchain.add_transaction s1 Sample.tx_pay_again = (false, s1).
Proof.
  apply (legacy_second_spend_is_rejected_in_general _ Sample.tx_pay Sample.tx_pay_again
           (TransactionInput.mk (Transaction.txid Sample.cb1) 0 "mock_signature")
           (TransactionInput.mk (Transaction.txid Sample.cb1) 0 "mock_signature")).
  - vm_compute. reflexivity.
  - apply list_elem_of_singleton. reflexivity.
  - apply list_elem_of_singleton. reflexivity.
  - reflexivity.
  - intros i H. unfold Legacy.Blockchain.utxo_key in H. simpl in H. discriminate H.
Defined.
